(** * Equity-Insights: the model-invocation and response-reconciliation layer

    A shallow embedding of [services/geminiService.ts]: the retry executor
    ([retryOperation]), the error normalizer ([handleApiError]), the response
    extraction inside the report orchestrators, and the module-level caches.

    JavaScript strings are modelled by [string] read as sequences of code
    units below 256 (ASCII and Latin-1); numbers carried inside JavaScript
    values are doubles, each held as the exact decimal it is equal to;
    timestamps and delays are integers ([Z]).
    An asynchronous function is a computation over the module state, the
    object store and the outside world, run to completion; error objects
    live in the store, since the module patches them in place.

    The handlers of the views that call the module ([handleSearch] of
    [App.tsx], [fetchData] of the market view, [handleScreen], the mount
    effect and [handleSort] of the screener, [loadList], [handleAnalyze]
    and [filteredIPOList] of the IPO view) are embedded on top of it, each
    by the component state it settles in. *)

From Stdlib Require Import ZArith List Bool Ascii String Lia.
From stdpp Require Import base option gmap strings.

Local Open Scope string_scope.
Local Open Scope Z_scope.

Set Warnings "-register-all".

(** ** String primitives of the platform *)

Module JsString.

Definition code (c : ascii) : N := N_of_ascii c.

(** The double quote, U+0022. *)
Definition doubleQuote : ascii := ascii_of_N 34.

(** Sample texts are written with apostrophes where the text has double
    quotes; [quoted] puts the double quotes in. *)
Fixpoint quoted (s : string) : string :=
  match s with
  | EmptyString => EmptyString
  | String c r =>
      String (if Ascii.eqb c "'" then doubleQuote else c) (quoted r)
  end.

(** WhiteSpace and LineTerminator code units below 256:
    TAB, LF, VT, FF, CR, SP and NBSP. *)
Definition isWhiteSpace (c : ascii) : bool :=
  let n := code c in
  ((9 <=? n) && (n <=? 13) || (n =? 32) || (n =? 160))%N.

(** Line terminators, the characters that [.] of a regular expression
    refuses. *)
Definition isLineTerminator (c : ascii) : bool :=
  let n := code c in ((n =? 10) || (n =? 13))%N.

(** Upper-case letters with a lower-case partner 32 code units above:
    A-Z, and the Latin-1 letters U+00C0..U+00DE except the multiplication
    sign U+00D7. *)
Definition isUpper (c : ascii) : bool :=
  let n := code c in
  ((65 <=? n) && (n <=? 90) ||
   (192 <=? n) && (n <=? 222) && negb (n =? 215))%N.

Definition lowerChar (c : ascii) : ascii :=
  if isUpper c then ascii_of_N (code c + 32) else c.

(** [s.toLowerCase()] *)
Fixpoint toLowerCase (s : string) : string :=
  match s with
  | EmptyString => EmptyString
  | String c r => String (lowerChar c) (toLowerCase r)
  end.

Fixpoint trimStart (s : string) : string :=
  match s with
  | EmptyString => EmptyString
  | String c r => if isWhiteSpace c then trimStart r else s
  end.

Definition isEmpty (s : string) : bool :=
  match s with EmptyString => true | _ => false end.

Fixpoint trimEnd (s : string) : string :=
  match s with
  | EmptyString => EmptyString
  | String c r =>
      let r' := trimEnd r in
      if isWhiteSpace c && isEmpty r' then EmptyString else String c r'
  end.

(** [s.trim()] *)
Definition trim (s : string) : string := trimEnd (trimStart s).

Fixpoint startsWith (p s : string) : bool :=
  match p, s with
  | EmptyString, _ => true
  | String a p', String b s' => Ascii.eqb a b && startsWith p' s'
  | String _ _, EmptyString => false
  end.

(** [s.includes(p)] *)
Fixpoint includes (p s : string) : bool :=
  startsWith p s ||
  match s with
  | EmptyString => false
  | String _ r => includes p r
  end.

(** [s.indexOf(c)] for a one-character needle; -1 when absent. *)
Fixpoint indexOfFrom (c : ascii) (s : string) (i : Z) : Z :=
  match s with
  | EmptyString => -1
  | String a r => if Ascii.eqb a c then i else indexOfFrom c r (i + 1)
  end.

Definition indexOf (c : ascii) (s : string) : Z := indexOfFrom c s 0.

(** [s.lastIndexOf(c)] for a one-character needle; -1 when absent. *)
Fixpoint lastIndexOfFrom (c : ascii) (s : string) (i : Z) (found : Z) : Z :=
  match s with
  | EmptyString => found
  | String a r =>
      lastIndexOfFrom c r (i + 1) (if Ascii.eqb a c then i else found)
  end.

Definition lastIndexOf (c : ascii) (s : string) : Z :=
  lastIndexOfFrom c s 0 (-1).

Definition len (s : string) : Z := Z.of_nat (String.length s).

(** [s.substring(a, b)]: both indices are clamped to [0, length] and
    swapped when the first exceeds the second. *)
Definition substring (a b : Z) (s : string) : string :=
  let clamp x := Z.max 0 (Z.min x (len s)) in
  let lo := Z.min (clamp a) (clamp b) in
  let hi := Z.max (clamp a) (clamp b) in
  String.substring (Z.to_nat lo) (Z.to_nat (hi - lo)) s.

(** [s.replace(/pat/g, '')] for a literal, non-empty pattern: occurrences
    are removed left to right without overlap.  [skip] counts the
    characters of the current occurrence still to drop. *)
Fixpoint removeAllFrom (pat : string) (skip : nat) (s : string) : string :=
  match s with
  | EmptyString => EmptyString
  | String c r =>
      match skip with
      | S k => removeAllFrom pat k r
      | O =>
          if startsWith pat s
          then removeAllFrom pat (Nat.pred (String.length pat)) r
          else String c (removeAllFrom pat O r)
      end
  end.

Definition removeAll (pat s : string) : string := removeAllFrom pat O s.

(** The rest of the current line: the longest prefix free of line
    terminators. *)
Fixpoint lineOf (s : string) : string :=
  match s with
  | EmptyString => EmptyString
  | String c r => if isLineTerminator c then EmptyString else String c (lineOf r)
  end.

(** The prefix of [s] that ends with its last closing brace. *)
Fixpoint upToLastBrace (s : string) : option string :=
  match s with
  | EmptyString => None
  | String c r =>
      match upToLastBrace r with
      | Some t => Some (String c t)
      | None => if Ascii.eqb c "}" then Some (String c EmptyString) else None
      end
  end.

(** [s.match(/\{.*\}/)]: the leftmost opening brace that is followed, on
    its own line, by a closing brace; the greedy [.*] extends the match to
    the last closing brace of that line.  [Some m] is [jsonMatch[0]],
    [None] is the [null] result. *)
Fixpoint matchBraces (s : string) : option string :=
  match s with
  | EmptyString => None
  | String c r =>
      if Ascii.eqb c "{" then
        match upToLastBrace (lineOf r) with
        | Some body => Some (String c body)
        | None => matchBraces r
        end
      else matchBraces r
  end.

(** A letter a-z. *)
Definition isLowerLetter (c : ascii) : bool :=
  let n := code c in ((97 <=? n) && (n <=? 122))%N.

(** The text holds no letter a-z; what [s.toUpperCase()] returns holds
    none. *)
Fixpoint isUpperCased (s : string) : bool :=
  match s with
  | EmptyString => true
  | String c r => negb (isLowerLetter c) && isUpperCased r
  end.

End JsString.

(** ** JavaScript values and [JSON.parse] *)

Module JsValue.

Import JsString.

(** A number is a double.  A finite double is held as the exact decimal
    [mantissa * 10 ^ exponent] it is equal to, in a canonical form: an
    integer has exponent 0, any other number a negative exponent and a
    mantissa that is no multiple of ten.  The negative zero is kept apart
    from zero.  The two infinities are what a literal beyond the range of
    doubles is read as. *)
Inductive number :=
| Num (mantissa exponent : Z)
| NegativeZero
| Infinite (negative : bool).

Definition int (n : Z) : number := Num n 0.

Definition zero (negative : bool) : number :=
  if negative then NegativeZero else int 0.

Fixpoint stripZeros (fuel : nat) (m e : Z) : number :=
  match fuel with
  | O => Num m e
  | S k =>
      if (e <? 0) && (m mod 10 =? 0)
      then stripZeros k (m / 10) (e + 1)
      else Num m e
  end.

Definition normalize (m e : Z) : number :=
  if m =? 0 then int 0
  else if 0 <=? e then int (m * 10 ^ e)
  else stripZeros (Z.to_nat (- e)) m e.

(** [a === b] on numbers that are not NaN; the two zeros are equal. *)
Definition number_eqb (a b : number) : bool :=
  match a, b with
  | Num m e, Num m' e' => (m =? m') && (e =? e')
  | NegativeZero, NegativeZero => true
  | NegativeZero, Num m _ | Num m _, NegativeZero => m =? 0
  | Infinite x, Infinite y => Bool.eqb x y
  | _, _ => false
  end.

(** [a / b] rounded to the nearest integer, a tie to the even one; [b] is
    positive. *)
Definition roundDiv (a b : Z) : Z :=
  let q := a / b in
  let r := a mod b in
  if 2 * r <? b then q
  else if b <? 2 * r then q + 1
  else if Z.even q then q else q + 1.

(** The integer part of the binary logarithm of [a / b]; both are
    positive. *)
Definition log2Quot (a b : Z) : Z :=
  let d := Z.log2 a - Z.log2 b in
  if (if 0 <=? d then b * 2 ^ d <=? a else b <=? a * 2 ^ (- d))
  then d else d - 1.

(** The double nearest to the positive rational [a / b], a tie to the even
    significand: 53 bits of precision, the unit in the last place never
    below [2 ^ -1074], and infinity from [2 ^ 1024] on. *)
Definition nearestDouble (negative : bool) (a b : Z) : number :=
  let u := Z.max (log2Quot a b - 52) (-1074) in
  let n := if 0 <=? u then roundDiv a (b * 2 ^ u)
           else roundDiv (a * 2 ^ (- u)) b in
  let sign (x : Z) := if negative then - x else x in
  if n =? 0 then zero negative
  else if 0 <=? u then
    if 2 ^ 1024 <=? n * 2 ^ u then Infinite negative
    else int (sign (n * 2 ^ u))
  else normalize (sign (n * 5 ^ (- u))) u.

(** The Number value of the decimal literal [m * 10 ^ e], with a minus sign
    in front when [negative]; [m] is not negative. *)
Definition toDouble (negative : bool) (m e : Z) : number :=
  if m =? 0 then zero negative
  else if 0 <=? e then nearestDouble negative (m * 10 ^ e) 1
  else nearestDouble negative m (10 ^ (- e)).

(** Immutable values: primitives and the trees built by [JSON.parse]. *)
Inductive value :=
| VUndefined
| VNull
| VBool (b : bool)
| VNum (n : number)
| VStr (s : string)
| VArr (xs : list value)
| VObj (fields : list (string * value)).

(** ToBoolean *)
Definition truthy (v : value) : bool :=
  match v with
  | VUndefined | VNull => false
  | VBool b => b
  | VNum (Num m _) => negb (m =? 0)
  | VNum NegativeZero => false
  | VNum (Infinite _) => true
  | VStr s => negb (isEmpty s)
  | VArr _ | VObj _ => true
  end.

(** [a || b] *)
Definition orElse (a b : value) : value := if truthy a then a else b.

(** [v === n] for a number literal [n] *)
Definition isNumber (v : value) (n : Z) : bool :=
  match v with
  | VNum x => number_eqb x (int n)
  | _ => false
  end.

Definition isUndefined (v : value) : bool :=
  match v with VUndefined => true | _ => false end.

(** Property bags: an ordered list of own properties; a read finds the
    property or gives [undefined], a write replaces it in place or appends
    it. *)
Fixpoint lookupField (k : string) (fs : list (string * value)) : value :=
  match fs with
  | nil => VUndefined
  | (k', v) :: r => if String.eqb k k' then v else lookupField k r
  end.

Fixpoint setField (k : string) (v : value) (fs : list (string * value))
  : list (string * value) :=
  match fs with
  | nil => (k, v) :: nil
  | (k', v') :: r =>
      if String.eqb k k' then (k, v) :: r else (k', v') :: setField k v r
  end.

(** No key of the property bag holds a letter a-z. *)
Definition upperKeys (fs : list (string * value)) : bool :=
  forallb (fun kv => isUpperCased (fst kv)) fs.

(** [v.k] on an immutable value: [None] is the TypeError of a read on
    [undefined] or [null]; primitives and arrays have none of the
    properties this module reads. *)
Definition getProp (v : value) (k : string) : option value :=
  match v with
  | VUndefined | VNull => None
  | VObj fs => Some (lookupField k fs)
  | _ => Some VUndefined
  end.

(** *** JSON.parse (ECMA-404 grammar) *)

Definition isJsonWs (c : ascii) : bool :=
  let n := code c in ((n =? 32) || (n =? 9) || (n =? 10) || (n =? 13))%N.

Fixpoint skipWs (s : string) : string :=
  match s with
  | String c r => if isJsonWs c then skipWs r else s
  | EmptyString => s
  end.

Definition digitVal (c : ascii) : option Z :=
  let n := code c in
  if ((48 <=? n) && (n <=? 57))%N then Some (Z.of_N n - 48) else None.

Definition hexVal (c : ascii) : option N :=
  let n := code c in
  if ((48 <=? n) && (n <=? 57))%N then Some (n - 48)%N
  else if ((97 <=? n) && (n <=? 102))%N then Some (n - 87)%N
  else if ((65 <=? n) && (n <=? 70))%N then Some (n - 55)%N
  else None.

(** Reads a run of digits: the accumulated value, how many were read, and
    the rest of the text. *)
Fixpoint readDigits (s : string) (acc : Z) (count : Z) : Z * Z * string :=
  match s with
  | String c r =>
      match digitVal c with
      | Some d => readDigits r (acc * 10 + d) (count + 1)
      | None => (acc, count, s)
      end
  | EmptyString => (acc, count, s)
  end.

(** number = [-] int [frac] [exp] *)
Definition readNumber (s : string) : option (number * string) :=
  let '(neg, s1) :=
    match s with
    | String c r => if Ascii.eqb c "-" then (true, r) else (false, s)
    | EmptyString => (false, s)
    end in
  let intPart :=
    match s1 with
    | String c r =>
        if Ascii.eqb c "0" then Some (0, r)
        else match digitVal c with
             | Some _ => let '(n, _, r') := readDigits s1 0 0 in Some (n, r')
             | None => None
             end
    | EmptyString => None
    end in
  match intPart with
  | None => None
  | Some (n, s2) =>
      let fracPart :=
        match s2 with
        | String c r =>
            if Ascii.eqb c "." then
              let '(m, k, r') := readDigits r n 0 in
              if k =? 0 then None else Some (m, k, r')
            else Some (n, 0, s2)
        | EmptyString => Some (n, 0, s2)
        end in
      match fracPart with
      | None => None
      | Some (m, k, s3) =>
          let expPart :=
            match s3 with
            | String c r =>
                if Ascii.eqb c "e" || Ascii.eqb c "E" then
                  let '(eneg, r1) :=
                    match r with
                    | String d r' =>
                        if Ascii.eqb d "-" then (true, r')
                        else if Ascii.eqb d "+" then (false, r')
                        else (false, r)
                    | EmptyString => (false, r)
                    end in
                  let '(e, j, r2) := readDigits r1 0 0 in
                  if j =? 0 then None
                  else Some ((if eneg then - e else e), r2)
                else Some (0, s3)
            | EmptyString => Some (0, s3)
            end in
          match expPart with
          | None => None
          | Some (e, s4) =>
              Some (toDouble neg m (e - k), s4)
          end
      end
  end.

(** The characters of a string literal after its opening quote, up to the
    closing quote.  An escape [\uXXXX] above U+00FF names a code unit that
    the modelled strings cannot hold.  With [wide = false] the literal is
    read only when it has none (the result is [None] otherwise); with
    [wide = true] such an escape is accepted and a question mark stands in
    its place, which is enough to tell whether the text is JSON. *)
Fixpoint readString (wide : bool) (s : string) : option (string * string) :=
  match s with
  | EmptyString => None
  | String c r =>
      if Ascii.eqb c doubleQuote then Some (EmptyString, r)
      else if Ascii.eqb c "\" then
        match r with
        | EmptyString => None
        | String e r' =>
            let simple (x : ascii) :=
              match readString wide r' with
              | Some (t, rest) => Some (String x t, rest)
              | None => None
              end in
            if Ascii.eqb e doubleQuote || Ascii.eqb e "\" || Ascii.eqb e "/"
            then simple e
            else if Ascii.eqb e "b" then simple (ascii_of_N 8)
            else if Ascii.eqb e "f" then simple (ascii_of_N 12)
            else if Ascii.eqb e "n" then simple (ascii_of_N 10)
            else if Ascii.eqb e "r" then simple (ascii_of_N 13)
            else if Ascii.eqb e "t" then simple (ascii_of_N 9)
            else if Ascii.eqb e "u" then
              match r' with
              | String h1 (String h2 (String h3 (String h4 r''))) =>
                  match hexVal h1, hexVal h2, hexVal h3, hexVal h4 with
                  | Some a, Some b, Some c', Some d =>
                      let n := (((a * 16 + b) * 16 + c') * 16 + d)%N in
                      if (n <? 256)%N || wide then
                        match readString wide r'' with
                        | Some (t, rest) =>
                            Some (String (if (n <? 256)%N then ascii_of_N n
                                          else "?"%char) t, rest)
                        | None => None
                        end
                      else None
                  | _, _, _, _ => None
                  end
              | _ => None
              end
            else None
        end
      else if (code c <? 32)%N then None
      else
        match readString wide r with
        | Some (t, rest) => Some (String c t, rest)
        | None => None
        end
  end.

Section Containers.

Variable wide : bool.
Variable parseElement : string -> option (value * string).

(** value ("," value)* "]" *)
Fixpoint parseElements (fuel : nat) (s : string) (acc : list value)
  : option (value * string) :=
  match fuel with
  | O => None
  | S f =>
      match parseElement s with
      | None => None
      | Some (v, r) =>
          match skipWs r with
          | String c r' =>
              if Ascii.eqb c "," then parseElements f r' (v :: acc)
              else if Ascii.eqb c "]" then Some (VArr (rev (v :: acc)), r')
              else None
          | EmptyString => None
          end
      end
  end.

(** string ":" value ("," string ":" value)* "}"; a repeated key keeps its
    place and takes the later value. *)
Fixpoint parseMembers (fuel : nat) (s : string) (acc : list (string * value))
  : option (value * string) :=
  match fuel with
  | O => None
  | S f =>
      match skipWs s with
      | String q r =>
          if Ascii.eqb q doubleQuote then
            match readString wide r with
            | None => None
            | Some (k, r1) =>
                match skipWs r1 with
                | String c r2 =>
                    if Ascii.eqb c ":" then
                      match parseElement r2 with
                      | None => None
                      | Some (v, r3) =>
                          let acc' := setField k v acc in
                          match skipWs r3 with
                          | String d r4 =>
                              if Ascii.eqb d "," then parseMembers f r4 acc'
                              else if Ascii.eqb d "}" then Some (VObj acc', r4)
                              else None
                          | EmptyString => None
                          end
                      end
                    else None
                | EmptyString => None
                end
            end
          else None
      | EmptyString => None
      end
  end.

End Containers.

Fixpoint parseValue (wide : bool) (fuel : nat) (s : string)
  : option (value * string) :=
  match fuel with
  | O => None
  | S f =>
      match skipWs s with
      | EmptyString => None
      | String c r as t =>
          if Ascii.eqb c "{" then
            match skipWs r with
            | String d r' =>
                if Ascii.eqb d "}" then Some (VObj nil, r')
                else parseMembers wide (parseValue wide f) f r nil
            | EmptyString => None
            end
          else if Ascii.eqb c "[" then
            match skipWs r with
            | String d r' =>
                if Ascii.eqb d "]" then Some (VArr nil, r')
                else parseElements (parseValue wide f) f r nil
            | EmptyString => None
            end
          else if Ascii.eqb c doubleQuote then
            match readString wide r with
            | Some (str, rest) => Some (VStr str, rest)
            | None => None
            end
          else if startsWith "true" t then
            Some (VBool true, String.substring 4 (String.length t - 4) t)
          else if startsWith "false" t then
            Some (VBool false, String.substring 5 (String.length t - 5) t)
          else if startsWith "null" t then
            Some (VNull, String.substring 4 (String.length t - 4) t)
          else
            match readNumber t with
            | Some (n, rest) => Some (VNum n, rest)
            | None => None
            end
      end
  end.

(** The whole text as one JSON value.  The fuel exceeds the length of the
    text, and every nested call follows at least one consumed character. *)
Definition parseText (wide : bool) (text : string) : option value :=
  match parseValue wide (S (String.length text)) text with
  | Some (v, rest) => if isEmpty (skipWs rest) then Some v else None
  | None => None
  end.

(** [JSON.parse(text)] where its value lies within the model: the text is
    JSON and none of its strings holds a code unit above U+00FF. *)
Definition JSON_parse (text : string) : option value := parseText false text.

(** The text is JSON: [JSON.parse(text)] returns.  Where this is [false]
    [JSON.parse] throws its SyntaxError. *)
Definition JSON_valid (text : string) : bool :=
  match parseText true text with
  | Some _ => true
  | None => false
  end.

End JsValue.

(** ** The platform around the module *)

Import JsString JsValue.

(** Mutable objects live in a store; a location is an index into it. *)
Abbreviation loc := nat (only parsing).

(** An object of the store: its own properties, and whether it is an
    instance of [SyntaxError]. *)
Record object := Object {
  props : list (string * value);
  isSyntaxError : bool
}.

Abbreviation store := (list object) (only parsing).

(** What a [throw] or a rejected promise carries: an immutable value (a
    primitive, or a frozen literal) or a reference to a mutable object. *)
Inductive thrown :=
| Prim (v : value)
| Ref (l : loc).

(** [params: SearchParams] of [generateAnalysis] *)
Record SearchParams := {
  ticker : string;
  exchange : string;
  horizon : string;
  lookback : Z
}.

(** The argument of [ai.models.generateContent].  Every prompt is a fixed
    template, so a request is named by its template and the parameters the
    template interpolates. *)
Inductive request :=
| AnalysisPrompt (params : SearchParams)
| MarketPrompt
| ScreenerPrompt (query : string)
| IPOListPrompt
| IPOReportPrompt (ipoName : string)
| ChatLitePrompt (message context : string)
| ChatDetailedPrompt (message context : string).

(** Everything the module takes from its surroundings: the credential read
    at start-up, the clock, the model SDK, and the engine's wording of its
    own errors.  [generateContent] resolves with [response.text] or rejects
    with a thrown value; it may allocate in the store but has no access to
    the module's variables.  [Date_now] is what [Date.now()] returns, and
    [Date_now_again] what it returns when it is called once more in the
    same synchronous run: the clock may have moved on in between, and
    nothing relates the two readings. *)
Class Platform := {
  External : Type;
  apiKey : string;
  Date_now : External -> Z;
  Date_now_again : External -> Z;
  generateContent :
    request -> External -> store -> (option string + thrown) * External * store;
  syntaxErrorMessage : string -> string;
  typeErrorMessage : string -> string;
  String_ : store -> thrown -> string;
  setItemThrows : External -> bool
}.

(** ** Module state *)

(** [{ data, timestamp }] *)
Record CacheEntry := { data : value; timestamp : Z }.

Definition STORAGE_MARKET : string := "equity_insight_market_v1".
Definition STORAGE_IPO_LIST : string := "equity_insight_ipo_list_v1".

Definition MARKET_CACHE_TTL : Z := 5 * 60 * 1000.
Definition SCREENER_CACHE_TTL : Z := 15 * 60 * 1000.
Definition IPO_CACHE_TTL : Z := 60 * 60 * 1000.

Inductive event :=
| Invoked
| Waited (ms : Z).

Inductive outcome (A : Type) :=
| Return (a : A)
| Throw (t : thrown).

Arguments Return {A} a.
Arguments Throw {A} t.

Section Core.

Context {P : Platform}.

(** The store, the outside world, the module-level variables, and the
    persisted slots of [localStorage] ([None] where there is no window). *)
Record World := {
  heap : store;
  ext : External;
  marketCache : option CacheEntry;
  screenerCache : gmap string CacheEntry;
  lastScreenerQuery : option string;
  ipoListCache : option CacheEntry;
  localStorage : option (gmap string CacheEntry)
}.

Definition setHeap (h : store) (w : World) : World :=
  {| heap := h; ext := ext w; marketCache := marketCache w;
     screenerCache := screenerCache w;
     lastScreenerQuery := lastScreenerQuery w;
     ipoListCache := ipoListCache w; localStorage := localStorage w |}.

Definition setExt (e : External) (w : World) : World :=
  {| heap := heap w; ext := e; marketCache := marketCache w;
     screenerCache := screenerCache w;
     lastScreenerQuery := lastScreenerQuery w;
     ipoListCache := ipoListCache w; localStorage := localStorage w |}.

Definition setMarketCache (c : option CacheEntry) (w : World) : World :=
  {| heap := heap w; ext := ext w; marketCache := c;
     screenerCache := screenerCache w;
     lastScreenerQuery := lastScreenerQuery w;
     ipoListCache := ipoListCache w; localStorage := localStorage w |}.

Definition setScreenerCache (c : gmap string CacheEntry) (w : World) : World :=
  {| heap := heap w; ext := ext w; marketCache := marketCache w;
     screenerCache := c;
     lastScreenerQuery := lastScreenerQuery w;
     ipoListCache := ipoListCache w; localStorage := localStorage w |}.

Definition setLastScreenerQuery (q : option string) (w : World) : World :=
  {| heap := heap w; ext := ext w; marketCache := marketCache w;
     screenerCache := screenerCache w;
     lastScreenerQuery := q;
     ipoListCache := ipoListCache w; localStorage := localStorage w |}.

Definition setIpoListCache (c : option CacheEntry) (w : World) : World :=
  {| heap := heap w; ext := ext w; marketCache := marketCache w;
     screenerCache := screenerCache w;
     lastScreenerQuery := lastScreenerQuery w;
     ipoListCache := c; localStorage := localStorage w |}.

Definition setLocalStorage (s : option (gmap string CacheEntry)) (w : World)
  : World :=
  {| heap := heap w; ext := ext w; marketCache := marketCache w;
     screenerCache := screenerCache w;
     lastScreenerQuery := lastScreenerQuery w;
     ipoListCache := ipoListCache w; localStorage := s |}.

(** *** Computations: state, exceptions, and a trace of the operation
    invocations and backoff waits *)

Definition M (A : Type) : Type := World -> outcome A * World * list event.

Definition ret {A} (a : A) : M A := fun w => (Return a, w, nil).

Definition throw {A} (t : thrown) : M A := fun w => (Throw t, w, nil).

Definition bind {A B} (c : M A) (k : A -> M B) : M B :=
  fun w =>
    match c w with
    | (Return a, w1, tr1) =>
        let '(r, w2, tr2) := k a w1 in (r, w2, (tr1 ++ tr2)%list)
    | (Throw t, w1, tr1) => (Throw t, w1, tr1)
    end.

(** [try { c } catch (e) { handler(e) }] *)
Definition tryCatch {A} (c : M A) (handler : thrown -> M A) : M A :=
  fun w =>
    match c w with
    | (Return a, w1, tr1) => (Return a, w1, tr1)
    | (Throw t, w1, tr1) =>
        let '(r, w2, tr2) := handler t w1 in (r, w2, (tr1 ++ tr2)%list)
    end.

Notation "'let*' x ':=' c 'in' k" := (bind c (fun x => k))
  (at level 10, x name, c at level 100, k at level 200).

(** [Date.now()] *)
Definition dateNow : M Z := fun w => (Return (Date_now (ext w)), w, nil).

(** [Date.now()], called a second time in the same synchronous run. *)
Definition dateNowAgain : M Z :=
  fun w => (Return (Date_now_again (ext w)), w, nil).

(** [await wait(ms)].  The wait is recorded in the trace; the time that
    passes belongs to the outside world, and every wait is followed by an
    invocation of the operation, which transforms the outside world as it
    likes before the clock is read again. *)
Definition wait (ms : Z) : M unit := fun w => (Return tt, w, Waited ms :: nil).

(** [await operation()] *)
Definition invoke {T} (operation : World -> outcome T * World) : M T :=
  fun w => let '(r, w1) := operation w in (r, w1, Invoked :: nil).

(** Throwing a freshly created object. *)
Definition throwNew {A} (o : object) : M A :=
  fun w => (Throw (Ref (List.length (heap w))), setHeap (heap w ++ o :: nil)%list w, nil).

Definition newError (message : string) : object :=
  Object (("message", VStr message) :: nil) false.

Definition newSyntaxError (text : string) : object :=
  Object (("message", VStr (syntaxErrorMessage text)) :: nil) true.

Definition newTypeError (expr : string) : object :=
  Object (("message", VStr (typeErrorMessage expr)) :: nil) false.

(** [e.k]: [None] is the TypeError of a read on [undefined] or [null].  A
    location outside the store reads as an object without properties. *)
Definition readProp (h : store) (e : thrown) (k : string) : option value :=
  match e with
  | Prim v => getProp v k
  | Ref l =>
      match h !! l with
      | Some o => Some (lookupField k (props o))
      | None => Some VUndefined
      end
  end.

(** [e.k = v]: [None] is the TypeError of a write to a primitive or a
    frozen value. *)
Definition writeProp (h : store) (e : thrown) (k : string) (v : value)
  : option store :=
  match e with
  | Prim _ => None
  | Ref l =>
      Some (alter (fun o => Object (setField k v (props o)) (isSyntaxError o)) l h)
  end.

Definition instanceofSyntaxError (h : store) (e : thrown) : bool :=
  match e with
  | Prim _ => false
  | Ref l => match h !! l with Some o => isSyntaxError o | None => false end
  end.

(** *** Retry executor *)

(** The two statements that patch the caught error in the catch block of
    [retryOperation]; a TypeError of either write leaves the [try] at once. *)
Definition patchError (h : store) (error : thrown) (status newMessage : value)
  : store :=
  match writeProp h error "status" status with
  | None => h
  | Some h1 =>
      match writeProp h1 error "message" newMessage with
      | None => h1
      | Some h2 => h2
      end
  end.

(** The payload both unwrapping blocks look for: [error.message] is a
    string, [/\{.*\}/] matches inside it, the match parses as JSON, and the
    parsed value has a truthy [error] member, which is the result.  Any
    other case, and whatever is thrown on the way, gives [None]. *)
Definition nestedError (m : value) : option value :=
  match m with
  | VStr s =>
      match matchBraces s with
      | None => None
      | Some jsonMatch =>
          match JSON_parse jsonMatch with
          | None => None
          | Some parsed =>
              match getProp parsed "error" with
              | None => None
              | Some perr => if truthy perr then Some perr else None
              end
          end
      end
  | _ => None
  end.

(** The inner [try { ... } catch (e) { }] of the catch block: with a nested
    payload, the status and the message are taken from it and the caught
    error is patched.  [m] is [error.message]; the result is the final
    [status], [msg] and store.  A payload message that is not a string
    makes [toLowerCase] throw, which leaves the block before the patch. *)
Definition unwrapForRetry (h : store) (error : thrown) (m : value)
    (status : value) (msg : string) : value * string * store :=
  match nestedError m with
  | None => (status, msg, h)
  | Some perr =>
      let pcode := default VUndefined (getProp perr "code") in
      let pmsg := default VUndefined (getProp perr "message") in
      let status1 := if truthy pcode then pcode else status in
      if truthy pmsg then
        match pmsg with
        | VStr ps =>
            (status1, toLowerCase ps,
             patchError h error status1 (orElse pmsg m))
        | _ => (status1, msg, h)
        end
      else (status1, msg, patchError h error status1 (orElse pmsg m))
  end.

(** What the catch block of [retryOperation] learns about a failure. *)
Record Classification := {
  status : value;
  msg : string;
  isQuota : bool;
  isServer : bool
}.

(** The catch block of [retryOperation] up to the retry decision.  [inr]
    names the expression whose TypeError escapes the block: a read on a
    thrown [undefined] or [null], or [toLowerCase] on a [message] that is
    not a string. *)
Definition classifyFailure (h : store) (error : thrown)
  : (Classification * store) + string :=
  match readProp h error "status", readProp h error "code",
        readProp h error "message" with
  | Some st, Some cd, Some m =>
      match orElse m (VStr EmptyString) with
      | VStr s =>
          let '(status, msg, h1) :=
            unwrapForRetry h error m (orElse st cd) (toLowerCase s) in
          let isQuota :=
            isNumber status 429 || includes "quota" msg ||
            includes "resource_exhausted" msg || includes "429" msg in
          let isServer :=
            isNumber status 503 || isNumber status 500 ||
            includes "overloaded" msg in
          inl ({| status := status; msg := msg;
                  isQuota := isQuota; isServer := isServer |}, h1)
      | _ => inr "(error.message || '').toLowerCase"
      end
  | _, _, _ => inr "error.status"
  end.

(** The delay before the next attempt: 5000 ms for a quota failure and
    [initialDelay] for a server failure, doubled with every attempt. *)
Definition retryDelay (c : Classification) (initialDelay : Z) (i : nat) : Z :=
  let baseDelay := if isQuota c then 5000 else initialDelay in
  baseDelay * 2 ^ Z.of_nat i.

(** The [for] loop of [retryOperation], from attempt [i] on, with
    [remaining] iterations left ([remaining = maxRetries - i]). *)
Fixpoint retryLoop {T} (operation : World -> outcome T * World)
    (maxRetries : nat) (initialDelay : Z) (remaining : nat) (i : nat)
    (lastError : thrown) : M T :=
  match remaining with
  | O => throw lastError
  | S k =>
      tryCatch (invoke operation) (fun error w =>
        match classifyFailure (heap w) error with
        | inr expr => throwNew (newTypeError expr) w
        | inl (c, h1) =>
            let w1 := setHeap h1 w in
            if (isQuota c || isServer c) &&
               (Z.of_nat i <? Z.of_nat maxRetries - 1)
            then
              bind (wait (retryDelay c initialDelay i))
                   (fun _ => retryLoop operation maxRetries initialDelay k (S i) error)
                   w1
            else throw error w1
        end)
  end.

(** [retryOperation(operation, maxRetries = 3, initialDelay = 2000)] *)
Definition retryOperation {T} (operation : World -> outcome T * World)
    (maxRetries : nat) (initialDelay : Z) : M T :=
  retryLoop operation maxRetries initialDelay maxRetries O (Prim VUndefined).

Definition defaultMaxRetries : nat := 3.
Definition defaultInitialDelay : Z := 2000.

(** *** Error normalizer *)

(** The [try { ... } catch (e) { }] at the head of [handleApiError]: a
    nested payload overwrites [error.status] with its code and
    [error.message] with its message, each when truthy. *)
Definition unwrapForNormalize (h : store) (error : thrown) : store :=
  match readProp h error "message" with
  | None => h
  | Some m =>
      match nestedError m with
      | None => h
      | Some perr =>
          let pcode := default VUndefined (getProp perr "code") in
          let pmsg := default VUndefined (getProp perr "message") in
          let afterStatus :=
            if truthy pcode then writeProp h error "status" pcode
            else Some h in
          match afterStatus with
          | None => h
          | Some h1 =>
              if truthy pmsg then
                default h1 (writeProp h1 error "message" pmsg)
              else h1
          end
      end
  end.

(** The title, message and retry flag that the chain of tests on the status
    and on the lower-cased message selects; the first test that holds
    wins. *)
Definition classifyTable (status : value) (msg : string) (syntaxError : bool)
  : string * string * bool :=
  if includes "failed to fetch" msg || includes "networkerror" msg ||
     includes "network" msg then
    ("Network Connection Error",
     "Unable to connect to the server. Please check your internet connection or try again later.",
     true)
  else if isNumber status 400 || includes "400" msg ||
          includes "invalid argument" msg then
    ("Invalid Request",
     "The request was rejected. This might be due to an invalid ticker symbol or safety filters triggering.",
     false)
  else if isNumber status 401 || includes "401" msg || includes "api key" msg then
    ("Authentication Error",
     "Invalid API Key. Please ensure your API_KEY is correctly set in the environment.",
     false)
  else if isNumber status 403 || includes "403" msg then
    ("Permission Denied",
     "Your API key does not have access to the required model or region.",
     false)
  else if isNumber status 404 || includes "404" msg then
    ("Resource Not Found",
     "The requested AI model version might be deprecated or unavailable.",
     false)
  else if isNumber status 429 || includes "429" msg || includes "quota" msg ||
          includes "resource_exhausted" msg then
    ("Rate Limit Exceeded",
     "You have hit the API quota limit. Please wait a minute before trying again, or check your billing details.",
     true)
  else if isNumber status 500 || includes "500" msg then
    ("Server Error",
     "Google's AI servers encountered an internal error. Please try again later.",
     true)
  else if isNumber status 503 || includes "503" msg || includes "overloaded" msg then
    ("Service Overloaded",
     "The Gemini API is currently experiencing high traffic. Please retry in a few moments.",
     true)
  else if syntaxError || includes "json" msg || includes "parse" msg then
    ("Data Parsing Error",
     "The AI response could not be processed correctly. This is usually a temporary glitch.",
     true)
  else
    ("Analysis Failed",
     "An unexpected error occurred while generating the report.",
     true).

(** An [AnalysisError] literal. *)
Definition descriptor (title message : string) (details : option value)
    (isRetryable : bool) : object :=
  Object
    (("title", VStr title) :: ("message", VStr message) ::
     match details with
     | Some d => ("details", d) :: nil
     | None => nil
     end ++
     ("isRetryable", VBool isRetryable) :: nil)%list
    false.

(** The test [error.title && error.message && error.isRetryable !== undefined]
    on the three properties read from the error. *)
Definition descriptorShaped (title message isRetryable : value) : bool :=
  truthy title && truthy message && negb (isUndefined isRetryable).

(** What [handleApiError] reads from the error once the nested payload is
    unwrapped: [details], [status] and [msg].  [inr] names the expression
    whose TypeError escapes. *)
Definition readFailure (h : store) (error : thrown)
  : (value * value * string) + string :=
  match readProp h error "message" with
  | None => inr "error.message"
  | Some m =>
      let details := orElse m (VStr (String_ h error)) in
      let status :=
        orElse (default VUndefined (readProp h error "status"))
               (default VUndefined (readProp h error "code")) in
      match orElse m (VStr EmptyString) with
      | VStr s => inl (details, status, toLowerCase s)
      | _ => inr "(error.message || '').toLowerCase"
      end
  end.

(** [handleApiError(error): never].  The result is what it throws.  The
    source creates its [analysisError] literal before the shape test; where
    the error is thrown again nothing refers to the literal, and the store
    does not keep it. *)
Definition handleApiError (error : thrown) (w : World) : thrown * World :=
  let h := unwrapForNormalize (heap w) error in
  match readFailure h error with
  | inr expr =>
      (Ref (List.length h), setHeap (h ++ newTypeError expr :: nil)%list w)
  | inl (details, status, msg) =>
      if descriptorShaped
           (default VUndefined (readProp h error "title"))
           (default VUndefined (readProp h error "message"))
           (default VUndefined (readProp h error "isRetryable"))
      then (error, setHeap h w)
      else
        let '(title, message, isRetryable) :=
          classifyTable status msg (instanceofSyntaxError h error) in
        (Ref (List.length h),
         setHeap (h ++ descriptor title message (Some details) isRetryable :: nil)%list w)
  end.

(** [catch (error) { handleApiError(error); }] *)
Definition rethrowNormalized {A} (error : thrown) : M A :=
  fun w => let '(t, w1) := handleApiError error w in (Throw t, w1, nil).

(** *** Report orchestrators *)

Definition getWorld : M World := fun w => (Return w, w, nil).

Definition modify (f : World -> World) : M unit :=
  fun w => (Return tt, f w, nil).

(** [() => ai.models.generateContent({ ... })] *)
Definition callModel (req : request) (w : World)
  : outcome (option string) * World :=
  let '(r, e, h) := generateContent req (ext w) (heap w) in
  (match r with
   | inl text => Return text
   | inr t => Throw t
   end,
   setHeap h (setExt e w)).

(** [saveCache(key, data, timestamp)]: nothing happens without a window or
    when [localStorage.setItem] throws. *)
Definition saveCache (key : string) (d : value) (ts : Z) : M unit :=
  modify (fun w =>
    match localStorage w with
    | None => w
    | Some slots =>
        if setItemThrows (ext w) then w
        else setLocalStorage (Some (<[key := {| data := d; timestamp := ts |}]> slots)) w
    end).

Definition missingApiKey : object :=
  descriptor "Missing API Key" "API Key is not configured." None false.

(** [text.replace(/```json/g, '').replace(/```/g, '').trim()] *)
Definition stripFences (text : string) : string :=
  trim (removeAll "```" (removeAll "```json" text)).

Definition refusalPatterns : list string :=
  "cannot find" :: "unable to find" :: "no data available" ::
  "doesn't exist" :: "don't have information" :: "valid ticker" ::
  "not a valid" :: nil.

(** [text.length < 500 && refusalPatterns.some(p => text.toLowerCase().includes(p))] *)
Definition isRefusal (text : string) : bool :=
  (len text <? 500) &&
  existsb (fun p => includes p (toLowerCase text)) refusalPatterns.

Definition tickerNotFoundMessage (tk : string) : string :=
  "Unable to generate a report for '" ++ tk ++
  "'. The ticker symbol might be incorrect, delisted, or not supported by the available data sources.".

(** The extraction shared, statement for statement, by the five report
    functions: the text between the first opening and the last closing
    brace goes to [JSON.parse]; without both braces an [Error] with the
    function's own message is thrown. *)
Definition parseBraced (failure : string) (text : string) : M value :=
  let firstBrace := indexOf "{" text in
  let lastBrace := lastIndexOf "}" text in
  if negb (firstBrace =? -1) && negb (lastBrace =? -1) then
    let payload := substring firstBrace (lastBrace + 1) text in
    match JSON_parse payload with
    | Some v => ret v
    | None => throwNew (newSyntaxError payload)
    end
  else throwNew (newError failure).

(** [json.k] on a parsed value *)
Definition member (json : value) (k : string) : M value :=
  match getProp json k with
  | Some v => ret v
  | None => throwNew (newTypeError ("json." ++ k))
  end.

(** The literal that [generateAnalysis] throws on a refusal. *)
Definition tickerNotFound (tk text : string) : object :=
  descriptor "Ticker Not Found" (tickerNotFoundMessage tk) (Some (VStr text)) false.

Definition analysisParseFailure : string :=
  "Failed to parse analysis: Invalid JSON structure received.".

Definition generateAnalysis (params : SearchParams) : M value :=
  if isEmpty apiKey then throwNew missingApiKey
  else
    tryCatch
      (let* response :=
         retryOperation (callModel (AnalysisPrompt params))
                        defaultMaxRetries defaultInitialDelay in
       let text := stripFences (default EmptyString response) in
       if isRefusal text then
         throwNew (tickerNotFound (ticker params) text)
       else
         parseBraced analysisParseFailure text)
      rethrowNormalized.

(** The part of [getMarketOverview] after the cache check. *)
Definition fetchMarketOverview : M value :=
  tryCatch
    (let* response :=
       retryOperation (callModel MarketPrompt)
                      defaultMaxRetries defaultInitialDelay in
     let text := default EmptyString response in
     if isEmpty text then
       throwNew (newError "Empty response received. The AI model might have filtered the content due to safety settings.")
     else
       let* d := parseBraced "Failed to parse market data: Invalid JSON structure."
                             (stripFences text) in
       let* t1 := dateNow in
       let* _ := modify (setMarketCache (Some {| data := d; timestamp := t1 |})) in
       let* t2 := dateNowAgain in
       let* _ := saveCache STORAGE_MARKET d t2 in
       ret d)
    rethrowNormalized.

Definition getMarketOverview (forceRefresh : bool) : M value :=
  if isEmpty apiKey then throwNew missingApiKey
  else
    let* now := dateNow in
    let* w := getWorld in
    match marketCache w with
    | Some cached =>
        if negb forceRefresh && (now - timestamp cached <? MARKET_CACHE_TTL)
        then ret (data cached)
        else fetchMarketOverview
    | None => fetchMarketOverview
    end.

(** [getCacheKey(query) = query.trim().toLowerCase()] *)
Definition getCacheKey (query : string) : string := toLowerCase (trim query).

(** The part of [screenStocks] after the cache check. *)
Definition fetchScreener (query cacheKey : string) : M value :=
  tryCatch
    (let* response :=
       retryOperation (callModel (ScreenerPrompt query))
                      defaultMaxRetries defaultInitialDelay in
     let text := stripFences (default EmptyString response) in
     let* json := parseBraced "Failed to parse screener results." text in
     let* matches := member json "matches" in
     let* t := dateNow in
     let* _ := modify (fun w =>
       setScreenerCache
         (<[cacheKey := {| data := matches; timestamp := t |}]> (screenerCache w)) w) in
     let* _ := modify (setLastScreenerQuery (Some query)) in
     ret matches)
    rethrowNormalized.

Definition screenStocks (query : string) (forceRefresh : bool) : M value :=
  if isEmpty apiKey then throwNew missingApiKey
  else
    let cacheKey := getCacheKey query in
    let* now := dateNow in
    let* w := getWorld in
    match screenerCache w !! cacheKey with
    | Some cached =>
        if negb forceRefresh && (now - timestamp cached <? SCREENER_CACHE_TTL)
        then
          let* _ := modify (setLastScreenerQuery (Some query)) in
          ret (data cached)
        else fetchScreener query cacheKey
    | None => fetchScreener query cacheKey
    end.

(** [getScreenerState()]: [None] is [null]. *)
Definition getScreenerState (w : World) : option (string * value) :=
  match lastScreenerQuery w with
  | Some q =>
      if negb (isEmpty q) then
        match screenerCache w !! getCacheKey q with
        | Some cached => Some (q, data cached)
        | None => None
        end
      else None
  | None => None
  end.

(** The part of [fetchIPOList] after the cache check. *)
Definition fetchIPOListFresh : M value :=
  tryCatch
    (let* response :=
       retryOperation (callModel IPOListPrompt)
                      defaultMaxRetries defaultInitialDelay in
     let text := stripFences (default EmptyString response) in
     let* json := parseBraced "Failed to parse IPO list." text in
     let* items := member json "ipos" in
     let* t1 := dateNow in
     let* _ := modify (setIpoListCache (Some {| data := items; timestamp := t1 |})) in
     let* t2 := dateNowAgain in
     let* _ := saveCache STORAGE_IPO_LIST items t2 in
     ret items)
    rethrowNormalized.

Definition fetchIPOList (forceRefresh : bool) : M value :=
  if isEmpty apiKey then throwNew missingApiKey
  else
    let* now := dateNow in
    let* w := getWorld in
    match ipoListCache w with
    | Some cached =>
        if negb forceRefresh && (now - timestamp cached <? IPO_CACHE_TTL)
        then ret (data cached)
        else fetchIPOListFresh
    | None => fetchIPOListFresh
    end.

Definition generateIPOReport (ipoName : string) : M value :=
  if isEmpty apiKey then throwNew missingApiKey
  else
    tryCatch
      (let* response :=
         retryOperation (callModel (IPOReportPrompt ipoName))
                        defaultMaxRetries defaultInitialDelay in
       let text := stripFences (default EmptyString response) in
       parseBraced "Failed to parse IPO report." text)
      rethrowNormalized.

(** [response.text || fallback] *)
Definition textOr (response : option string) (fallback : string) : string :=
  match response with
  | Some t => if isEmpty t then fallback else t
  | None => fallback
  end.

Definition generateChatResponseLite (message context : string) : M string :=
  if isEmpty apiKey then throwNew (newError "API Key Missing")
  else
    tryCatch
      (let* response :=
         retryOperation (callModel (ChatLitePrompt message context))
                        defaultMaxRetries defaultInitialDelay in
       ret (textOr response "I'm processing that..."))
      (fun _ => ret "I'm thinking...").

Definition generateChatResponseDetailed (message context : string) : M string :=
  if isEmpty apiKey then throwNew (newError "API Key Missing")
  else
    tryCatch
      (let* response :=
         retryOperation (callModel (ChatDetailedPrompt message context))
                        defaultMaxRetries defaultInitialDelay in
       ret (textOr response "I couldn't generate a detailed response."))
      (fun _ => ret "Sorry, I encountered an error fetching detailed information.").

(** *** Observations on a run *)

Definition resultOf {A} (r : outcome A * World * list event) : outcome A :=
  fst (fst r).

Definition worldOf {A} (r : outcome A * World * list event) : World :=
  snd (fst r).

Definition traceOf {A} (r : outcome A * World * list event) : list event :=
  snd r.

(** How often the operation was invoked. *)
Fixpoint invocations (tr : list event) : nat :=
  match tr with
  | nil => O
  | Invoked :: r => S (invocations r)
  | Waited _ :: r => invocations r
  end.

(** The backoff waits, in order. *)
Fixpoint waits (tr : list event) : list Z :=
  match tr with
  | nil => nil
  | Invoked :: r => waits r
  | Waited ms :: r => ms :: waits r
  end.

(** The module-level caches and the persisted slots. *)
Definition caches (w : World) :=
  (marketCache w, screenerCache w, lastScreenerQuery w, ipoListCache w,
   localStorage w).

(** What the screener restores its state from. *)
Definition screenerState (w : World) := (screenerCache w, lastScreenerQuery w).

(** The store and the outside world: all that is not a cache. *)
Definition outside (w : World) := (heap w, ext w).

(** The error-descriptor shape, as [handleApiError] tests it, of a thrown
    value in a store. *)
Definition isDescriptor (h : store) (t : thrown) : bool :=
  descriptorShaped
    (default VUndefined (readProp h t "title"))
    (default VUndefined (readProp h t "message"))
    (default VUndefined (readProp h t "isRetryable")).

(** [handleApiError] cannot read the failure: the TypeError of its own
    property reads escapes in place of a descriptor. *)
Definition normalizerCrashes (error : thrown) (w : World) : bool :=
  match readFailure (unwrapForNormalize (heap w) error) error with
  | inr _ => true
  | inl _ => false
  end.

(** The words that select one of the rows of [classifyTable] above the
    parse-error row. *)
Definition transportKeywords : list string :=
  "failed to fetch" :: "networkerror" :: "network" :: "400" ::
  "invalid argument" :: "401" :: "api key" :: "403" :: "404" :: "429" ::
  "quota" :: "resource_exhausted" :: "500" :: "503" :: "overloaded" :: nil.

Definition mentionsTransport (msg : string) : bool :=
  existsb (fun k => includes k msg) transportKeywords.

(** An invocation of [operation] in world [w] fails with [error], which
    the catch block of [retryOperation] classifies as [c], leaving world
    [w']. *)
Definition failsClassified {T} (operation : World -> outcome T * World)
    (w : World) (error : thrown) (c : Classification) (w' : World) : Prop :=
  exists wf h1,
    operation w = (Throw error, wf) /\
    classifyFailure (heap wf) error = inl (c, h1) /\
    w' = setHeap h1 wf.

(** The descriptor of the parse-error row of the table. *)
Definition dataParsingError (details : value) : object :=
  descriptor "Data Parsing Error"
    "The AI response could not be processed correctly. This is usually a temporary glitch."
    (Some details) true.

(** The computation leaves the observed part [proj] of the world as it
    found it. *)
Definition preserves {X A} (proj : World -> X) (c : M A) : Prop :=
  forall w, proj (worldOf (c w)) = proj w.

Definition preservesOp {X A} (proj : World -> X)
    (op : World -> outcome A * World) : Prop :=
  forall w, proj (snd (op w)) = proj w.

(** The computation takes nothing from the caches: in two worlds with the
    same store and the same outside world it has the same result and the
    same trace, and leaves the same store and outside world. *)
Definition blind {A} (c : M A) : Prop :=
  forall w1 w2, outside w1 = outside w2 ->
    resultOf (c w1) = resultOf (c w2) /\
    traceOf (c w1) = traceOf (c w2) /\
    outside (worldOf (c w1)) = outside (worldOf (c w2)).

Definition blindOp {A} (op : World -> outcome A * World) : Prop :=
  forall w1 w2, outside w1 = outside w2 ->
    fst (op w1) = fst (op w2) /\
    outside (snd (op w1)) = outside (snd (op w2)).

(** *** Histories of calls into the module *)

(** The five report functions, called with their arguments. *)
Inductive reportCall :=
| AnalysisCall (params : SearchParams)
| MarketCall (forceRefresh : bool)
| ScreenerCall (query : string) (forceRefresh : bool)
| IPOListCall (forceRefresh : bool)
| IPOReportCall (ipoName : string).

Definition runReport (c : reportCall) : M value :=
  match c with
  | AnalysisCall params => generateAnalysis params
  | MarketCall b => getMarketOverview b
  | ScreenerCall q b => screenStocks q b
  | IPOListCall b => fetchIPOList b
  | IPOReportCall n => generateIPOReport n
  end.

(** The two chat functions, called with their arguments. *)
Inductive chatCall :=
| LiteCall (message context : string)
| DetailedCall (message context : string).

Definition runChat (c : chatCall) : M string :=
  match c with
  | LiteCall m x => generateChatResponseLite m x
  | DetailedCall m x => generateChatResponseDetailed m x
  end.







End Core.

(** ** Runs of the retry executor *)

Section RetryRuns.

Context {P : Platform} {T : Type}.
Variable operation : World -> outcome T * World.
Variable initialDelay : Z.

(** From attempt [i] on and from world [w], the operation fails one time
    after the other, every failure one that the catch block classifies as a
    quota or a server failure; [ds] are the delays these failures ask for,
    in order, and [w'] is the world the last of them leaves. *)
Inductive retryableFailures : nat -> World -> list Z -> World -> Prop :=
| failures_none (i : nat) (w : World) : retryableFailures i w nil w
| failures_more (i : nat) (w w1 w2 : World) (e : thrown) (c : Classification)
    (ds : list Z) :
    failsClassified operation w e c w1 ->
    isQuota c || isServer c = true ->
    retryableFailures (S i) w1 ds w2 ->
    retryableFailures i w (retryDelay c initialDelay i :: ds) w2.

End RetryRuns.

(** The trace of a run that waits [ds]: an invocation, and one more after
    every wait. *)
Definition retryTrace (ds : list Z) : list event :=
  Invoked :: flat_map (fun d => Waited d :: Invoked :: nil) ds.

(** The time spent in backoff waits. *)
Definition totalWait (tr : list event) : Z := fold_right Z.add 0 (waits tr).

(** A failure whose properties the catch block of [retryOperation] cannot
    read as it expects: a thrown [undefined] or [null], or a truthy
    [message] that is not a string. *)
Definition unreadableFailure (h : store) (error : thrown) : bool :=
  match readProp h error "message" with
  | None => true
  | Some m =>
      truthy m && match m with VStr _ => false | _ => true end
  end.

(** The computation neither invokes the model nor waits. *)
Definition quiet {P : Platform} {A : Type} (c : M A) : Prop :=
  forall w, traceOf (c w) = nil.

(** The prompt of a report call. *)
Definition promptOf (c : reportCall) : request :=
  match c with
  | AnalysisCall params => AnalysisPrompt params
  | MarketCall _ => MarketPrompt
  | ScreenerCall q _ => ScreenerPrompt q
  | IPOListCall _ => IPOListPrompt
  | IPOReportCall n => IPOReportPrompt n
  end.

(** The prompt of a chat call. *)
Definition chatPromptOf (c : chatCall) : request :=
  match c with
  | LiteCall m x => ChatLitePrompt m x
  | DetailedCall m x => ChatDetailedPrompt m x
  end.

(** The [AnalysisError] interface of the views, on a thrown value in a
    store: [title] and [message] are strings, [details] is a string or
    absent, and [isRetryable] is a boolean. *)
Definition isErrorDescriptor (h : store) (t : thrown) : bool :=
  match readProp h t "title", readProp h t "message",
        readProp h t "details", readProp h t "isRetryable" with
  | Some (VStr _), Some (VStr _), Some (VStr _), Some (VBool _) => true
  | Some (VStr _), Some (VStr _), Some VUndefined, Some (VBool _) => true
  | _, _, _, _ => false
  end.




(** When the computation throws, it has left the observed part [proj] of
    the world as it found it. *)
Definition keepsOnThrow {P : Platform} {X A : Type} (proj : World -> X)
    (c : M A) : Prop :=
  forall w w' t tr, c w = (Throw t, w', tr) -> proj w' = proj w.

(** A string of white space only. *)
Fixpoint isBlank (s : string) : bool :=
  match s with
  | EmptyString => true
  | String c r => isWhiteSpace c && isBlank r
  end.

(** ** The views that call the module

    A handler of a view is modelled by the component state it has settled
    in when its promise is resolved or rejected, no other handler having
    run in between; the rejection, if any, is given beside the state. *)

(** ['k' in o] on the own properties of an object *)
Definition hasField (k : string) (fs : list (string * value)) : bool :=
  existsb (fun kv => String.eqb k (fst kv)) fs.

(** [err && typeof err === 'object' && 'title' in err] *)
Definition isStructured (h : store) (err : thrown) : bool :=
  match err with
  | Prim (VObj fs) => hasField "title" fs
  | Prim _ => false
  | Ref l =>
      match h !! l with
      | Some o => hasField "title" (props o)
      | None => false
      end
  end.

(** The literal [{ title, message, details, isRetryable: true }] of a
    catch block; [details] only where the source gives it. *)
Definition errorLiteral (title : string) (message : value)
    (details : option string) : object :=
  Object
    (("title", VStr title) :: ("message", message) ::
     match details with
     | Some d => ("details", VStr d) :: nil
     | None => nil
     end ++
     ("isRetryable", VBool true) :: nil)%list
    false.

Section CatchBlocks.

Context {P : Platform}.

(** The catch block that builds the literal
    [{ title, message: err.message || fallback, details: String(err),
       isRetryable: true }].
    [inl] is the error the view is given; [inr] is the TypeError of
    [err.message] on [undefined] or [null], which leaves the block. *)
Definition describeFailure (title fallback : string) (withDetails : bool)
    (err : thrown) (w : World) : (thrown + thrown) * World :=
  match readProp (heap w) err "message" with
  | None =>
      (inr (Ref (List.length (heap w))),
       setHeap (heap w ++ newTypeError "err.message" :: nil)%list w)
  | Some m =>
      (inl (Ref (List.length (heap w))),
       setHeap (heap w ++
                errorLiteral title (orElse m (VStr fallback))
                  (if withDetails then Some (String_ (heap w) err) else None)
                :: nil)%list w)
  end.

(** The catch block that shows a structured error as it is and builds the
    literal for any other. *)
Definition structuredOr (title fallback : string) (withDetails : bool)
    (err : thrown) (w : World) : (thrown + thrown) * World :=
  if isStructured (heap w) err then (inl err, w)
  else describeFailure title fallback withDetails err w.

End CatchBlocks.

(** [e.title] *)
Definition titleOf (h : store) (e : thrown) : value :=
  default VUndefined (readProp h e "title").

(** A thrown value that the catch blocks of the views can turn into an
    error to show: its [message] can be read, and when it is structured
    its title is truthy. *)
Definition showable {P : Platform} (t : thrown) (w : World) : Prop :=
  readProp (heap w) t "message" <> None /\
  (isStructured (heap w) t = true -> truthy (titleOf (heap w) t) = true).

(** What a handler leaves: the component state, the rejection of its
    promise if it has one, the world, and the trace. *)
Definition settled (S : Type) {P : Platform} : Type :=
  S * option thrown * World * list event.

(** [if (onDataUpdate) onDataUpdate(data)], on the list of the values passed
    to the callback so far, oldest first. *)
Definition notify (onDataUpdate : bool) (d : value) (us : list value)
  : list value :=
  if onDataUpdate then (us ++ d :: nil)%list else us.

(** *** StockScreener *)

Module StockScreener.

Inductive SortDirection := asc | desc.

Record SortConfig := { key : string; direction : SortDirection }.

(** The state of the component, and what it has passed to [onDataUpdate],
    oldest first. *)
Record State := {
  query : string;
  results : option value;
  loading : bool;
  error : option thrown;
  sortConfig : option SortConfig;
  updates : list value
}.

Definition initial : State :=
  {| query := EmptyString; results := None; loading := false; error := None;
     sortConfig := None; updates := nil |}.

(** The effect that runs on mount. *)
Definition restore {P : Platform} (onDataUpdate : bool) (s : State) (w : World)
  : State :=
  match getScreenerState w with
  | Some (q, d) =>
      {| query := q; results := Some d; loading := loading s;
         error := error s; sortConfig := sortConfig s;
         updates := notify onDataUpdate d (updates s) |}
  | None => s
  end.

Definition handleScreen {P : Platform} (onDataUpdate : bool)
    (searchQuery : string) (s : State) (w : World) : settled State :=
  if isEmpty (trim searchQuery) then (s, None, w, nil)
  else
    match screenStocks searchQuery false w with
    | (Return d, w1, tr) =>
        ({| query := query s; results := Some d; loading := false;
            error := None; sortConfig := None;
            updates := notify onDataUpdate d (updates s) |},
         None, w1, tr)
    | (Throw err, w1, tr) =>
        match structuredOr "Screener Failed"
                "Could not complete the screening request." false err w1 with
        | (inl shown, w2) =>
            ({| query := query s; results := None; loading := false;
                error := Some shown; sortConfig := None;
                updates := updates s |},
             None, w2, tr)
        | (inr typeError, w2) =>
            ({| query := query s; results := None; loading := false;
                error := None; sortConfig := None; updates := updates s |},
             Some typeError, w2, tr)
        end
    end.

Definition handleSort (k : string) (s : State) : State :=
  let d :=
    match sortConfig s with
    | Some c =>
        if String.eqb (key c) k &&
           match direction c with asc => true | desc => false end
        then desc else asc
    | None => asc
    end in
  {| query := query s; results := results s; loading := loading s;
     error := error s; sortConfig := Some {| key := k; direction := d |};
     updates := updates s |}.

End StockScreener.

(** *** App *)

Module App.

(** The state that [handleSearch] reads and writes. *)
Record State := {
  loading : bool;
  report : option value;
  error : option thrown;
  params : SearchParams
}.

Definition handleSearch {P : Platform} (s : State) (w : World) : settled State :=
  match generateAnalysis (params s) w with
  | (Return d, w1, tr) =>
      ({| loading := false; report := Some d; error := None;
          params := params s |},
       None, w1, tr)
  | (Throw err, w1, tr) =>
      match structuredOr "Unexpected Error" "An unknown error occurred."
                         true err w1 with
      | (inl shown, w2) =>
          ({| loading := false; report := None; error := Some shown;
              params := params s |},
           None, w2, tr)
      | (inr typeError, w2) =>
          ({| loading := false; report := None; error := None;
              params := params s |},
           Some typeError, w2, tr)
      end
  end.

End App.

(** *** MarketDashboard *)

Module MarketDashboard.

Record State := {
  data : option value;
  loading : bool;
  refreshing : bool;
  error : option thrown;
  updates : list value
}.

(** The truth value of the state variable [data]; [None] is [null]. *)
Definition hasData (s : State) : bool :=
  match data s with
  | Some v => truthy v
  | None => false
  end.

Definition fetchData {P : Platform} (onDataUpdate : bool) (forceRefresh : bool)
    (s : State) (w : World) : settled State :=
  let error0 := if hasData s then error s else None in
  match getMarketOverview forceRefresh w with
  | (Return result, w1, tr) =>
      ({| data := Some result; loading := false; refreshing := false;
          error := None;
          updates := notify onDataUpdate result (updates s) |},
       None, w1, tr)
  | (Throw err, w1, tr) =>
      match structuredOr "Market Data Error" "Failed to load market data."
                         true err w1 with
      | (inl shown, w2) =>
          ({| data := data s; loading := false; refreshing := false;
              error := Some shown; updates := updates s |},
           None, w2, tr)
      | (inr typeError, w2) =>
          ({| data := data s; loading := false; refreshing := false;
              error := error0; updates := updates s |},
           Some typeError, w2, tr)
      end
  end.

End MarketDashboard.

(** *** IPODashboard *)

Module IPODashboard.

Inductive View := list_view | detail_view.

Record State := {
  view : View;
  ipoList : value;
  selectedIPO : option value;
  loading : bool;
  analyzing : bool;
  error : option thrown;
  statusFilter : string;
  typeFilter : string;
  updates : list value
}.

Definition initial : State :=
  {| view := list_view; ipoList := VArr nil; selectedIPO := None;
     loading := false; analyzing := false; error := None;
     statusFilter := "All"; typeFilter := "All"; updates := nil |}.

Definition loadList {P : Platform} (onDataUpdate : bool) (s : State) (w : World)
  : settled State :=
  match fetchIPOList false w with
  | (Return d, w1, tr) =>
      ({| view := view s; ipoList := d; selectedIPO := selectedIPO s;
          loading := false; analyzing := analyzing s; error := error s;
          statusFilter := statusFilter s; typeFilter := typeFilter s;
          updates := notify onDataUpdate d (updates s) |},
       None, w1, tr)
  | (Throw err, w1, tr) =>
      match describeFailure "Failed to fetch IPOs" "Could not retrieve IPO list."
                            false err w1 with
      | (inl shown, w2) =>
          ({| view := view s; ipoList := ipoList s; selectedIPO := selectedIPO s;
              loading := false; analyzing := analyzing s; error := Some shown;
              statusFilter := statusFilter s; typeFilter := typeFilter s;
              updates := updates s |},
           None, w2, tr)
      | (inr typeError, w2) =>
          ({| view := view s; ipoList := ipoList s; selectedIPO := selectedIPO s;
              loading := false; analyzing := analyzing s; error := error s;
              statusFilter := statusFilter s; typeFilter := typeFilter s;
              updates := updates s |},
           Some typeError, w2, tr)
      end
  end.

Definition handleAnalyze {P : Platform} (onDataUpdate : bool) (ipoName : string)
    (s : State) (w : World) : settled State :=
  match generateIPOReport ipoName w with
  | (Return r, w1, tr) =>
      ({| view := detail_view; ipoList := ipoList s; selectedIPO := Some r;
          loading := loading s; analyzing := false; error := None;
          statusFilter := statusFilter s; typeFilter := typeFilter s;
          updates := notify onDataUpdate r (updates s) |},
       None, w1, tr)
  | (Throw err, w1, tr) =>
      match describeFailure "Analysis Failed" "Could not analyze the selected IPO."
                            false err w1 with
      | (inl shown, w2) =>
          ({| view := view s; ipoList := ipoList s; selectedIPO := selectedIPO s;
              loading := loading s; analyzing := false; error := Some shown;
              statusFilter := statusFilter s; typeFilter := typeFilter s;
              updates := updates s |},
           None, w2, tr)
      | (inr typeError, w2) =>
          ({| view := view s; ipoList := ipoList s; selectedIPO := selectedIPO s;
              loading := loading s; analyzing := false; error := None;
              statusFilter := statusFilter s; typeFilter := typeFilter s;
              updates := updates s |},
           Some typeError, w2, tr)
      end
  end.

(** [v === s] for a string [s] *)
Definition isString (v : value) (s : string) : bool :=
  match v with
  | VStr t => String.eqb t s
  | _ => false
  end.

(** The callback of [ipoList.filter]; [None] is the TypeError of a
    property read on [undefined] or [null]. *)
Definition matchesFilters (statusFilter typeFilter : string) (ipo : value)
  : option bool :=
  match
    (if String.eqb statusFilter "All" then Some true
     else option_map (fun v => isString v statusFilter) (getProp ipo "status"))
  with
  | None => None
  | Some statusMatch =>
      match
        (if String.eqb typeFilter "All" then Some true
         else option_map (fun v => isString (orElse v (VStr "Mainboard")) typeFilter)
                         (getProp ipo "type"))
      with
      | None => None
      | Some typeMatch => Some (statusMatch && typeMatch)
      end
  end.

Fixpoint filterItems (statusFilter typeFilter : string) (xs : list value)
  : option (list value) :=
  match xs with
  | nil => Some nil
  | x :: r =>
      match matchesFilters statusFilter typeFilter x with
      | None => None
      | Some keep =>
          match filterItems statusFilter typeFilter r with
          | None => None
          | Some r' => Some (if keep then x :: r' else r')
          end
      end
  end.

(** [filteredIPOList]; [None] is a TypeError: the list is no array, or the
    callback throws. *)
Definition filteredIPOList (s : State) : option (list value) :=
  match ipoList s with
  | VArr xs => filterItems (statusFilter s) (typeFilter s) xs
  | _ => None
  end.

End IPODashboard.

(** ** A scripted platform

    The model SDK answers from a script: each call consumes the next entry,
    which resolves with a text, rejects with a new object, or rejects with
    a given value.  The clock is a field of the outside world; a second
    reading in the same synchronous run finds it one millisecond later. *)

Inductive scripted :=
| Resolve (text : option string)
| Reject (o : object)
| RejectWith (t : thrown).

Record Script := { pending : list scripted; clock : Z }.

Definition scriptedGenerate (req : request) (e : Script) (h : store)
  : (option string + thrown) * Script * store :=
  match pending e with
  | nil => (inl None, e, h)
  | Resolve text :: r => (inl text, {| pending := r; clock := clock e |}, h)
  | Reject o :: r =>
      (inr (Ref (List.length h)), {| pending := r; clock := clock e |},
       (h ++ o :: nil)%list)
  | RejectWith t :: r => (inr t, {| pending := r; clock := clock e |}, h)
  end.

Definition scriptedPlatform (key : string) : Platform := {|
  External := Script;
  apiKey := key;
  Date_now := clock;
  Date_now_again := fun e => clock e + 1;
  generateContent := scriptedGenerate;
  syntaxErrorMessage := fun _ => "Unexpected token in JSON";
  typeErrorMessage := fun expr => "TypeError at " ++ expr;
  String_ := fun _ _ => "[object Object]";
  setItemThrows := fun _ => false
|}.

(** A world of the scripted platform with empty caches. *)
Definition scriptedWorld (key : string) (h : store) (script : list scripted)
    (now : Z) : @World (scriptedPlatform key) :=
  @Build_World (scriptedPlatform key) h {| pending := script; clock := now |}
               None ∅ None None (Some ∅).

(** A platform whose model SDK fails the way the SDK does: it rejects with
    a new error that has a status and a message, and nothing else. *)
Inductive reply :=
| Answer (text : option string)
| Failure (status : Z) (message : string).




(** ** Sample inputs *)


Definition quotaByStatus : object :=
  Object (("status", VNum (int 429)) :: ("message", VStr "Too Many Requests") :: nil)
         false.

Definition quotaByPayload : object :=
  Object (("message",
           VStr (quoted "got status: 429. {'error':{'code':429,'message':'Quota exceeded','status':'RESOURCE_EXHAUSTED'}}"))
          :: nil)
         false.

Definition invalidArgument : object :=
  Object (("status", VNum (int 400)) ::
          ("message",
           VStr (quoted "got status: 400. {'error':{'code':400,'message':'API key not valid','status':'INVALID_ARGUMENT'}}"))
          :: nil)
         false.

Definition plainBadRequest : object :=
  Object (("status", VNum (int 400)) :: ("message", VStr "Bad Request") :: nil)
         false.

Definition sampleParams (tk : string) : SearchParams :=
  {| ticker := tk; exchange := "NSE"; horizon := "Swing"; lookback := 90 |}.

(** The model rejects twice with a quota failure, then answers. *)
Definition quotaWorld : @World (scriptedPlatform "key") :=
  scriptedWorld "key" nil
    (Reject quotaByStatus :: Reject quotaByPayload :: Resolve (Some "ok") :: nil) 0.

(** The model rejects once with an invalid-argument failure whose message
    carries the serialized error body. *)
Definition invalidArgumentWorld : @World (scriptedPlatform "key") :=
  scriptedWorld "key" nil (Reject invalidArgument :: nil) 0.

(** The model rejects once with a bad request that carries no payload. *)
Definition badRequestWorld : @World (scriptedPlatform "key") :=
  scriptedWorld "key" nil (Reject plainBadRequest :: nil) 0.

(** A ticker that carries a serialized error body. *)
Definition injectedTicker : string := quoted "{'error':{'message':'hi'}}".

(** A store that holds one pre-classified failure. *)
Definition preclassifiedWorld : @World (scriptedPlatform "key") :=
  scriptedWorld "key" (tickerNotFound injectedTicker "cannot find" :: nil) nil 0.

(** A store that holds the failure pre-classified for an upper-cased
    ticker. *)
Definition notFoundWorld : @World (scriptedPlatform "key") :=
  scriptedWorld "key" (tickerNotFound "INFY" "cannot find" :: nil) nil 0.

(** A failure that carries a title, a message and a retry flag, the title a
    number and the retry flag a string. *)
Definition titledRejection : object :=
  Object (("title", VNum (int 7)) :: ("message", VStr "Service notice") ::
          ("isRetryable", VStr "no") :: nil)
         false.

(** The model rejects once with that failure. *)
Definition titledRejectionWorld : @World (scriptedPlatform "key") :=
  scriptedWorld "key" nil (Reject titledRejection :: nil) 0.

(** No API key is configured. *)
Definition keylessWorld : @World (scriptedPlatform EmptyString) :=
  scriptedWorld EmptyString nil (Resolve (Some "hello") :: nil) 0.

(** The model refuses. *)
Definition refusalWorld : @World (scriptedPlatform "key") :=
  scriptedWorld "key" nil (Resolve (Some "I cannot find this ticker.") :: nil) 0.

(** A ticker that carries a serialized error body whose message is a
    number. *)
Definition payloadTicker : string := quoted "{'error':{'message':5}}".

Definition newline : string := String (ascii_of_N 10) EmptyString.

(** The answer [Sure!], a fenced block with the object [{a:1}]. *)
Definition fencedAnswer : string :=
  "Sure! ```json" ++ newline ++ quoted "{'a':1}" ++ newline ++ "```".

Definition fencedWorld : @World (scriptedPlatform "key") :=
  scriptedWorld "key" nil (Resolve (Some fencedAnswer) :: nil) 0.

(** A short answer that is a JSON object and holds a refusal phrase. *)
Definition parsableRefusal : string := quoted "{'thesis':'cannot find'}".

Definition parsableRefusalWorld : @World (scriptedPlatform "key") :=
  scriptedWorld "key" nil (Resolve (Some parsableRefusal) :: nil) 0.

(** A stored market overview, one second old. *)
Definition sampleEntry : CacheEntry :=
  {| data := VObj (("market_sentiment", VStr "Bullish") :: nil); timestamp := 1000 |}.

(** At 2000 ms the market cache holds the entry, as loaded from its
    persisted slot. *)
Definition cachedWorld (key : string) : @World (scriptedPlatform key) :=
  setLocalStorage (Some {[ STORAGE_MARKET := sampleEntry ]})
    (setMarketCache (Some sampleEntry)
                    (scriptedWorld key nil (Resolve (Some "{}") :: nil) 2000)).

(** The model answers a screener query with no matches. *)
Definition screenerWorld : @World (scriptedPlatform "key") :=
  scriptedWorld "key" nil (Resolve (Some (quoted "{'matches':[]}")) :: nil) 0.



(** The model rejects three times with a quota failure. *)
Definition exhaustedWorld : @World (scriptedPlatform "key") :=
  scriptedWorld "key" nil
    (Reject quotaByStatus :: Reject quotaByStatus :: Reject quotaByStatus :: nil) 0.

(** The model rejects with [undefined]. *)
Definition nullishWorld : @World (scriptedPlatform "key") :=
  scriptedWorld "key" nil
    (RejectWith (Prim VUndefined) :: Resolve (Some "ok") :: nil) 0.

(** A store that holds a bad request without a payload. *)
Definition heldBadRequestWorld : @World (scriptedPlatform "key") :=
  scriptedWorld "key" (plainBadRequest :: nil) nil 0.

(** A failure with the status 401 whose message speaks of the network. *)
Definition networkFailure : object :=
  Object (("status", VNum (int 401)) :: ("message", VStr "Network unreachable") :: nil)
         false.

Definition heldNetworkFailureWorld : @World (scriptedPlatform "key") :=
  scriptedWorld "key" (networkFailure :: nil) nil 0.

(** The market cache holds the entry, the model rejects the next call. *)
Definition failingRefreshWorld : @World (scriptedPlatform "key") :=
  setMarketCache (Some sampleEntry)
    (scriptedWorld "key" nil (Reject plainBadRequest :: nil) 2000).

(** The model answers the IPO report with a closing brace, a number and
    an opening brace. *)
Definition swappedBracesWorld : @World (scriptedPlatform "key") :=
  scriptedWorld "key" nil (Resolve (Some "} 7 {") :: nil) 0.

(** The model answers with the empty text. *)
Definition emptyAnswerWorld : @World (scriptedPlatform "key") :=
  scriptedWorld "key" nil (Resolve (Some EmptyString) :: nil) 0.

(** The model answers the market prompt with an empty object. *)
Definition marketAnswerWorld : @World (scriptedPlatform "key") :=
  scriptedWorld "key" nil (Resolve (Some "{}") :: nil) 7000.

(** The model answers the IPO list prompt with an empty list. *)
Definition ipoAnswerWorld : @World (scriptedPlatform "key") :=
  scriptedWorld "key" nil (Resolve (Some (quoted "{'ipos':[]}")) :: nil) 7000.

(** The IPO view with a main-board issue, an issue without a type and an
    SME issue on its list, filtered by the type [Mainboard]. *)
Definition filteredView : IPODashboard.State :=
  {| IPODashboard.view := IPODashboard.list_view;
     IPODashboard.ipoList :=
       VArr (VObj (("name", VStr "A") :: ("type", VStr "Mainboard") :: nil) ::
             VObj (("name", VStr "B") :: nil) ::
             VObj (("name", VStr "C") :: ("type", VStr "SME") :: nil) :: nil);
     IPODashboard.selectedIPO := None;
     IPODashboard.loading := false;
     IPODashboard.analyzing := false;
     IPODashboard.error := None;
     IPODashboard.statusFilter := "All";
     IPODashboard.typeFilter := "Mainboard";
     IPODashboard.updates := nil |}.

(** The model answers the IPO list prompt with an object that has no
    [ipos] member. *)
Definition noIposWorld : @World (scriptedPlatform "key") :=
  scriptedWorld "key" nil (Resolve (Some (quoted "{'items':[]}")) :: nil) 7000.

(** * Properties *)

(** ** Upper-cased texts

    The views upper-case every ticker they send.  A JSON text without a
    letter a-z has no escape but those of the quote, the backslash and the
    slash, and none of the three literal names; so none of its keys holds a
    letter a-z. *)

Section UpperCased.

Import JsString JsValue.

Lemma isUpperCased_cons (c : ascii) (r : string) :
  isUpperCased (String c r) = true ->
  isLowerLetter c = false /\ isUpperCased r = true.
Proof.
  simpl. intros H. apply andb_true_iff in H as [H1 H2].
  apply negb_true_iff in H1. auto.
Qed.

Lemma isUpperCased_app (a b : string) :
  isUpperCased (a ++ b) = isUpperCased a && isUpperCased b.
Proof.
  induction a as [|c a IH]; simpl; [reflexivity|].
  rewrite IH, andb_assoc. reflexivity.
Qed.

Lemma skipWs_upper (s : string) :
  isUpperCased s = true -> isUpperCased (skipWs s) = true.
Proof.
  induction s as [|c r IH]; intros H; [exact H|].
  simpl. destruct (isJsonWs c); [|exact H].
  apply IH. apply (isUpperCased_cons _ _ H).
Qed.

Lemma readDigits_upper (s : string) :
  forall acc count n k r,
    readDigits s acc count = (n, k, r) ->
    isUpperCased s = true -> isUpperCased r = true.
Proof.
  induction s as [|c s IH]; intros acc count n k r; simpl.
  - intros [= _ _ <-] _. reflexivity.
  - destruct (digitVal c).
    + intros H U. apply (IH _ _ _ _ _ H). apply (isUpperCased_cons _ _ U).
    + intros [= _ _ <-] U. exact U.
Qed.

Ltac split_matches :=
  repeat match goal with
         | F : context [match ?x with _ => _ end] |- _ =>
             destruct x eqn:?; try discriminate
         end;
  repeat match goal with
         | F : (_, _) = (_, _) |- _ => inversion F; subst; clear F
         | F : Some _ = Some _ |- _ => inversion F; subst; clear F
         end.

Lemma readNumber_upper (s : string) (n : number) (rest : string) :
  readNumber s = Some (n, rest) ->
  isUpperCased s = true -> isUpperCased rest = true.
Proof.
  unfold readNumber. intros H U.
  assert (T : forall c r, isUpperCased (String c r) = true -> isUpperCased r = true).
  { intros c r Hc. apply (isUpperCased_cons _ _ Hc). }
  assert (D := readDigits_upper).
  cbv zeta in H.
  match type of H with
  | match ?x with _ => _ end = _ => destruct x as [neg s1] eqn:E1
  end.
  assert (U1 : isUpperCased s1 = true).
  { clear H. split_matches; eauto. }
  clear E1.
  match type of H with
  | match ?x with _ => _ end = _ => destruct x as [[n0 s2]|] eqn:E2; [|discriminate]
  end.
  assert (U2 : isUpperCased s2 = true).
  { clear H. split_matches; eauto. }
  clear E2.
  match type of H with
  | match ?x with _ => _ end = _ =>
      destruct x as [[[m k] s3]|] eqn:E3; [|discriminate]
  end.
  assert (U3 : isUpperCased s3 = true).
  { clear H. split_matches; eauto. }
  clear E3.
  match type of H with
  | match ?x with _ => _ end = _ =>
      destruct x as [[e s4]|] eqn:E4; [|discriminate]
  end.
  injection H as _ <-.
  split_matches; eauto.
Qed.

Lemma lower_escape (e : ascii) :
  isLowerLetter e = false ->
  Ascii.eqb e "b" = false /\ Ascii.eqb e "f" = false /\ Ascii.eqb e "n" = false /\
  Ascii.eqb e "r" = false /\ Ascii.eqb e "t" = false /\ Ascii.eqb e "u" = false.
Proof.
  intros H.
  repeat split;
    (destruct (Ascii.eqb_spec e "b"), (Ascii.eqb_spec e "f"),
              (Ascii.eqb_spec e "n"), (Ascii.eqb_spec e "r"),
              (Ascii.eqb_spec e "t"), (Ascii.eqb_spec e "u");
     subst; try reflexivity; discriminate H).
Qed.

Lemma readString_upper_bounded (wide : bool) (n : nat) :
  forall s, (String.length s <= n)%nat ->
  forall k rest, readString wide s = Some (k, rest) ->
  isUpperCased s = true ->
  isUpperCased k = true /\ isUpperCased rest = true.
Proof.
  induction n as [|n IH]; intros s L.
  - destruct s; [intros k rest; discriminate | simpl in L; lia].
  - destruct s as [|c s1]; [intros k rest; discriminate|].
    simpl in L. cbn [readString]. intros k rest H U.
    apply isUpperCased_cons in U as [Uc U1].
    destruct (Ascii.eqb c doubleQuote).
    { injection H as <- <-. auto. }
    destruct (Ascii.eqb c "\").
    + destruct s1 as [|e s2]; [discriminate|]. simpl in L.
      apply isUpperCased_cons in U1 as [Ue U2].
      destruct (lower_escape e Ue) as (Eb & Ef & En & Er & Et & Eu).
      rewrite Eb, Ef, En, Er, Et, Eu in H.
      destruct (Ascii.eqb e doubleQuote || Ascii.eqb e "\" || Ascii.eqb e "/");
        [|discriminate].
      destruct (readString wide s2) as [[t rest']|] eqn:E; [|discriminate].
      injection H as <- <-.
      destruct (IH s2 ltac:(lia) _ _ E U2) as [Ut Ur].
      simpl. rewrite Ue, Ut. auto.
    + destruct (code c <? 32)%N; [discriminate|].
      destruct (readString wide s1) as [[t rest']|] eqn:E; [|discriminate].
      injection H as <- <-.
      destruct (IH s1 ltac:(lia) _ _ E U1) as [Ut Ur].
      simpl. rewrite Uc, Ut. auto.
Qed.

Lemma readString_upper (wide : bool) (s k rest : string) :
  readString wide s = Some (k, rest) ->
  isUpperCased s = true ->
  isUpperCased k = true /\ isUpperCased rest = true.
Proof. apply (readString_upper_bounded wide (String.length s)). lia. Qed.

Lemma setField_upperKeys (k : string) (v : value) (fs : list (string * value)) :
  isUpperCased k = true -> upperKeys fs = true ->
  upperKeys (setField k v fs) = true.
Proof.
  intros K. induction fs as [|[k' v'] r IH]; simpl; intros H.
  - rewrite K. reflexivity.
  - apply andb_true_iff in H as [H1 H2].
    destruct (String.eqb k k'); simpl.
    + rewrite K, H2. reflexivity.
    + rewrite H1, IH by exact H2. reflexivity.
Qed.

Lemma lookupField_upperKeys (k : string) (fs : list (string * value)) :
  isUpperCased k = false -> upperKeys fs = true ->
  lookupField k fs = VUndefined.
Proof.
  intros K. induction fs as [|[k' v'] r IH]; simpl; intros H; [reflexivity|].
  apply andb_true_iff in H as [H1 H2].
  destruct (String.eqb_spec k k') as [->|_]; [congruence|]. apply IH, H2.
Qed.

Section ContainersUpper.

Variable wide : bool.
Variable pe : string -> option (value * string).
Hypothesis pe_upper :
  forall s v r, pe s = Some (v, r) -> isUpperCased s = true ->
                isUpperCased r = true.

Lemma parseElements_upper (f : nat) :
  forall s acc v rest,
    parseElements pe f s acc = Some (v, rest) ->
    isUpperCased s = true ->
    isUpperCased rest = true /\ forall fs, v <> VObj fs.
Proof.
  induction f as [|f IH]; intros s acc v rest; [discriminate|].
  simpl. destruct (pe s) as [[v1 r1]|] eqn:E; [|discriminate].
  intros H U. pose proof (skipWs_upper _ (pe_upper _ _ _ E U)) as U1.
  destruct (skipWs r1) as [|c r2]; [discriminate|].
  apply isUpperCased_cons in U1 as [_ U2].
  destruct (Ascii.eqb c ","); [apply (IH _ _ _ _ H U2)|].
  destruct (Ascii.eqb c "]"); [|discriminate].
  injection H as <- <-. split; [exact U2 | discriminate].
Qed.

Lemma parseMembers_upper (f : nat) :
  forall s acc v rest,
    parseMembers wide pe f s acc = Some (v, rest) ->
    isUpperCased s = true -> upperKeys acc = true ->
    isUpperCased rest = true /\ exists fs, v = VObj fs /\ upperKeys fs = true.
Proof.
  induction f as [|f IH]; intros s acc v rest; [discriminate|].
  simpl. intros H U A. pose proof (skipWs_upper _ U) as U0.
  destruct (skipWs s) as [|q r0]; [discriminate|].
  apply isUpperCased_cons in U0 as [_ U0].
  destruct (Ascii.eqb q doubleQuote); [|discriminate].
  destruct (readString wide r0) as [[k r1]|] eqn:E; [|discriminate].
  destruct (readString_upper _ _ _ _ E U0) as [Uk U1].
  apply skipWs_upper in U1.
  destruct (skipWs r1) as [|c r2]; [discriminate|].
  apply isUpperCased_cons in U1 as [_ U2].
  destruct (Ascii.eqb c ":"); [|discriminate].
  destruct (pe r2) as [[v3 r3]|] eqn:E2; [|discriminate].
  pose proof (skipWs_upper _ (pe_upper _ _ _ E2 U2)) as U3.
  destruct (skipWs r3) as [|d r4]; [discriminate|].
  apply isUpperCased_cons in U3 as [_ U4].
  pose proof (setField_upperKeys k v3 acc Uk A) as A'.
  destruct (Ascii.eqb d ","); [apply (IH _ _ _ _ H U4 A')|].
  destruct (Ascii.eqb d "}"); [|discriminate].
  injection H as <- <-. eauto.
Qed.

End ContainersUpper.

Lemma startsWith_lower (c : ascii) (p t : string) :
  isLowerLetter c = true -> isUpperCased t = true ->
  startsWith (String c p) t = false.
Proof.
  intros Hc U. destruct t as [|a t]; [reflexivity|]. simpl.
  apply isUpperCased_cons in U as [Ua _].
  destruct (Ascii.eqb_spec c a) as [->|_]; [congruence | reflexivity].
Qed.

Lemma parseValue_upper (wide : bool) (f : nat) :
  forall s v rest,
    parseValue wide f s = Some (v, rest) ->
    isUpperCased s = true ->
    isUpperCased rest = true /\ forall fs, v = VObj fs -> upperKeys fs = true.
Proof.
  induction f as [|f IH]; intros s v rest; [discriminate|].
  cbn [parseValue]. intros H U. pose proof (skipWs_upper _ U) as U0.
  destruct (skipWs s) as [|c r0] eqn:Es; [discriminate|].
  cbv beta iota in H.
  pose proof U0 as Ut.
  apply isUpperCased_cons in U0 as [_ U0].
  assert (PE : forall s v r, parseValue wide f s = Some (v, r) ->
                             isUpperCased s = true -> isUpperCased r = true).
  { intros s' v' r' H' U'. apply (IH _ _ _ H' U'). }
  destruct (Ascii.eqb c "{").
  { pose proof (skipWs_upper _ U0) as U1.
    destruct (skipWs r0) as [|d r1]; [discriminate|].
    apply isUpperCased_cons in U1 as [_ U1].
    destruct (Ascii.eqb d "}").
    - injection H as <- <-. split; [exact U1|]. intros fs [= <-]. reflexivity.
    - destruct (parseMembers_upper wide _ PE _ _ _ _ _ H U0 eq_refl)
        as [Ur (fs & -> & Uf)].
      split; [exact Ur|]. intros fs' [= <-]. exact Uf. }
  destruct (Ascii.eqb c "[").
  { pose proof (skipWs_upper _ U0) as U1.
    destruct (skipWs r0) as [|d r1]; [discriminate|].
    apply isUpperCased_cons in U1 as [_ U1].
    destruct (Ascii.eqb d "]").
    - injection H as <- <-. split; [exact U1|]. discriminate.
    - destruct (parseElements_upper _ PE _ _ _ _ _ H U0) as [Ur N].
      split; [exact Ur|]. intros fs E. destruct (N _ E). }
  destruct (Ascii.eqb c doubleQuote).
  { destruct (readString wide r0) as [[str r1]|] eqn:E; [|discriminate].
    injection H as <- <-.
    split; [apply (readString_upper _ _ _ _ E U0) | discriminate]. }
  rewrite (startsWith_lower "t" "rue" _ eq_refl Ut) in H.
  rewrite (startsWith_lower "f" "alse" _ eq_refl Ut) in H.
  rewrite (startsWith_lower "n" "ull" _ eq_refl Ut) in H.
  destruct (readNumber (String c r0)) as [[n r1]|] eqn:E; [|discriminate].
  injection H as <- <-.
  split; [apply (readNumber_upper _ _ _ E Ut) | discriminate].
Qed.

(** An upper-cased JSON text has no member named [error], whichever way
    its escapes are read. *)
Lemma parseText_upper (wide : bool) (text : string) (v : value) :
  parseText wide text = Some v -> isUpperCased text = true ->
  getProp v "error" = None \/ getProp v "error" = Some VUndefined.
Proof.
  unfold parseText. intros H U.
  destruct (parseValue wide _ text) as [[v0 rest]|] eqn:E; [|discriminate].
  destruct (isEmpty (skipWs rest)); [|discriminate]. injection H as <-.
  destruct (parseValue_upper _ _ _ _ _ E U) as [_ K].
  destruct v0; simpl; auto.
  right. f_equal. apply lookupField_upperKeys; [reflexivity | apply K; reflexivity].
Qed.

Lemma lineOf_upper (s : string) :
  isUpperCased s = true -> isUpperCased (lineOf s) = true.
Proof.
  induction s as [|c r IH]; intros U; [reflexivity|]. simpl.
  apply isUpperCased_cons in U as [Uc Ur].
  destruct (isLineTerminator c); [reflexivity|]. simpl.
  rewrite Uc, IH by exact Ur. reflexivity.
Qed.

Lemma upToLastBrace_upper (s t : string) :
  upToLastBrace s = Some t -> isUpperCased s = true -> isUpperCased t = true.
Proof.
  revert t. induction s as [|c r IH]; intros t; [discriminate|]. simpl.
  intros H U. apply isUpperCased_cons in U as [Uc Ur].
  destruct (upToLastBrace r) as [t'|].
  - injection H as <-. simpl. rewrite Uc, (IH _ eq_refl Ur). reflexivity.
  - destruct (Ascii.eqb c "}"); [|discriminate]. injection H as <-.
    simpl. rewrite Uc. reflexivity.
Qed.

Lemma matchBraces_upper (s m : string) :
  matchBraces s = Some m -> isUpperCased s = true -> isUpperCased m = true.
Proof.
  induction s as [|c r IH]; [discriminate|]. simpl. intros H U.
  pose proof U as Us.
  apply isUpperCased_cons in U as [Uc Ur].
  destruct (Ascii.eqb c "{"); [|apply (IH H Ur)].
  destruct (upToLastBrace (lineOf r)) as [body|] eqn:E; [|apply (IH H Ur)].
  injection H as <-. simpl.
  rewrite Uc, (upToLastBrace_upper _ _ E (lineOf_upper _ Ur)). reflexivity.
Qed.

(** A tail without a closing brace on its first line adds nothing to the
    match. *)
Lemma upToLastBrace_lineOf_app (s post : string) :
  upToLastBrace (lineOf post) = None ->
  upToLastBrace (lineOf (s ++ post)) = upToLastBrace (lineOf s).
Proof.
  intros N. induction s as [|c r IH]; simpl; [exact N|].
  destruct (isLineTerminator c); [reflexivity|]. simpl. rewrite IH. reflexivity.
Qed.

Lemma matchBraces_app (s post : string) :
  matchBraces post = None -> upToLastBrace (lineOf post) = None ->
  matchBraces (s ++ post) = matchBraces s.
Proof.
  intros M N. induction s as [|c r IH]; simpl; [exact M|].
  rewrite (upToLastBrace_lineOf_app _ _ N), IH. reflexivity.
Qed.

Lemma tickerNotFoundMessage_match (tk : string) :
  matchBraces (tickerNotFoundMessage tk) = matchBraces tk.
Proof.
  unfold tickerNotFoundMessage. simpl.
  refine (matchBraces_app tk _ _ _); reflexivity.
Qed.

(** The message of the Ticker Not Found descriptor quotes the ticker.  When
    the ticker is upper-cased, the message carries no nested payload: what
    the regular expression matches lies inside the ticker, and by
    [parseText_upper] its parse has no [error] member, whichever way the
    escapes are read. *)
Lemma tickerNotFoundMessage_plain (tk : string) :
  isUpperCased tk = true ->
  nestedError (VStr (tickerNotFoundMessage tk)) = None.
Proof.
  intros U. unfold nestedError. rewrite tickerNotFoundMessage_match.
  destruct (matchBraces tk) as [m|] eqn:E; [|reflexivity].
  pose proof (matchBraces_upper _ _ E U) as Um.
  destruct (JSON_parse m) as [parsed|] eqn:Pm; [|reflexivity].
  destruct (parseText_upper false m parsed Pm Um) as [-> | ->]; reflexivity.
Qed.

End UpperCased.

(** ** Cache keys *)

Module KeyFacts.

Import JsString.

Lemma lowerChar_idempotent (c : ascii) : lowerChar (lowerChar c) = lowerChar c.
Proof.
  destruct c as [[] [] [] [] [] [] [] []]; vm_compute; reflexivity.
Qed.

Lemma lowerChar_whitespace (c : ascii) :
  isWhiteSpace (lowerChar c) = isWhiteSpace c.
Proof.
  destruct c as [[] [] [] [] [] [] [] []]; vm_compute; reflexivity.
Qed.

Lemma toLowerCase_idempotent (s : string) :
  toLowerCase (toLowerCase s) = toLowerCase s.
Proof.
  induction s as [|c r IH]; simpl; [reflexivity|].
  rewrite lowerChar_idempotent, IH; reflexivity.
Qed.

Lemma isEmpty_toLowerCase (s : string) : isEmpty (toLowerCase s) = isEmpty s.
Proof. destruct s; reflexivity. Qed.

Lemma trimStart_toLowerCase (s : string) :
  trimStart (toLowerCase s) = toLowerCase (trimStart s).
Proof.
  induction s as [|c r IH]; simpl; [reflexivity|].
  rewrite lowerChar_whitespace.
  destruct (isWhiteSpace c); [exact IH | reflexivity].
Qed.

Lemma trimEnd_toLowerCase (s : string) :
  trimEnd (toLowerCase s) = toLowerCase (trimEnd s).
Proof.
  induction s as [|c r IH]; simpl; [reflexivity|].
  rewrite lowerChar_whitespace, IH, isEmpty_toLowerCase.
  destruct (isWhiteSpace c && isEmpty (trimEnd r)); reflexivity.
Qed.

Lemma trim_toLowerCase (s : string) : trim (toLowerCase s) = toLowerCase (trim s).
Proof.
  unfold trim. rewrite trimStart_toLowerCase. apply trimEnd_toLowerCase.
Qed.

Lemma trimEnd_idempotent (s : string) : trimEnd (trimEnd s) = trimEnd s.
Proof.
  induction s as [|c r IH]; simpl; [reflexivity|].
  destruct (isWhiteSpace c && isEmpty (trimEnd r)) eqn:E; simpl.
  - reflexivity.
  - rewrite IH, E. reflexivity.
Qed.

(** A string that [trimStart] leaves alone stays so under [trimEnd]. *)
Lemma trimStart_trimEnd_fixed (s : string) :
  trimStart s = s -> trimStart (trimEnd s) = trimEnd s.
Proof.
  destruct s as [|c r]; simpl; [reflexivity|].
  destruct (isWhiteSpace c) eqn:W; simpl.
  - intros H. exfalso.
    assert (L : forall t, (String.length (trimStart t) <= String.length t)%nat).
    { induction t as [|a t IHt]; simpl; [lia|].
      destruct (isWhiteSpace a); simpl; lia. }
    specialize (L r). rewrite H in L. simpl in L. lia.
  - intros _. rewrite W. reflexivity.
Qed.

Lemma trimStart_idempotent (s : string) : trimStart (trimStart s) = trimStart s.
Proof.
  induction s as [|c r IH]; simpl; [reflexivity|].
  destruct (isWhiteSpace c) eqn:W; [exact IH|].
  simpl. rewrite W. reflexivity.
Qed.

Lemma trim_idempotent (s : string) : trim (trim s) = trim s.
Proof.
  unfold trim.
  rewrite (trimStart_trimEnd_fixed (trimStart s) (trimStart_idempotent s)).
  apply trimEnd_idempotent.
Qed.

End KeyFacts.

(** C9.  Normalizing a screener cache key twice is the same as normalizing
    it once, and the queries "AAPL", " aapl " and "Aapl" all normalize to
    the key "aapl", so that in every world the screener map is read at one
    and the same entry for the three of them. *)
Theorem getCacheKey_idempotent :
  (forall q : string, getCacheKey (getCacheKey q) = getCacheKey q) /\
  getCacheKey "AAPL" = "aapl" /\
  getCacheKey " aapl " = "aapl" /\
  getCacheKey "Aapl" = "aapl" /\
  (forall (P : Platform) (w : World),
      screenerCache w !! getCacheKey "AAPL" = screenerCache w !! getCacheKey " aapl " /\
      screenerCache w !! getCacheKey " aapl " = screenerCache w !! getCacheKey "Aapl").
Proof.
  split; [|repeat split; reflexivity].
  intros q. unfold getCacheKey.
  rewrite KeyFacts.trim_toLowerCase, KeyFacts.trim_idempotent.
  apply KeyFacts.toLowerCase_idempotent.
Qed.

(** ** Retry executor *)

Section RetryFacts.

Context {P : Platform} {T : Type}.
Variable operation : World -> outcome T * World.
Variables (maxRetries : nat) (initialDelay : Z).

Lemma retryLoop_success k i last w v w1 :
  operation w = (Return v, w1) ->
  retryLoop operation maxRetries initialDelay (S k) i last w
  = (Return v, w1, Invoked :: nil).
Proof.
  intros H. simpl. unfold tryCatch, invoke. rewrite H. reflexivity.
Qed.

Lemma retryLoop_again k i last w e wf c h1 :
  operation w = (Throw e, wf) ->
  classifyFailure (heap wf) e = inl (c, h1) ->
  isQuota c || isServer c = true ->
  Z.of_nat i < Z.of_nat maxRetries - 1 ->
  retryLoop operation maxRetries initialDelay (S k) i last w
  = let r := retryLoop operation maxRetries initialDelay k (S i) e (setHeap h1 wf) in
    (resultOf r, worldOf r,
     Invoked :: Waited (retryDelay c initialDelay i) :: traceOf r).
Proof.
  intros H C R L. simpl. unfold tryCatch, invoke. rewrite H, C, R.
  apply Z.ltb_lt in L. rewrite L. simpl. unfold bind, wait.
  destruct (retryLoop operation maxRetries initialDelay k (S i) e (setHeap h1 wf))
    as [[r w2] tr].
  reflexivity.
Qed.

Lemma retryLoop_giveUp k i last w e wf c h1 :
  operation w = (Throw e, wf) ->
  classifyFailure (heap wf) e = inl (c, h1) ->
  (isQuota c || isServer c) && (Z.of_nat i <? Z.of_nat maxRetries - 1) = false ->
  retryLoop operation maxRetries initialDelay (S k) i last w
  = (Throw e, setHeap h1 wf, Invoked :: nil).
Proof.
  intros H C R. simpl. unfold tryCatch, invoke. rewrite H, C, R.
  reflexivity.
Qed.

End RetryFacts.

(** C1.  When the operation fails on its first two invocations with
    failures that the catch block classifies as quota (429) failures and
    succeeds on the third, [retryOperation] with the default
    [maxRetries = 3] returns that third result, has invoked the operation
    exactly three times, has waited 5000 ms and then 10000 ms (the second
    wait at least twice the first), and at every attempt the delay for a
    quota failure is strictly longer than the delay for a server failure
    with the default [initialDelay]. *)
Theorem retryOperation_quota_twice_then_success
    {P : Platform} {T : Type} (operation : World -> outcome T * World)
    (initialDelay : Z) (w0 w1 w2 w3 : World) (e1 e2 : thrown)
    (c1 c2 : Classification) (v : T) :
  failsClassified operation w0 e1 c1 w1 -> isQuota c1 = true ->
  failsClassified operation w1 e2 c2 w2 -> isQuota c2 = true ->
  operation w2 = (Return v, w3) ->
  let r := retryOperation operation defaultMaxRetries initialDelay w0 in
  resultOf r = Return v /\
  worldOf r = w3 /\
  traceOf r = Invoked :: Waited 5000 :: Invoked :: Waited 10000 :: Invoked :: nil /\
  invocations (traceOf r) = 3%nat /\
  (exists first second,
      waits (traceOf r) = first :: second :: nil /\ second >= 2 * first) /\
  (forall (cq cs : Classification) (i : nat),
      isQuota cq = true -> isQuota cs = false ->
      retryDelay cs defaultInitialDelay i < retryDelay cq defaultInitialDelay i).
Proof.
  intros (wf1 & h1 & O1 & C1 & ->) Q1 (wf2 & h2 & O2 & C2 & ->) Q2 O3 r.
  assert (E : r = (Return v, w3,
                   Invoked :: Waited 5000 :: Invoked :: Waited 10000 :: Invoked :: nil)).
  { subst r. unfold retryOperation, defaultMaxRetries.
    rewrite (retryLoop_again _ _ _ _ _ _ _ _ _ _ _ O1 C1);
      [|rewrite Q1; reflexivity|simpl; lia].
    rewrite (retryLoop_again _ _ _ _ _ _ _ _ _ _ _ O2 C2);
      [|rewrite Q2; reflexivity|simpl; lia].
    rewrite (retryLoop_success _ _ _ _ _ _ _ _ _ O3).
    unfold retryDelay. rewrite Q1, Q2. reflexivity. }
  rewrite E. unfold resultOf, worldOf, traceOf. simpl.
  repeat split.
  - exists 5000, 10000. split; [reflexivity | lia].
  - intros cq cs i Hq Hs. unfold retryDelay, defaultInitialDelay.
    rewrite Hq, Hs.
    assert (0 < 2 ^ Z.of_nat i) by (apply Z.pow_pos_nonneg; lia).
    nia.
Qed.

Lemma retryOperation_quota_twice_then_success_witness :
  resultOf (retryOperation (callModel MarketPrompt) defaultMaxRetries
                           defaultInitialDelay quotaWorld)
  = Return (Some "ok") /\
  invocations (traceOf (retryOperation (callModel MarketPrompt) defaultMaxRetries
                                       defaultInitialDelay quotaWorld)) = 3%nat /\
  waits (traceOf (retryOperation (callModel MarketPrompt) defaultMaxRetries
                                 defaultInitialDelay quotaWorld))
  = 5000 :: 10000 :: nil.
Proof.
  edestruct (@retryOperation_quota_twice_then_success
               (scriptedPlatform "key") (option string)
               (callModel MarketPrompt) defaultInitialDelay quotaWorld)
    as (R & _ & Tr & N & _ & _).
  - eexists _, _. split; [reflexivity|]. split; reflexivity.
  - reflexivity.
  - eexists _, _. split; [reflexivity|]. split; reflexivity.
  - reflexivity.
  - reflexivity.
  - split; [exact R|]. split; [exact N|]. rewrite Tr. reflexivity.
Defined.

(** *** What patching an error can change *)

Lemma lookupField_setField_other (k k' : string) (v : value)
    (fs : list (string * value)) :
  k <> k' -> lookupField k (setField k' v fs) = lookupField k fs.
Proof.
  intros N. induction fs as [|[a b] r IH]; simpl.
  - destruct (String.eqb k k') eqn:E; [apply String.eqb_eq in E; contradiction|].
    reflexivity.
  - destruct (String.eqb k' a) eqn:E1; simpl.
    + apply String.eqb_eq in E1. subst a.
      destruct (String.eqb k k') eqn:E; [apply String.eqb_eq in E; contradiction|].
      reflexivity.
    + destruct (String.eqb k a); [reflexivity | exact IH].
Qed.

Lemma lookupField_setField_same (k : string) (v : value)
    (fs : list (string * value)) :
  lookupField k (setField k v fs) = v.
Proof.
  induction fs as [|[a b] r IH]; simpl.
  - rewrite String.eqb_refl. reflexivity.
  - destruct (String.eqb k a) eqn:E; simpl.
    + rewrite String.eqb_refl. reflexivity.
    + rewrite E. exact IH.
Qed.

Lemma readProp_writeProp_other (h h' : store) (e : thrown) (k k' : string)
    (v : value) :
  writeProp h e k' v = Some h' -> k <> k' -> readProp h' e k = readProp h e k.
Proof.
  destruct e as [u|l]; unfold writeProp, readProp; [discriminate|].
  intros [= <-] N. rewrite list_lookup_alter_eq.
  destruct (h !! l) as [o|]; simpl; [|reflexivity].
  rewrite lookupField_setField_other by exact N. reflexivity.
Qed.

Lemma writeProp_elsewhere (h h' : store) (e : thrown) (k : string) (v : value)
    (l : loc) :
  writeProp h e k v = Some h' -> e <> Ref l -> h' !! l = h !! l.
Proof.
  destruct e as [u|l0]; unfold writeProp; [discriminate|].
  intros [= <-] N. apply list_lookup_alter_ne. congruence.
Qed.

Lemma patchError_other_keys (h : store) (e : thrown) (st nm : value) (k : string) :
  k <> "status" -> k <> "message" ->
  readProp (patchError h e st nm) e k = readProp h e k.
Proof.
  intros N1 N2. unfold patchError.
  destruct (writeProp h e "status" st) as [h1|] eqn:W1; [|reflexivity].
  destruct (writeProp h1 e "message" nm) as [h2|] eqn:W2.
  - rewrite (readProp_writeProp_other _ _ _ _ _ _ W2 N2).
    apply (readProp_writeProp_other _ _ _ _ _ _ W1 N1).
  - apply (readProp_writeProp_other _ _ _ _ _ _ W1 N1).
Qed.

Lemma patchError_elsewhere (h : store) (e : thrown) (st nm : value) (l : loc) :
  e <> Ref l -> patchError h e st nm !! l = h !! l.
Proof.
  intros N. unfold patchError.
  destruct (writeProp h e "status" st) as [h1|] eqn:W1; [|reflexivity].
  destruct (writeProp h1 e "message" nm) as [h2|] eqn:W2.
  - rewrite (writeProp_elsewhere _ _ _ _ _ _ W2 N).
    apply (writeProp_elsewhere _ _ _ _ _ _ W1 N).
  - apply (writeProp_elsewhere _ _ _ _ _ _ W1 N).
Qed.

(** The store that the catch block leaves is the store it found, or that
    store with the caught error patched; without a nested payload it is the
    store it found. *)
Lemma classifyFailure_store (h h1 : store) (e : thrown) (c : Classification) :
  classifyFailure h e = inl (c, h1) ->
  (h1 = h \/ exists st nm, h1 = patchError h e st nm) /\
  (forall m, readProp h e "message" = Some m -> nestedError m = None -> h1 = h).
Proof.
  unfold classifyFailure.
  destruct (readProp h e "status") as [st|]; [|discriminate].
  destruct (readProp h e "code") as [cd|]; [|discriminate].
  destruct (readProp h e "message") as [m|]; [|discriminate].
  destruct (orElse m (VStr EmptyString)) as [| | | |s| |]; try discriminate.
  unfold unwrapForRetry.
  destruct (nestedError m) as [perr|] eqn:N.
  - set (pcode := default VUndefined (getProp perr "code")).
    set (pmsg := default VUndefined (getProp perr "message")).
    destruct (truthy pmsg).
    + destruct pmsg as [| | | |ps| |]; intros [= <- <-];
        (split; [eauto | intros m' [= <-] N'; congruence]).
    + intros [= <- <-].
      split; [eauto | intros m' [= <-] N'; congruence].
  - intros [= <- <-]. split; [left; reflexivity | reflexivity].
Qed.

(** What the two statements of the patch leave in an object of the
    store. *)
Lemma patchError_writes (h : store) (l : loc) (st nm : value) :
  is_Some (h !! l) ->
  readProp (patchError h (Ref l) st nm) (Ref l) "status" = Some st /\
  readProp (patchError h (Ref l) st nm) (Ref l) "message" = Some nm.
Proof.
  intros [o Ho]. unfold patchError, writeProp, readProp.
  rewrite !list_lookup_alter_eq, Ho. simpl.
  split; f_equal.
  - rewrite lookupField_setField_other by discriminate.
    apply lookupField_setField_same.
  - apply lookupField_setField_same.
Qed.

(** With a nested payload, the status that the catch block settles on is
    the payload's code when that is truthy and [error.status || error.code]
    otherwise; the error is patched with that status and with the payload's
    message, or its own when the payload has none, unless the payload's
    message is truthy and no string, which leaves the block before the
    patch. *)
Lemma classifyFailure_patch (h h1 : store) (e : thrown) (c : Classification)
    (st cd m perr : value) :
  classifyFailure h e = inl (c, h1) ->
  readProp h e "status" = Some st ->
  readProp h e "code" = Some cd ->
  readProp h e "message" = Some m ->
  nestedError m = Some perr ->
  let pcode := default VUndefined (getProp perr "code") in
  let pmsg := default VUndefined (getProp perr "message") in
  status c = (if truthy pcode then pcode else orElse st cd) /\
  (truthy pmsg = true -> (forall ps, pmsg <> VStr ps) -> h1 = h) /\
  (truthy pmsg = false \/ (exists ps, pmsg = VStr ps) ->
   h1 = patchError h e (status c) (orElse pmsg m)).
Proof.
  unfold classifyFailure. intros C Hs Hc Hm N. rewrite Hs, Hc, Hm in C.
  destruct (orElse m (VStr EmptyString)) as [| | | |s| |]; try discriminate.
  unfold unwrapForRetry in C. rewrite N in C. cbv zeta in *.
  destruct (truthy (default VUndefined (getProp perr "message"))) eqn:Tm.
  - destruct (default VUndefined (getProp perr "message")) as [| | | |ps| |];
      injection C as <- <-; simpl;
      (split; [reflexivity|]);
      (split; [intros _ F; try reflexivity; destruct (F ps eq_refl)
              |intros [F|[ps' F]]; try discriminate; try reflexivity]).
  - injection C as <- <-. simpl.
    split; [reflexivity|]. split; [discriminate | reflexivity].
Qed.

(** C2, as amended.  When the first invocation fails with a failure that
    the catch block can read and classifies as neither a quota nor a server
    failure, [retryOperation] invokes the operation exactly once and throws
    the very value the operation threw.  All its properties other than
    [status] and [message], and every other object, are as the operation
    left them.  Without a nested JSON error payload in the message, so are
    [status] and [message].  With one, whose message is falsy or a string,
    the thrown object has been patched: its [status] is the payload's code
    when that is truthy and [error.status || error.code] otherwise, and its
    [message] is the payload's message when that is truthy and its own
    otherwise.  With one whose message is truthy and no string, nothing is
    patched; nor is it when the thrown value is no object of the store,
    which cannot be written to. *)
Theorem retryOperation_propagates_nonretryable
    {P : Platform} {T : Type} (operation : World -> outcome T * World)
    (n : nat) (initialDelay : Z) (w0 wf : World) (e : thrown)
    (c : Classification) (h1 : store) :
  operation w0 = (Throw e, wf) ->
  classifyFailure (heap wf) e = inl (c, h1) ->
  isQuota c = false -> isServer c = false ->
  let r := retryOperation operation (S n) initialDelay w0 in
  resultOf r = Throw e /\
  traceOf r = Invoked :: nil /\
  invocations (traceOf r) = 1%nat /\
  worldOf r = setHeap h1 wf /\
  (forall k, k <> "status" -> k <> "message" ->
             readProp h1 e k = readProp (heap wf) e k) /\
  (forall l, e <> Ref l -> h1 !! l = heap wf !! l) /\
  (forall m, readProp (heap wf) e "message" = Some m ->
             nestedError m = None -> h1 = heap wf) /\
  (forall st cd m perr,
     readProp (heap wf) e "status" = Some st ->
     readProp (heap wf) e "code" = Some cd ->
     readProp (heap wf) e "message" = Some m ->
     nestedError m = Some perr ->
     let pcode := default VUndefined (getProp perr "code") in
     let pmsg := default VUndefined (getProp perr "message") in
     (truthy pmsg = true -> (forall ps, pmsg <> VStr ps) -> h1 = heap wf) /\
     (truthy pmsg = false \/ (exists ps, pmsg = VStr ps) ->
      forall l, e = Ref l -> is_Some (heap wf !! l) ->
        readProp h1 e "status"
        = Some (if truthy pcode then pcode else orElse st cd) /\
        readProp h1 e "message" = Some (orElse pmsg m))) /\
  (forall v, e = Prim v -> h1 = heap wf).
Proof.
  intros O C Q S r.
  assert (E : r = (Throw e, setHeap h1 wf, Invoked :: nil)).
  { subst r. unfold retryOperation.
    apply (retryLoop_giveUp _ _ _ _ _ _ _ _ _ _ _ O C).
    rewrite Q, S. reflexivity. }
  rewrite E. unfold resultOf, worldOf, traceOf. simpl.
  assert (W : forall st cd m perr,
             readProp (heap wf) e "status" = Some st ->
             readProp (heap wf) e "code" = Some cd ->
             readProp (heap wf) e "message" = Some m ->
             nestedError m = Some perr ->
             let pcode := default VUndefined (getProp perr "code") in
             let pmsg := default VUndefined (getProp perr "message") in
             (truthy pmsg = true -> (forall ps, pmsg <> VStr ps) -> h1 = heap wf) /\
             (truthy pmsg = false \/ (exists ps, pmsg = VStr ps) ->
              forall l, e = Ref l -> is_Some (heap wf !! l) ->
                readProp h1 e "status"
                = Some (if truthy pcode then pcode else orElse st cd) /\
                readProp h1 e "message" = Some (orElse pmsg m))).
  { intros st cd m perr Hs Hc Hm N pcode pmsg.
    destruct (classifyFailure_patch _ _ _ _ _ _ _ _ C Hs Hc Hm N)
      as (Es & K1 & K2).
    fold pcode in Es. fold pmsg in K1, K2.
    split; [exact K1|].
    intros D l -> L. rewrite (K2 D), <- Es.
    apply patchError_writes, L. }
  do 4 (split; [reflexivity|]).
  destruct (classifyFailure_store _ _ _ _ C) as [[E1 | (st & nm & E1)] K].
  - split; [intros k _ _; rewrite E1; reflexivity|].
    split; [intros l _; rewrite E1; reflexivity|].
    split; [exact K|]. split; [exact W|]. intros v _. exact E1.
  - split; [intros k N1 N2; rewrite E1; apply patchError_other_keys; assumption|].
    split; [intros l N; rewrite E1; apply patchError_elsewhere; assumption|].
    split; [exact K|]. split; [exact W|]. intros v ->. exact E1.
Qed.

Lemma retryOperation_propagates_nonretryable_witness :
  resultOf (retryOperation (callModel MarketPrompt) defaultMaxRetries
                           defaultInitialDelay badRequestWorld)
  = Throw (Ref 0) /\
  invocations (traceOf (retryOperation (callModel MarketPrompt) defaultMaxRetries
                                       defaultInitialDelay badRequestWorld)) = 1%nat /\
  heap (worldOf (retryOperation (callModel MarketPrompt) defaultMaxRetries
                                defaultInitialDelay badRequestWorld))
  = plainBadRequest :: nil.
Proof.
  edestruct (@retryOperation_propagates_nonretryable
               (scriptedPlatform "key") (option string)
               (callModel MarketPrompt) 2 defaultInitialDelay badRequestWorld)
    as (R & _ & N & W & _).
  - reflexivity.
  - reflexivity.
  - reflexivity.
  - reflexivity.
  - split; [exact R|]. split; [exact N|].
    unfold defaultMaxRetries. rewrite W. reflexivity.
Defined.

(** C2, as stated, fails.  The model rejects with status 400 and a message
    that carries the serialized error body; the catch block classifies the
    failure as not retryable and [retryOperation] throws the same object
    after one invocation, but with its [message] overwritten by the nested
    message. *)
Lemma retryOperation_patches_propagated_failure :
  exists (wf : @World (scriptedPlatform "key")) c h1,
    callModel MarketPrompt invalidArgumentWorld = (Throw (Ref 0), wf) /\
    classifyFailure (heap wf) (Ref 0) = inl (c, h1) /\
    isQuota c = false /\ isServer c = false /\
    resultOf (retryOperation (callModel MarketPrompt) defaultMaxRetries
                             defaultInitialDelay invalidArgumentWorld)
    = Throw (Ref 0) /\
    readProp (heap (worldOf (retryOperation (callModel MarketPrompt)
                                            defaultMaxRetries defaultInitialDelay
                                            invalidArgumentWorld)))
             (Ref 0) "message"
    = Some (VStr "API key not valid") /\
    readProp (heap wf) (Ref 0) "message"
    <> Some (VStr "API key not valid").
Proof.
  eexists _, _, _.
  split; [reflexivity|]. split; [reflexivity|].
  split; [reflexivity|]. split; [reflexivity|].
  split; [reflexivity|]. split; [reflexivity|].
  vm_compute. discriminate.
Qed.

(** ** Error normalizer *)

Section NormalizerFacts.

Context {P : Platform}.

Lemma readProp_fresh (h : list object) (o : object) (k : string) :
  readProp (h ++ o :: nil) (Ref (List.length h)) k = Some (lookupField k (props o)).
Proof.
  unfold readProp. rewrite list_lookup_middle by reflexivity. reflexivity.
Qed.

(** Every row of the table has a title and a message. *)
Lemma classifyTable_nonempty (st : value) (m : string) (syn : bool) :
  isEmpty (fst (fst (classifyTable st m syn))) = false /\
  isEmpty (snd (fst (classifyTable st m syn))) = false.
Proof.
  unfold classifyTable.
  repeat match goal with
         | |- context [if ?b then _ else _] => destruct b
         end; split; reflexivity.
Qed.

(** A descriptor that [handleApiError] builds has the descriptor shape. *)
Lemma built_descriptor_shaped (h : list object) (st : value) (m : string)
    (syn : bool) (details : value) :
  isDescriptor
    (h ++ (let '(title, message, isRetryable) := classifyTable st m syn in
           descriptor title message (Some details) isRetryable) :: nil)
    (Ref (List.length h)) = true.
Proof.
  pose proof (classifyTable_nonempty st m syn) as [T M'].
  destruct (classifyTable st m syn) as [[title message] r]. simpl in T, M'.
  unfold isDescriptor. rewrite !readProp_fresh. simpl.
  unfold descriptorShaped. simpl. rewrite T, M'. reflexivity.
Qed.

(** Whenever [handleApiError] can read the failure, what it throws has the
    descriptor shape. *)
Lemma handleApiError_descriptor (error : thrown) (w : World) :
  normalizerCrashes error w = false ->
  isDescriptor (heap (snd (handleApiError error w)))
               (fst (handleApiError error w)) = true.
Proof.
  unfold normalizerCrashes, handleApiError.
  destruct (readFailure (unwrapForNormalize (heap w) error) error)
    as [[[details st] m]|expr]; [intros _|discriminate].
  destruct (descriptorShaped _ _ _) eqn:D.
  - simpl. exact D.
  - pose proof (built_descriptor_shaped (unwrapForNormalize (heap w) error)
                  st m (instanceofSyntaxError (unwrapForNormalize (heap w) error) error)
                  details) as B.
    destruct (classifyTable st m _) as [[title message] r]. simpl. exact B.
Qed.

(** When it cannot, it throws a new TypeError. *)
Lemma handleApiError_crash (error : thrown) (w : World) :
  normalizerCrashes error w = true ->
  exists l expr,
    fst (handleApiError error w) = Ref l /\
    heap (snd (handleApiError error w)) !! l = Some (newTypeError expr).
Proof.
  unfold normalizerCrashes, handleApiError.
  destruct (readFailure (unwrapForNormalize (heap w) error) error)
    as [[[details st] m]|expr]; [discriminate|intros _].
  exists (List.length (unwrapForNormalize (heap w) error)), expr. simpl.
  split; [reflexivity|]. apply list_lookup_middle. reflexivity.
Qed.

(** A failure of descriptor shape whose message is a text without a nested
    payload is thrown again as it is, in an unchanged world. *)
Lemma handleApiError_passthrough (error : thrown) (w : World) (s : string) :
  readProp (heap w) error "message" = Some (VStr s) ->
  nestedError (VStr s) = None ->
  isDescriptor (heap w) error = true ->
  handleApiError error w = (error, w).
Proof.
  intros Hm Hn Hd. unfold handleApiError.
  assert (U : unwrapForNormalize (heap w) error = heap w).
  { unfold unwrapForNormalize. rewrite Hm, Hn. reflexivity. }
  rewrite U. unfold readFailure. rewrite Hm.
  unfold isDescriptor in Hd. rewrite Hm in Hd.
  assert (Tm : truthy (VStr s) = true).
  { unfold descriptorShaped in Hd.
    apply andb_prop in Hd as [Hd _]. apply andb_prop in Hd as [_ Hd]. exact Hd. }
  unfold orElse. rewrite Tm, Hd. destruct w; reflexivity.
Qed.

End NormalizerFacts.

(** C6.  A failure that already has the descriptor shape, and whose message
    is a text without a nested payload, is thrown again by [handleApiError]
    as it is: the same object, in an unchanged world, so that its title,
    message, details and retry flag are what they were and no row of the
    table is applied.  The descriptors that reach [handleApiError] are the
    Ticker Not Found literals of [generateAnalysis]; their message quotes
    the ticker, and for an upper-cased ticker, which is what the views
    send, it carries no nested payload: such a literal, wherever it lies in
    the store, is thrown again as it is. *)
Theorem handleApiError_rethrows_descriptor {P : Platform} (w : World) :
  (forall (error : thrown) (s : string),
     isDescriptor (heap w) error = true ->
     readProp (heap w) error "message" = Some (VStr s) ->
     nestedError (VStr s) = None ->
     handleApiError error w = (error, w)) /\
  (forall (l : nat) (tk text : string),
     isUpperCased tk = true ->
     heap w !! l = Some (tickerNotFound tk text) ->
     handleApiError (Ref l) w = (Ref l, w)).
Proof.
  split.
  - intros error s D M N. apply (handleApiError_passthrough _ _ s M N D).
  - intros l tk text U L.
    apply (handleApiError_passthrough _ _ (tickerNotFoundMessage tk)).
    + unfold readProp. rewrite L. reflexivity.
    + apply tickerNotFoundMessage_plain, U.
    + unfold isDescriptor, readProp. rewrite L. reflexivity.
Qed.

Lemma handleApiError_rethrows_descriptor_witness :
  isDescriptor (heap notFoundWorld) (Ref 0) = true /\
  handleApiError (Ref 0) notFoundWorld = (Ref 0, notFoundWorld).
Proof.
  split; [reflexivity|].
  apply (proj2 (handleApiError_rethrows_descriptor notFoundWorld)
               O "INFY" "cannot find"); reflexivity.
Defined.

(** Outside the upper-cased tickers.  The store holds the descriptor that
    [generateAnalysis] builds for a ticker carrying a serialized error
    body.  It has the descriptor shape, and [handleApiError] throws the same
    object, but only after the unwrapping block at its head has overwritten
    the descriptor's [message] with the nested message. *)
Lemma handleApiError_rewrites_descriptor_message :
  isDescriptor (heap preclassifiedWorld) (Ref 0) = true /\
  readProp (heap preclassifiedWorld) (Ref 0) "message"
  = Some (VStr (tickerNotFoundMessage injectedTicker)) /\
  fst (handleApiError (Ref 0) preclassifiedWorld) = Ref 0 /\
  readProp (heap (snd (handleApiError (Ref 0) preclassifiedWorld))) (Ref 0) "message"
  = Some (VStr "hi") /\
  readProp (heap (snd (handleApiError (Ref 0) preclassifiedWorld))) (Ref 0) "title"
  = Some (VStr "Ticker Not Found").
Proof. repeat split; vm_compute; reflexivity. Qed.

(** ** A [try] block with a fallback *)

Section BoundaryFacts.

Context {P : Platform}.


End BoundaryFacts.

(** ** The two readings of a JSON text *)

(** What [JSON.parse] reads to a value of the model is a JSON text: the
    reading that also takes the escapes above U+00FF accepts whatever the
    strict one accepts, with the same result. *)
Lemma readString_wide_bounded (n : nat) :
  forall s, (String.length s <= n)%nat ->
  forall r, readString false s = Some r -> readString true s = Some r.
Proof.
  induction n as [|n IH]; intros s L.
  - destruct s; [intros r; discriminate | simpl in L; lia].
  - destruct s as [|c s1]; [intros r; discriminate|].
    assert (R : forall x, (String.length x <= n)%nat ->
                forall k : string * string -> option (string * string),
                  match readString false x with
                  | Some p => k p
                  | None => None
                  end
                  = match readString false x with
                    | Some p => match readString true x with
                                | Some p' => k p'
                                | None => None
                                end
                    | None => None
                    end).
    { intros x Lx k. destruct (readString false x) as [p|] eqn:E; [|reflexivity].
      rewrite (IH x Lx p E). reflexivity. }
    simpl in L. cbn [readString].
    destruct (Ascii.eqb c doubleQuote); [auto|].
    destruct (Ascii.eqb c "\").
    + destruct s1 as [|e s2]; [auto|]. simpl in L.
      assert (S2 : forall x r,
                 match readString false s2 with
                 | Some (t, rest) => Some (String x t, rest)
                 | None => None
                 end = Some r ->
                 match readString true s2 with
                 | Some (t, rest) => Some (String x t, rest)
                 | None => None
                 end = Some r).
      { intros x r. destruct (readString false s2) as [[t rest]|] eqn:E;
          [|discriminate].
        rewrite (IH s2 ltac:(lia) _ E). auto. }
      destruct (Ascii.eqb e doubleQuote || Ascii.eqb e "\" || Ascii.eqb e "/");
        [apply S2|].
      destruct (Ascii.eqb e "b"); [apply S2|].
      destruct (Ascii.eqb e "f"); [apply S2|].
      destruct (Ascii.eqb e "n"); [apply S2|].
      destruct (Ascii.eqb e "r"); [apply S2|].
      destruct (Ascii.eqb e "t"); [apply S2|].
      destruct (Ascii.eqb e "u"); [|auto].
      destruct s2 as [|h1 [|h2 [|h3 [|h4 s6]]]]; auto.
      destruct (hexVal h1), (hexVal h2), (hexVal h3), (hexVal h4); auto.
      simpl in L.
      destruct (_ <? 256)%N; [|intros r; discriminate]. simpl.
      intros r. destruct (readString false s6) as [[t rest]|] eqn:E;
        [|discriminate].
      rewrite (IH s6 ltac:(lia) _ E). auto.
    + destruct (code c <? 32)%N; [auto|].
      intros r. destruct (readString false s1) as [[t rest]|] eqn:E;
        [|discriminate].
      rewrite (IH s1 ltac:(lia) _ E). auto.
Qed.

Lemma readString_wide (s : string) (r : string * string) :
  readString false s = Some r -> readString true s = Some r.
Proof. apply (readString_wide_bounded (String.length s)). lia. Qed.

Section ContainersWide.

Variables pe pe' : string -> option (value * string).
Hypothesis pe_wide : forall s r, pe s = Some r -> pe' s = Some r.

Lemma parseElements_wide (f : nat) :
  forall s acc r, parseElements pe f s acc = Some r ->
                  parseElements pe' f s acc = Some r.
Proof.
  induction f as [|f IH]; intros s acc r; [discriminate|].
  simpl. destruct (pe s) as [[v r1]|] eqn:E; [|discriminate].
  rewrite (pe_wide _ _ E).
  destruct (skipWs r1) as [|c r2]; [auto|].
  destruct (Ascii.eqb c ","); [apply IH|]. auto.
Qed.

Lemma parseMembers_wide (f : nat) :
  forall s acc r, parseMembers false pe f s acc = Some r ->
                  parseMembers true pe' f s acc = Some r.
Proof.
  induction f as [|f IH]; intros s acc r; [discriminate|].
  simpl. destruct (skipWs s) as [|q r0]; [auto|].
  destruct (Ascii.eqb q doubleQuote); [|auto].
  destruct (readString false r0) as [[k r1]|] eqn:E; [|discriminate].
  rewrite (readString_wide _ _ E).
  destruct (skipWs r1) as [|c r2]; [auto|].
  destruct (Ascii.eqb c ":"); [|auto].
  destruct (pe r2) as [[v r3]|] eqn:E2; [|discriminate].
  rewrite (pe_wide _ _ E2).
  destruct (skipWs r3) as [|d r4]; [auto|].
  destruct (Ascii.eqb d ","); [apply IH|]. auto.
Qed.

End ContainersWide.

Lemma parseValue_wide (f : nat) :
  forall s r, parseValue false f s = Some r -> parseValue true f s = Some r.
Proof.
  induction f as [|f IH]; intros s r; [discriminate|].
  simpl. destruct (skipWs s) as [|c r0]; [auto|].
  destruct (Ascii.eqb c "{").
  { destruct (skipWs r0) as [|d r1]; [auto|].
    destruct (Ascii.eqb d "}"); [auto|].
    apply parseMembers_wide. exact IH. }
  destruct (Ascii.eqb c "[").
  { destruct (skipWs r0) as [|d r1]; [auto|].
    destruct (Ascii.eqb d "]"); [auto|].
    apply parseElements_wide. exact IH. }
  destruct (Ascii.eqb c doubleQuote).
  { destruct (readString false r0) as [[str rest]|] eqn:E; [|discriminate].
    rewrite (readString_wide _ _ E). auto. }
  auto.
Qed.

(** A text that [JSON_parse] reads is a JSON text. *)
Lemma JSON_parse_valid (text : string) (v : value) :
  JSON_parse text = Some v -> JSON_valid text = true.
Proof.
  unfold JSON_parse, JSON_valid, parseText.
  destruct (parseValue false _ text) as [[v0 rest]|] eqn:E; [|discriminate].
  rewrite (parseValue_wide _ _ _ E).
  destruct (isEmpty (skipWs rest)); [reflexivity | discriminate].
Qed.

(** ** Response extraction in [generateAnalysis] *)

Section ExtractionFacts.

Context {P : Platform}.

Lemma retryOperation_first_success {T} (operation : World -> outcome T * World)
    (d : Z) (w w1 : World) (v : T) :
  operation w = (Return v, w1) ->
  retryOperation operation defaultMaxRetries d w = (Return v, w1, Invoked :: nil).
Proof. intros H. unfold retryOperation. apply retryLoop_success. exact H. Qed.


(** [handleApiError] on a new error object that has a message and nothing
    else, when the message is a text without a nested payload: a descriptor
    is built from the row that the table selects; its details are the
    message, or the string form of the error when the message is empty. *)
Lemma handleApiError_new_error (w : World) (h : list object) (m : string)
    (syn : bool) :
  heap w = (h ++ Object (("message", VStr m) :: nil) syn :: nil)%list ->
  nestedError (VStr m) = None ->
  handleApiError (Ref (List.length h)) w
  = (Ref (S (List.length h)),
     setHeap (h ++ Object (("message", VStr m) :: nil) syn ::
                   (let '(title, message, isRetryable) :=
                      classifyTable VUndefined (toLowerCase m) syn in
                    descriptor title message
                      (Some (orElse (VStr m) (VStr (String_ (heap w) (Ref (List.length h))))))
                      isRetryable) :: nil)%list
             w).
Proof.
  intros Hh Hn. unfold handleApiError, unwrapForNormalize.
  rewrite Hh, readProp_fresh. simpl lookupField. rewrite Hn.
  unfold readFailure. rewrite !readProp_fresh. simpl lookupField.
  assert (L : orElse (VStr m) (VStr EmptyString) = VStr m).
  { unfold orElse. destruct m; reflexivity. }
  rewrite L. simpl default.
  unfold descriptorShaped. simpl truthy. simpl andb. cbv iota.
  unfold instanceofSyntaxError.
  rewrite list_lookup_middle by reflexivity. simpl isSyntaxError.
  change (orElse VUndefined VUndefined) with VUndefined.
  destruct (classifyTable VUndefined (toLowerCase m) syn) as [[title message] r].
  rewrite length_app. simpl List.length. rewrite Nat.add_1_r.
  rewrite <- app_assoc. reflexivity.
Qed.

(** Without a status and without a transport keyword in the message, a
    SyntaxError is classified by the parse-error row. *)
Lemma classifyTable_syntaxError (m : string) :
  mentionsTransport m = false ->
  classifyTable VUndefined m true
  = ("Data Parsing Error",
     "The AI response could not be processed correctly. This is usually a temporary glitch.",
     true).
Proof.
  unfold mentionsTransport, transportKeywords. simpl existsb. intros H.
  repeat (apply orb_false_elim in H as [? H]).
  unfold classifyTable. simpl isNumber.
  repeat match goal with E : includes _ m = false |- _ => rewrite E; clear E end.
  reflexivity.
Qed.

Lemma lastIndexOfFrom_bound (c : ascii) (s : string) (i found : Z) :
  lastIndexOfFrom c s i found = found \/
  i <= lastIndexOfFrom c s i found < i + len s.
Proof.
  revert i found. induction s as [|a r IH]; intros i found; simpl.
  - left. reflexivity.
  - unfold len in *. simpl String.length. rewrite Nat2Z.inj_succ.
    destruct (IH (i + 1) (if Ascii.eqb a c then i else found)) as [E|B].
    + rewrite E. destruct (Ascii.eqb a c); [right; lia | left; reflexivity].
    + right. lia.
Qed.

Lemma lastIndexOf_bound (c : ascii) (s : string) : lastIndexOf c s < len s.
Proof.
  unfold lastIndexOf.
  destruct (lastIndexOfFrom_bound c s 0 (-1)) as [E|B]; [|lia].
  rewrite E. unfold len. lia.
Qed.

(** Between two indices in order, [substring] is the segment from the
    first to the one before the second. *)
Lemma substring_segment (a b : Z) (s : string) :
  0 <= a <= b -> b <= len s ->
  substring a b s = String.substring (Z.to_nat a) (Z.to_nat (b - a)) s.
Proof.
  intros H1 H2. unfold substring.
  rewrite (Z.min_l a (len s)) by lia. rewrite (Z.min_l b (len s)) by lia.
  rewrite (Z.max_r 0 a) by lia. rewrite (Z.max_r 0 b) by lia.
  rewrite (Z.min_l a b) by lia. rewrite (Z.max_r a b) by lia.
  reflexivity.
Qed.

End ExtractionFacts.

Section AnalysisFacts.

Context {P : Platform}.
Variables (params : SearchParams) (w w1 : World) (response : option string).
Variable tr0 : list event.
Hypothesis key_configured : isEmpty apiKey = false.
Hypothesis model_answers :
  retryOperation (callModel (AnalysisPrompt params))
                 defaultMaxRetries defaultInitialDelay w
  = (Return response, w1, tr0).

(** Once the retried model call has answered, [generateAnalysis] is the
    rest of its [try] block, run in the world the answer left. *)
Lemma generateAnalysis_after_answer :
  generateAnalysis params w
  = let text := stripFences (default EmptyString response) in
    let r := tryCatch
               (if isRefusal text then throwNew (tickerNotFound (ticker params) text)
                else parseBraced analysisParseFailure text)
               rethrowNormalized w1 in
    (resultOf r, worldOf r, (tr0 ++ traceOf r)%list).
Proof.
  unfold generateAnalysis. rewrite key_configured. unfold tryCatch, bind.
  rewrite model_answers. cbv zeta.
  destruct ((if isRefusal (stripFences (default EmptyString response))
             then throwNew (tickerNotFound (ticker params)
                                           (stripFences (default EmptyString response)))
             else parseBraced analysisParseFailure
                              (stripFences (default EmptyString response))) w1)
    as [[[v|t] w2] tr2]; simpl.
  - reflexivity.
  - destruct (rethrowNormalized t w2) as [[r3 w3] tr3]. simpl.
    rewrite app_assoc. reflexivity.
Qed.


End AnalysisFacts.



(** C5, as amended.  Let the retried model call of [generateAnalysis]
    answer with a text that, stripped of code fences and trimmed, is not
    caught by the refusal test.  If an opening or a closing brace is
    missing, the function throws a new parse-error descriptor.  If the
    first opening brace does not come after the last closing brace, the
    text from the one to the other, both included, goes to [JSON.parse]:
    the parsed value is returned; when that text is not JSON, the
    SyntaxError is normalized, and it becomes a parse-error descriptor
    whenever the engine's message for it holds no transport keyword of the
    table and no nested payload. *)
Theorem generateAnalysis_extraction
    {P : Platform} (params : SearchParams) (w w1 : World)
    (response : option string) (tr0 : list event) :
  isEmpty apiKey = false ->
  retryOperation (callModel (AnalysisPrompt params))
                 defaultMaxRetries defaultInitialDelay w
  = (Return response, w1, tr0) ->
  isRefusal (stripFences (default EmptyString response)) = false ->
  let text := stripFences (default EmptyString response) in
  let first := indexOf "{" text in
  let last := lastIndexOf "}" text in
  let payload :=
    String.substring (Z.to_nat first) (Z.to_nat (last - first + 1)) text in
  let r := generateAnalysis params w in
  (first = -1 \/ last = -1 ->
     resultOf r = Throw (Ref (S (List.length (heap w1)))) /\
     heap (worldOf r)
     = (heap w1 ++ newError analysisParseFailure ::
                   dataParsingError (VStr analysisParseFailure) :: nil)%list /\
     traceOf r = tr0) /\
  (0 <= first <= last ->
     (forall v, JSON_parse payload = Some v -> r = (Return v, w1, tr0)) /\
     (JSON_valid payload = false ->
      mentionsTransport (toLowerCase (syntaxErrorMessage payload)) = false ->
      nestedError (VStr (syntaxErrorMessage payload)) = None ->
      exists details,
        resultOf r = Throw (Ref (S (List.length (heap w1)))) /\
        heap (worldOf r)
        = (heap w1 ++ newSyntaxError payload :: dataParsingError details :: nil)%list /\
        traceOf r = tr0)).
Proof.
  intros K A R text first last payload r.
  assert (E : r = let r' := tryCatch (parseBraced analysisParseFailure text)
                                     rethrowNormalized w1 in
                  (resultOf r', worldOf r', (tr0 ++ traceOf r')%list)).
  { subst r. rewrite (generateAnalysis_after_answer _ _ _ _ _ K A).
    cbv zeta. rewrite R. reflexivity. }
  rewrite E. clear E. cbv zeta. unfold parseBraced. fold first. fold last.
  split.
  - intros M.
    assert (C : negb (first =? -1) && negb (last =? -1) = false).
    { destruct M as [-> | ->]; [reflexivity|].
      rewrite andb_comm. reflexivity. }
    rewrite C. unfold tryCatch, throwNew, rethrowNormalized.
    rewrite (handleApiError_new_error _ (heap w1) analysisParseFailure false);
      [|reflexivity|vm_compute; reflexivity].
    unfold resultOf, worldOf, traceOf. simpl. rewrite app_nil_r.
    repeat split; reflexivity.
  - intros [F L].
    assert (C : negb (first =? -1) && negb (last =? -1) = true).
    { apply andb_true_intro. split; apply negb_true_iff, Z.eqb_neq; lia. }
    rewrite C.
    assert (S : substring first (last + 1) text = payload).
    { subst payload. rewrite substring_segment.
      - f_equal. f_equal. lia.
      - lia.
      - pose proof (lastIndexOf_bound "}" text). fold last in H. lia. }
    rewrite S. split.
    + intros v Pv. rewrite Pv. unfold tryCatch, ret, resultOf, worldOf, traceOf.
      simpl. rewrite app_nil_r. reflexivity.
    + intros Pv Mt Nn.
      assert (Pn : JSON_parse payload = None).
      { destruct (JSON_parse payload) as [v|] eqn:Q; [|reflexivity].
        rewrite (JSON_parse_valid _ _ Q) in Pv. discriminate. }
      rewrite Pn.
      unfold tryCatch, throwNew, rethrowNormalized.
      rewrite (handleApiError_new_error _ (heap w1) (syntaxErrorMessage payload) true);
        [|reflexivity|exact Nn].
      rewrite (classifyTable_syntaxError _ Mt).
      unfold resultOf, worldOf, traceOf. simpl. rewrite app_nil_r.
      eexists. repeat split; reflexivity.
Qed.

Lemma generateAnalysis_extraction_witness :
  generateAnalysis (sampleParams "INFY") fencedWorld
  = (Return (VObj (("a", VNum (int 1)) :: nil)),
     scriptedWorld "key" nil nil 0, Invoked :: nil).
Proof.
  refine (proj1 (proj2 (@generateAnalysis_extraction
                          (scriptedPlatform "key") (sampleParams "INFY") fencedWorld
                          (scriptedWorld "key" nil nil 0) (Some fencedAnswer)
                          (Invoked :: nil) _ _ _) _) _ _).
  - reflexivity.
  - reflexivity.
  - reflexivity.
  - vm_compute. split; discriminate.
  - reflexivity.
Defined.

(** C5, as stated, fails.  The answer is a JSON object, with its first
    brace at the start and its last brace at the end, and [JSON.parse]
    accepts it; but it is short and holds a refusal phrase, so
    [generateAnalysis] throws the refusal descriptor in place of returning
    the parsed object.  Likewise a short refusal without any brace is
    answered with the refusal descriptor, not with a parse error. *)
Lemma generateAnalysis_refuses_parsable_answer :
  (stripFences parsableRefusal = parsableRefusal /\
   indexOf "{" parsableRefusal = 0 /\
   lastIndexOf "}" parsableRefusal = len parsableRefusal - 1 /\
   JSON_parse parsableRefusal = Some (VObj (("thesis", VStr "cannot find") :: nil)) /\
   resultOf (generateAnalysis (sampleParams "INFY") parsableRefusalWorld)
   = Throw (Ref 0) /\
   readProp (heap (worldOf (generateAnalysis (sampleParams "INFY") parsableRefusalWorld)))
            (Ref 0) "title" = Some (VStr "Ticker Not Found")) /\
  (indexOf "{" (stripFences "I cannot find this ticker.") = -1 /\
   resultOf (generateAnalysis (sampleParams "INFY") refusalWorld) = Throw (Ref 0) /\
   readProp (heap (worldOf (generateAnalysis (sampleParams "INFY") refusalWorld)))
            (Ref 0) "title" = Some (VStr "Ticker Not Found")).
Proof. repeat split; vm_compute; reflexivity. Qed.

(** Outside the upper-cased tickers.  The model refuses, and the ticker
    carries a serialized error body whose message is a number.
    [generateAnalysis]
    builds the refusal descriptor, but the unwrapping block at the head of
    [handleApiError] overwrites the descriptor's message with the number,
    and the TypeError of [toLowerCase] on it is what the caller gets. *)
Lemma generateAnalysis_refusal_escapes_as_type_error :
  isRefusal (stripFences "I cannot find this ticker.") = true /\
  resultOf (generateAnalysis (sampleParams payloadTicker) refusalWorld)
  = Throw (Ref 1) /\
  heap (worldOf (generateAnalysis (sampleParams payloadTicker) refusalWorld)) !! 1%nat
  = Some (@newTypeError (scriptedPlatform "key") "(error.message || '').toLowerCase") /\
  isDescriptor (heap (worldOf (generateAnalysis (sampleParams payloadTicker) refusalWorld)))
               (Ref 1) = false /\
  readProp (heap (worldOf (generateAnalysis (sampleParams payloadTicker) refusalWorld)))
           (Ref 0) "message" = Some (VNum (int 5)).
Proof. repeat split; vm_compute; reflexivity. Qed.

(** ** Frames: what a computation leaves alone *)

Section FrameFacts.

Context {P : Platform} {X : Type}.
Variable proj : World -> X.
Hypothesis proj_heap : forall h w, proj (setHeap h w) = proj w.
Hypothesis proj_ext : forall e w, proj (setExt e w) = proj w.

Local Abbreviation keeps := (preserves proj).
Local Abbreviation keepsOp := (preservesOp proj).

Lemma keeps_ret {A} (a : A) : keeps (ret a).
Proof. intros w. reflexivity. Qed.

Lemma keeps_throw {A} (t : thrown) : keeps (@throw P A t).
Proof. intros w. reflexivity. Qed.

Lemma keeps_throwNew {A} (o : object) : keeps (@throwNew P A o).
Proof. intros w. unfold throwNew, worldOf. simpl. apply proj_heap. Qed.



Lemma keeps_wait (ms : Z) : keeps (wait ms).
Proof. intros w. reflexivity. Qed.


Lemma keeps_bind {A B} (c : M A) (k : A -> M B) :
  keeps c -> (forall a, keeps (k a)) -> keeps (bind c k).
Proof.
  intros Hc Hk w. unfold bind. specialize (Hc w). unfold worldOf in *.
  destruct (c w) as [[[a|t] w1] tr1]; simpl in *; [|exact Hc].
  specialize (Hk a w1). unfold worldOf in Hk.
  destruct (k a w1) as [[r w2] tr2]. simpl in *. congruence.
Qed.

Lemma keeps_tryCatch {A} (c : M A) (handler : thrown -> M A) :
  keeps c -> (forall t, keeps (handler t)) -> keeps (tryCatch c handler).
Proof.
  intros Hc Hk w. unfold tryCatch. specialize (Hc w). unfold worldOf in *.
  destruct (c w) as [[[a|t] w1] tr1]; simpl in *; [exact Hc|].
  specialize (Hk t w1). unfold worldOf in Hk.
  destruct (handler t w1) as [[r w2] tr2]. simpl in *. congruence.
Qed.

Lemma keeps_invoke {A} (op : World -> outcome A * World) :
  keepsOp op -> keeps (invoke op).
Proof.
  intros H w. unfold invoke, worldOf. specialize (H w).
  destruct (op w) as [r w1]. exact H.
Qed.

Lemma keepsOp_callModel (req : request) : keepsOp (callModel req).
Proof.
  intros w. unfold callModel.
  destruct (generateContent req (ext w) (heap w)) as [[r e] h]. simpl.
  rewrite proj_heap. apply proj_ext.
Qed.

Lemma keeps_retryLoop {A} (op : World -> outcome A * World) (n : nat) (d : Z)
    (remaining i : nat) (last : thrown) :
  keepsOp op -> keeps (retryLoop op n d remaining i last).
Proof.
  intros Hop. revert i last.
  induction remaining as [|k IH]; intros i last; simpl.
  - apply keeps_throw.
  - apply keeps_tryCatch; [apply keeps_invoke; exact Hop|].
    intros error w.
    destruct (classifyFailure (heap w) error) as [[c h1]|expr].
    + destruct ((isQuota c || isServer c) && (Z.of_nat i <? Z.of_nat n - 1)).
      * pose proof (keeps_bind (wait (retryDelay c d i))
                      (fun _ => retryLoop op n d k (S i) error)
                      (keeps_wait _) (fun _ => IH (S i) error) (setHeap h1 w)) as K.
        rewrite K. apply proj_heap.
      * unfold throw, worldOf. simpl. apply proj_heap.
    + apply keeps_throwNew.
Qed.

Lemma keeps_retryOperation {A} (op : World -> outcome A * World) (n : nat) (d : Z) :
  keepsOp op -> keeps (retryOperation op n d).
Proof. apply keeps_retryLoop. Qed.

Lemma keeps_rethrowNormalized {A} (t : thrown) : keeps (@rethrowNormalized P A t).
Proof.
  intros w. unfold rethrowNormalized, handleApiError, worldOf.
  destruct (readFailure _ _) as [[[details st] m]|expr]; simpl.
  - destruct (descriptorShaped _ _ _); simpl.
    + apply proj_heap.
    + destruct (classifyTable _ _ _) as [[title message] r]. simpl.
      apply proj_heap.
  - apply proj_heap.
Qed.

Lemma keeps_parseBraced (failure text : string) : keeps (parseBraced failure text).
Proof.
  unfold parseBraced.
  destruct (negb _ && negb _).
  - destruct (JSON_parse _); [apply keeps_ret | apply keeps_throwNew].
  - apply keeps_throwNew.
Qed.

Lemma keeps_member (json : value) (k : string) : keeps (member json k).
Proof.
  unfold member. destruct (getProp json k); [apply keeps_ret | apply keeps_throwNew].
Qed.

Lemma keeps_if {A} (b : bool) (c1 c2 : M A) :
  keeps c1 -> keeps c2 -> keeps (if b then c1 else c2).
Proof. destruct b; auto. Qed.

End FrameFacts.

(** ** Computations that take nothing from the caches *)

Section BlindFacts.

Context {P : Platform}.

Lemma outside_eq (w1 w2 : World) :
  outside w1 = outside w2 -> heap w1 = heap w2 /\ ext w1 = ext w2.
Proof. unfold outside. intros [= H1 H2]. split; assumption. Qed.

Lemma outside_setHeap (h : list object) (w1 w2 : World) :
  outside w1 = outside w2 -> outside (setHeap h w1) = outside (setHeap h w2).
Proof. intros H. apply outside_eq in H as [_ E]. unfold outside. simpl. congruence. Qed.

Lemma blind_ret {A} (a : A) : blind (ret a).
Proof. intros w1 w2 H. split; [reflexivity|]. split; [reflexivity | exact H]. Qed.

Lemma blind_throw {A} (t : thrown) : blind (@throw P A t).
Proof. intros w1 w2 H. split; [reflexivity|]. split; [reflexivity | exact H]. Qed.

Lemma blind_throwNew {A} (o : object) : blind (@throwNew P A o).
Proof.
  intros w1 w2 H. pose proof (outside_eq _ _ H) as [Hh He].
  unfold throwNew, resultOf, traceOf, worldOf. simpl.
  rewrite Hh. repeat split. apply outside_setHeap. exact H.
Qed.

Lemma blind_dateNow : blind dateNow.
Proof.
  intros w1 w2 H. pose proof (outside_eq _ _ H) as [Hh He].
  unfold dateNow, resultOf, traceOf, worldOf. simpl.
  rewrite He. repeat split. exact H.
Qed.

Lemma blind_dateNowAgain : blind dateNowAgain.
Proof.
  intros w1 w2 E. unfold dateNowAgain, resultOf, traceOf, worldOf. simpl.
  pose proof E as E'. unfold outside in E'. injection E' as _ X.
  rewrite X. auto.
Qed.

Lemma blind_wait (ms : Z) : blind (wait ms).
Proof. intros w1 w2 H. split; [reflexivity|]. split; [reflexivity | exact H]. Qed.

Lemma blind_modify (f : World -> World) :
  (forall w, outside (f w) = outside w) -> blind (modify f).
Proof.
  intros Hf w1 w2 H. unfold modify, resultOf, traceOf, worldOf. simpl.
  repeat split. rewrite !Hf. exact H.
Qed.

Lemma blind_bind {A B} (c : M A) (k : A -> M B) :
  blind c -> (forall a, blind (k a)) -> blind (bind c k).
Proof.
  intros Hc Hk w1 w2 H. destruct (Hc w1 w2 H) as (R & T & O).
  unfold bind, resultOf, traceOf, worldOf in *.
  destruct (c w1) as [[[a1|t1] u1] tr1], (c w2) as [[[a2|t2] u2] tr2];
    simpl in *; try discriminate.
  - injection R as ->. subst tr2.
    destruct (Hk a2 u1 u2 O) as (R' & T' & O').
    unfold resultOf, traceOf, worldOf in *.
    destruct (k a2 u1) as [[r1 v1] s1], (k a2 u2) as [[r2 v2] s2]. simpl in *.
    subst. repeat split. exact O'.
  - injection R as ->. subst tr2. repeat split. exact O.
Qed.

Lemma blind_tryCatch {A} (c : M A) (handler : thrown -> M A) :
  blind c -> (forall t, blind (handler t)) -> blind (tryCatch c handler).
Proof.
  intros Hc Hk w1 w2 H. destruct (Hc w1 w2 H) as (R & T & O).
  unfold tryCatch, resultOf, traceOf, worldOf in *.
  destruct (c w1) as [[[a1|t1] u1] tr1], (c w2) as [[[a2|t2] u2] tr2];
    simpl in *; try discriminate.
  - injection R as ->. subst tr2. repeat split. exact O.
  - injection R as ->. subst tr2.
    destruct (Hk t2 u1 u2 O) as (R' & T' & O').
    unfold resultOf, traceOf, worldOf in *.
    destruct (handler t2 u1) as [[r1 v1] s1], (handler t2 u2) as [[r2 v2] s2].
    simpl in *. subst. repeat split. exact O'.
Qed.

Lemma blind_if {A} (b : bool) (c1 c2 : M A) :
  blind c1 -> blind c2 -> blind (if b then c1 else c2).
Proof. destruct b; auto. Qed.

Lemma blind_invoke {A} (op : World -> outcome A * World) :
  blindOp op -> blind (invoke op).
Proof.
  intros Hop w1 w2 H. destruct (Hop w1 w2 H) as (R & O).
  unfold invoke, resultOf, traceOf, worldOf.
  destruct (op w1) as [r1 u1], (op w2) as [r2 u2]. simpl in *.
  subst. repeat split. exact O.
Qed.

Lemma blindOp_callModel (req : request) : blindOp (callModel req).
Proof.
  intros w1 w2 H. pose proof (outside_eq _ _ H) as [Hh He].
  unfold callModel. rewrite Hh, He.
  destruct (generateContent req (ext w2) (heap w2)) as [[r e] h]. simpl.
  split; reflexivity.
Qed.

Lemma blind_retryLoop {A} (op : World -> outcome A * World) (n : nat) (d : Z)
    (remaining i : nat) (last : thrown) :
  blindOp op -> blind (retryLoop op n d remaining i last).
Proof.
  intros Hop. revert i last.
  induction remaining as [|k IH]; intros i last; simpl.
  - apply blind_throw.
  - apply blind_tryCatch; [apply blind_invoke; exact Hop|].
    intros error w1 w2 H. pose proof (outside_eq _ _ H) as [Hh He].
    rewrite Hh.
    destruct (classifyFailure (heap w2) error) as [[c h1]|expr].
    + destruct ((isQuota c || isServer c) && (Z.of_nat i <? Z.of_nat n - 1)).
      * apply (blind_bind (wait (retryDelay c d i))
                 (fun _ => retryLoop op n d k (S i) error)
                 (blind_wait _) (fun _ => IH (S i) error)).
        apply outside_setHeap. exact H.
      * unfold throw, resultOf, traceOf, worldOf. simpl.
        repeat split. apply outside_setHeap. exact H.
    + apply blind_throwNew. exact H.
Qed.

Lemma blind_retryOperation {A} (op : World -> outcome A * World) (n : nat) (d : Z) :
  blindOp op -> blind (retryOperation op n d).
Proof. apply blind_retryLoop. Qed.

Lemma blind_rethrowNormalized {A} (t : thrown) : blind (@rethrowNormalized P A t).
Proof.
  intros w1 w2 H. pose proof (outside_eq _ _ H) as [Hh He].
  unfold rethrowNormalized, handleApiError, resultOf, traceOf, worldOf.
  rewrite Hh.
  destruct (readFailure _ _) as [[[details st] m]|expr]; simpl.
  - destruct (descriptorShaped _ _ _); simpl.
    + repeat split. apply outside_setHeap. exact H.
    + destruct (classifyTable _ _ _) as [[title message] r]. simpl.
      repeat split. apply outside_setHeap. exact H.
  - repeat split. apply outside_setHeap. exact H.
Qed.

Lemma blind_parseBraced (failure text : string) : blind (parseBraced failure text).
Proof.
  unfold parseBraced.
  destruct (negb _ && negb _).
  - destruct (JSON_parse _); [apply blind_ret | apply blind_throwNew].
  - apply blind_throwNew.
Qed.

Lemma blind_member (json : value) (k : string) : blind (member json k).
Proof.
  unfold member. destruct (getProp json k); [apply blind_ret | apply blind_throwNew].
Qed.

Lemma blind_saveCache (key : string) (d : value) (ts : Z) :
  blind (saveCache key d ts).
Proof.
  apply blind_modify. intros w.
  destruct (localStorage w) as [slots|]; [|reflexivity].
  destruct (setItemThrows (ext w)); reflexivity.
Qed.

Lemma blind_generateAnalysis (params : SearchParams) :
  blind (generateAnalysis params).
Proof.
  unfold generateAnalysis. apply blind_if; [apply blind_throwNew|].
  apply blind_tryCatch; [|intros t; apply blind_rethrowNormalized].
  apply blind_bind; [apply blind_retryOperation, blindOp_callModel|].
  intros response. cbv zeta.
  apply blind_if; [apply blind_throwNew | apply blind_parseBraced].
Qed.

Lemma blind_generateIPOReport (ipoName : string) :
  blind (generateIPOReport ipoName).
Proof.
  unfold generateIPOReport. apply blind_if; [apply blind_throwNew|].
  apply blind_tryCatch; [|intros t; apply blind_rethrowNormalized].
  apply blind_bind; [apply blind_retryOperation, blindOp_callModel|].
  intros response. apply blind_parseBraced.
Qed.

Lemma blind_fetchMarketOverview : blind fetchMarketOverview.
Proof.
  unfold fetchMarketOverview.
  apply blind_tryCatch; [|intros t; apply blind_rethrowNormalized].
  apply blind_bind; [apply blind_retryOperation, blindOp_callModel|].
  intros response. cbv zeta. apply blind_if; [apply blind_throwNew|].
  apply blind_bind; [apply blind_parseBraced|]. intros d.
  apply blind_bind; [apply blind_dateNow|]. intros t1.
  apply blind_bind; [apply blind_modify; intros w; reflexivity|]. intros _.
  apply blind_bind; [apply blind_dateNowAgain|]. intros t2.
  apply blind_bind; [apply blind_saveCache|]. intros _.
  apply blind_ret.
Qed.

Lemma blind_fetchScreener (query cacheKey : string) :
  blind (fetchScreener query cacheKey).
Proof.
  unfold fetchScreener.
  apply blind_tryCatch; [|intros t; apply blind_rethrowNormalized].
  apply blind_bind; [apply blind_retryOperation, blindOp_callModel|].
  intros response. cbv zeta.
  apply blind_bind; [apply blind_parseBraced|]. intros json.
  apply blind_bind; [apply blind_member|]. intros matches.
  apply blind_bind; [apply blind_dateNow|]. intros t.
  apply blind_bind; [apply blind_modify; intros w; reflexivity|]. intros _.
  apply blind_bind; [apply blind_modify; intros w; reflexivity|]. intros _.
  apply blind_ret.
Qed.

Lemma blind_fetchIPOListFresh : blind fetchIPOListFresh.
Proof.
  unfold fetchIPOListFresh.
  apply blind_tryCatch; [|intros t; apply blind_rethrowNormalized].
  apply blind_bind; [apply blind_retryOperation, blindOp_callModel|].
  intros response. cbv zeta.
  apply blind_bind; [apply blind_parseBraced|]. intros json.
  apply blind_bind; [apply blind_member|]. intros items.
  apply blind_bind; [apply blind_dateNow|]. intros t1.
  apply blind_bind; [apply blind_modify; intros w; reflexivity|]. intros _.
  apply blind_bind; [apply blind_dateNowAgain|]. intros t2.
  apply blind_bind; [apply blind_saveCache|]. intros _.
  apply blind_ret.
Qed.

End BlindFacts.

(** ** Traces and successful runs *)

Section RunFacts.

Context {P : Platform}.

Lemma invocations_cons_invoked (tr : list event) :
  (1 <= invocations (Invoked :: tr))%nat.
Proof. simpl. lia. Qed.

Lemma bind_starts_invoked {A B} (c : M A) (k : A -> M B) (w : World) :
  (exists tr, traceOf (c w) = Invoked :: tr) ->
  exists tr, traceOf (bind c k w) = Invoked :: tr.
Proof.
  intros [tr H]. unfold bind, traceOf in *.
  destruct (c w) as [[[a|t] w1] tr1]; simpl in *; subst tr1.
  - destruct (k a w1) as [[r w2] tr2]. simpl. eauto.
  - eauto.
Qed.

Lemma tryCatch_starts_invoked {A} (c : M A) (handler : thrown -> M A) (w : World) :
  (exists tr, traceOf (c w) = Invoked :: tr) ->
  exists tr, traceOf (tryCatch c handler w) = Invoked :: tr.
Proof.
  intros [tr H]. unfold tryCatch, traceOf in *.
  destruct (c w) as [[[a|t] w1] tr1]; simpl in *; subst tr1.
  - eauto.
  - destruct (handler t w1) as [[r w2] tr2]. simpl. eauto.
Qed.

(** With at least one attempt allowed, the first thing [retryOperation]
    does is to invoke the operation. *)
Lemma retryOperation_starts_invoked {T} (operation : World -> outcome T * World)
    (n : nat) (d : Z) (w : World) :
  exists tr, traceOf (retryOperation operation (S n) d w) = Invoked :: tr.
Proof.
  unfold retryOperation. simpl. unfold tryCatch, invoke, traceOf.
  destruct (operation w) as [[v|e] w1]; simpl; [eauto|].
  destruct (classifyFailure (heap w1) e) as [[c h1]|expr].
  - destruct ((isQuota c || isServer c) && _).
    + destruct (bind _ _ _) as [[r w2] tr2]. simpl. eauto.
    + simpl. eauto.
  - simpl. eauto.
Qed.

Lemma bind_Return_inv {A B} (c : M A) (k : A -> M B) (w w' : World) (b : B)
    (tr : list event) :
  bind c k w = (Return b, w', tr) ->
  exists a w1 tr1 tr2,
    c w = (Return a, w1, tr1) /\ k a w1 = (Return b, w', tr2) /\
    tr = (tr1 ++ tr2)%list.
Proof.
  unfold bind. destruct (c w) as [[[a|t] w1] tr1]; [|discriminate].
  destruct (k a w1) as [[r w2] tr2] eqn:E. intros [= -> -> <-].
  exists a, w1, tr1, tr2. auto.
Qed.

Lemma bind_Throw_inv {A B} (c : M A) (k : A -> M B) (w w' : World) (t : thrown)
    (tr : list event) :
  bind c k w = (Throw t, w', tr) ->
  (exists tr1, c w = (Throw t, w', tr1)) \/
  (exists a w1 tr1 tr2, c w = (Return a, w1, tr1) /\ k a w1 = (Throw t, w', tr2)).
Proof.
  unfold bind. destruct (c w) as [[[a|t0] w1] tr1].
  - destruct (k a w1) as [[r w2] tr2] eqn:E. intros [= -> -> <-].
    right. exists a, w1, tr1, tr2. auto.
  - intros [= -> -> <-]. left. eauto.
Qed.

Lemma tryCatch_rethrow_Return_inv {A} (c : M A) (w w' : World) (a : A)
    (tr : list event) :
  tryCatch c rethrowNormalized w = (Return a, w', tr) -> c w = (Return a, w', tr).
Proof.
  unfold tryCatch. destruct (c w) as [[[v|t] w1] tr1]; [intros H; exact H|].
  unfold rethrowNormalized. destruct (handleApiError t w1) as [t1 w2].
  discriminate.
Qed.

(** What a successful fetch of the market overview returns is what it has
    put into the cache, stamped with the time of the store. *)
Lemma fetchMarketOverview_stores (w w' : World) (d : value) (tr : list event) :
  fetchMarketOverview w = (Return d, w', tr) ->
  marketCache w' = Some {| data := d; timestamp := Date_now (ext w') |}.
Proof.
  unfold fetchMarketOverview. intros H.
  apply tryCatch_rethrow_Return_inv in H.
  apply bind_Return_inv in H as (response & w1 & tr1 & tr2 & _ & H & _).
  cbv zeta in H. destruct (isEmpty (default EmptyString response)); [discriminate|].
  apply bind_Return_inv in H as (d0 & w2 & ? & ? & _ & H & _).
  apply bind_Return_inv in H as (t1 & w3 & ? & ? & H1 & H & _).
  apply bind_Return_inv in H as (u & w4 & ? & ? & H2 & H & _).
  apply bind_Return_inv in H as (t2 & w5 & ? & ? & H3 & H & _).
  apply bind_Return_inv in H as (u' & w6 & ? & ? & H4 & H & _).
  unfold ret in H. injection H as -> -> _.
  unfold dateNow in H1. unfold dateNowAgain in H3. injection H1 as <- <- _. injection H3 as <- <- _.
  unfold modify in H2. injection H2 as _ <- _.
  unfold saveCache, modify in H4. injection H4 as _ <- _.
  destruct (localStorage _) as [slots|]; [|reflexivity].
  destruct (setItemThrows _); reflexivity.
Qed.

Lemma fetchScreener_stores (query cacheKey : string) (w w' : World) (d : value)
    (tr : list event) :
  fetchScreener query cacheKey w = (Return d, w', tr) ->
  screenerCache w' !! cacheKey
  = Some {| data := d; timestamp := Date_now (ext w') |} /\
  lastScreenerQuery w' = Some query.
Proof.
  unfold fetchScreener. intros H.
  apply tryCatch_rethrow_Return_inv in H.
  apply bind_Return_inv in H as (response & w1 & tr1 & tr2 & _ & H & _).
  cbv zeta in H.
  apply bind_Return_inv in H as (json & w2 & ? & ? & _ & H & _).
  apply bind_Return_inv in H as (matches & w3 & ? & ? & _ & H & _).
  apply bind_Return_inv in H as (t1 & w4 & ? & ? & H1 & H & _).
  apply bind_Return_inv in H as (u & w5 & ? & ? & H2 & H & _).
  apply bind_Return_inv in H as (u' & w6 & ? & ? & H3 & H & _).
  unfold ret in H. injection H as -> -> _.
  unfold dateNow in H1. injection H1 as <- <- _.
  unfold modify in H2, H3. injection H2 as _ <- _. injection H3 as _ <- _.
  simpl. split; [apply lookup_insert_eq | reflexivity].
Qed.

Lemma fetchIPOListFresh_stores (w w' : World) (d : value) (tr : list event) :
  fetchIPOListFresh w = (Return d, w', tr) ->
  ipoListCache w' = Some {| data := d; timestamp := Date_now (ext w') |}.
Proof.
  unfold fetchIPOListFresh. intros H.
  apply tryCatch_rethrow_Return_inv in H.
  apply bind_Return_inv in H as (response & w1 & tr1 & tr2 & _ & H & _).
  cbv zeta in H.
  apply bind_Return_inv in H as (json & w2 & ? & ? & _ & H & _).
  apply bind_Return_inv in H as (items & w3 & ? & ? & _ & H & _).
  apply bind_Return_inv in H as (t1 & w4 & ? & ? & H1 & H & _).
  apply bind_Return_inv in H as (u & w5 & ? & ? & H2 & H & _).
  apply bind_Return_inv in H as (t2 & w6 & ? & ? & H3 & H & _).
  apply bind_Return_inv in H as (u' & w7 & ? & ? & H4 & H & _).
  unfold ret in H. injection H as -> -> _.
  unfold dateNow in H1. unfold dateNowAgain in H3. injection H1 as <- <- _. injection H3 as <- <- _.
  unfold modify in H2. injection H2 as _ <- _.
  unfold saveCache, modify in H4. injection H4 as _ <- _.
  destruct (localStorage _) as [slots|]; [|reflexivity].
  destruct (setItemThrows _); reflexivity.
Qed.

End RunFacts.

(** ** Cached report kinds *)

Section CacheFacts.

Context {P : Platform}.
Hypothesis key_configured : isEmpty apiKey = false.

Lemma getMarketOverview_hit (w : World) (e : CacheEntry) :
  marketCache w = Some e ->
  Date_now (ext w) - timestamp e < MARKET_CACHE_TTL ->
  getMarketOverview false w = (Return (data e), w, nil).
Proof.
  intros H L. unfold getMarketOverview. rewrite key_configured.
  unfold bind, dateNow, getWorld. simpl. rewrite H.
  apply Z.ltb_lt in L. rewrite L. reflexivity.
Qed.

Lemma getMarketOverview_miss (w : World) (b : bool) :
  b = true \/
  (forall e, marketCache w = Some e ->
             MARKET_CACHE_TTL <= Date_now (ext w) - timestamp e) ->
  getMarketOverview b w = fetchMarketOverview w.
Proof.
  intros H. unfold getMarketOverview. rewrite key_configured.
  unfold bind, dateNow, getWorld. simpl.
  assert (E : forall c, marketCache w = Some c ->
                negb b && (Date_now (ext w) - timestamp c <? MARKET_CACHE_TTL) = false).
  { intros c Hc. destruct H as [-> | H]; [reflexivity|].
    specialize (H c Hc). apply andb_false_intro2, Z.ltb_ge. exact H. }
  destruct (marketCache w) as [c|]; [rewrite (E c eq_refl)|];
    destruct (fetchMarketOverview w) as [[r w1] tr]; reflexivity.
Qed.

Lemma screenStocks_hit (w : World) (q : string) (e : CacheEntry) :
  screenerCache w !! getCacheKey q = Some e ->
  Date_now (ext w) - timestamp e < SCREENER_CACHE_TTL ->
  screenStocks q false w = (Return (data e), setLastScreenerQuery (Some q) w, nil).
Proof.
  intros H L. unfold screenStocks. rewrite key_configured.
  unfold bind, dateNow, getWorld. simpl. rewrite H.
  apply Z.ltb_lt in L. rewrite L. reflexivity.
Qed.

Lemma screenStocks_miss (w : World) (q : string) (b : bool) :
  b = true \/
  (forall e, screenerCache w !! getCacheKey q = Some e ->
             SCREENER_CACHE_TTL <= Date_now (ext w) - timestamp e) ->
  screenStocks q b w = fetchScreener q (getCacheKey q) w.
Proof.
  intros H. unfold screenStocks. rewrite key_configured.
  unfold bind, dateNow, getWorld. simpl.
  assert (E : forall c, screenerCache w !! getCacheKey q = Some c ->
                negb b && (Date_now (ext w) - timestamp c <? SCREENER_CACHE_TTL) = false).
  { intros c Hc. destruct H as [-> | H]; [reflexivity|].
    specialize (H c Hc). apply andb_false_intro2, Z.ltb_ge. exact H. }
  destruct (screenerCache w !! getCacheKey q) as [c|]; [rewrite (E c eq_refl)|];
    destruct (fetchScreener q (getCacheKey q) w) as [[r w1] tr]; reflexivity.
Qed.

Lemma fetchIPOList_hit (w : World) (e : CacheEntry) :
  ipoListCache w = Some e ->
  Date_now (ext w) - timestamp e < IPO_CACHE_TTL ->
  fetchIPOList false w = (Return (data e), w, nil).
Proof.
  intros H L. unfold fetchIPOList. rewrite key_configured.
  unfold bind, dateNow, getWorld. simpl. rewrite H.
  apply Z.ltb_lt in L. rewrite L. reflexivity.
Qed.

Lemma fetchIPOList_miss (w : World) (b : bool) :
  b = true \/
  (forall e, ipoListCache w = Some e ->
             IPO_CACHE_TTL <= Date_now (ext w) - timestamp e) ->
  fetchIPOList b w = fetchIPOListFresh w.
Proof.
  intros H. unfold fetchIPOList. rewrite key_configured.
  unfold bind, dateNow, getWorld. simpl.
  assert (E : forall c, ipoListCache w = Some c ->
                negb b && (Date_now (ext w) - timestamp c <? IPO_CACHE_TTL) = false).
  { intros c Hc. destruct H as [-> | H]; [reflexivity|].
    specialize (H c Hc). apply andb_false_intro2, Z.ltb_ge. exact H. }
  destruct (ipoListCache w) as [c|]; [rewrite (E c eq_refl)|];
    destruct (fetchIPOListFresh w) as [[r w1] tr]; reflexivity.
Qed.

Lemma fetchMarketOverview_invokes (w : World) :
  (1 <= invocations (traceOf (fetchMarketOverview w)))%nat.
Proof.
  unfold fetchMarketOverview, defaultMaxRetries.
  match goal with
  | |- (1 <= invocations (traceOf (tryCatch ?c ?h ?u)))%nat =>
      destruct (tryCatch_starts_invoked c h u) as [tr H]
  end.
  - apply bind_starts_invoked. apply (retryOperation_starts_invoked _ 2).
  - rewrite H. apply invocations_cons_invoked.
Qed.

Lemma fetchScreener_invokes (q k : string) (w : World) :
  (1 <= invocations (traceOf (fetchScreener q k w)))%nat.
Proof.
  unfold fetchScreener, defaultMaxRetries.
  match goal with
  | |- (1 <= invocations (traceOf (tryCatch ?c ?h ?u)))%nat =>
      destruct (tryCatch_starts_invoked c h u) as [tr H]
  end.
  - apply bind_starts_invoked. apply (retryOperation_starts_invoked _ 2).
  - rewrite H. apply invocations_cons_invoked.
Qed.

Lemma fetchIPOListFresh_invokes (w : World) :
  (1 <= invocations (traceOf (fetchIPOListFresh w)))%nat.
Proof.
  unfold fetchIPOListFresh, defaultMaxRetries.
  match goal with
  | |- (1 <= invocations (traceOf (tryCatch ?c ?h ?u)))%nat =>
      destruct (tryCatch_starts_invoked c h u) as [tr H]
  end.
  - apply bind_starts_invoked. apply (retryOperation_starts_invoked _ 2).
  - rewrite H. apply invocations_cons_invoked.
Qed.

End CacheFacts.

(** C7, as amended.  With an API key configured, for the market overview,
    the screener and the IPO list alike: a call that is not forced and
    finds an entry younger than the TTL of its kind returns the payload of
    that entry without a model invocation; that entry is what the latest
    successful fetch for the key returned and stored; and a call that is
    forced, or finds no entry or one as old as the TTL, runs the fetch
    path, which invokes the model at least once and takes nothing from the
    caches. *)
Theorem cached_reports_within_ttl {P : Platform} :
  isEmpty apiKey = false ->
  forall w : World,
  ((forall e, marketCache w = Some e ->
              Date_now (ext w) - timestamp e < MARKET_CACHE_TTL ->
              getMarketOverview false w = (Return (data e), w, nil)) /\
   (forall q e, screenerCache w !! getCacheKey q = Some e ->
                Date_now (ext w) - timestamp e < SCREENER_CACHE_TTL ->
                screenStocks q false w
                = (Return (data e), setLastScreenerQuery (Some q) w, nil)) /\
   (forall e, ipoListCache w = Some e ->
              Date_now (ext w) - timestamp e < IPO_CACHE_TTL ->
              fetchIPOList false w = (Return (data e), w, nil))) /\
  ((forall w0 d tr, fetchMarketOverview w0 = (Return d, w, tr) ->
                    marketCache w = Some {| data := d; timestamp := Date_now (ext w) |}) /\
   (forall w0 q d tr, fetchScreener q (getCacheKey q) w0 = (Return d, w, tr) ->
                      screenerCache w !! getCacheKey q
                      = Some {| data := d; timestamp := Date_now (ext w) |}) /\
   (forall w0 d tr, fetchIPOListFresh w0 = (Return d, w, tr) ->
                    ipoListCache w = Some {| data := d; timestamp := Date_now (ext w) |})) /\
  ((forall b,
       b = true \/
       (forall e, marketCache w = Some e ->
                  MARKET_CACHE_TTL <= Date_now (ext w) - timestamp e) ->
       getMarketOverview b w = fetchMarketOverview w /\
       (1 <= invocations (traceOf (getMarketOverview b w)))%nat) /\
   (forall q b,
       b = true \/
       (forall e, screenerCache w !! getCacheKey q = Some e ->
                  SCREENER_CACHE_TTL <= Date_now (ext w) - timestamp e) ->
       screenStocks q b w = fetchScreener q (getCacheKey q) w /\
       (1 <= invocations (traceOf (screenStocks q b w)))%nat) /\
   (forall b,
       b = true \/
       (forall e, ipoListCache w = Some e ->
                  IPO_CACHE_TTL <= Date_now (ext w) - timestamp e) ->
       fetchIPOList b w = fetchIPOListFresh w /\
       (1 <= invocations (traceOf (fetchIPOList b w)))%nat)) /\
  (blind fetchMarketOverview /\
   (forall q k, blind (fetchScreener q k)) /\
   blind fetchIPOListFresh).
Proof.
  intros K w. split; [|split; [|split]].
  - split; [|split].
    + intros e. apply getMarketOverview_hit. exact K.
    + intros q e. apply screenStocks_hit. exact K.
    + intros e. apply fetchIPOList_hit. exact K.
  - split; [|split].
    + intros w0 d tr. apply fetchMarketOverview_stores.
    + intros w0 q d tr H. apply (fetchScreener_stores _ _ _ _ _ _ H).
    + intros w0 d tr. apply fetchIPOListFresh_stores.
  - split; [|split].
    + intros b H. rewrite (getMarketOverview_miss K w b H).
      split; [reflexivity | apply fetchMarketOverview_invokes].
    + intros q b H. rewrite (screenStocks_miss K w q b H).
      split; [reflexivity | apply fetchScreener_invokes].
    + intros b H. rewrite (fetchIPOList_miss K w b H).
      split; [reflexivity | apply fetchIPOListFresh_invokes].
  - split; [apply blind_fetchMarketOverview|].
    split; [apply blind_fetchScreener | apply blind_fetchIPOListFresh].
Qed.

Lemma cached_reports_within_ttl_witness :
  getMarketOverview false (cachedWorld "key")
  = (Return (data sampleEntry), cachedWorld "key", nil).
Proof.
  apply (proj1 (proj1 (@cached_reports_within_ttl (scriptedPlatform "key")
                         eq_refl (cachedWorld "key")))
               sampleEntry).
  - reflexivity.
  - vm_compute. reflexivity.
Defined.

(** C7, as stated, fails.  The market entry is one second old, well within
    its TTL, but no API key is configured: the call that is not forced
    throws the missing-key descriptor in place of returning the payload,
    and the forced call invokes no model. *)
Lemma getMarketOverview_without_key :
  marketCache (cachedWorld EmptyString) = Some sampleEntry /\
  Date_now (ext (cachedWorld EmptyString)) - timestamp sampleEntry < MARKET_CACHE_TTL /\
  resultOf (getMarketOverview false (cachedWorld EmptyString)) = Throw (Ref 0) /\
  readProp (heap (worldOf (getMarketOverview false (cachedWorld EmptyString))))
           (Ref 0) "title" = Some (VStr "Missing API Key") /\
  invocations (traceOf (getMarketOverview true (cachedWorld EmptyString))) = 0%nat.
Proof. repeat split; vm_compute; reflexivity. Qed.

(** ** Reports that are never cached *)

Section UncachedFacts.

Context {P : Platform} {X : Type}.
Variable proj : World -> X.
Hypothesis proj_heap : forall h w, proj (setHeap h w) = proj w.
Hypothesis proj_ext : forall e w, proj (setExt e w) = proj w.

Lemma preserves_run {A} (c : M A) (w w' : World) (r : outcome A) (tr : list event) :
  preserves proj c -> c w = (r, w', tr) -> proj w' = proj w.
Proof. intros H E. specialize (H w). rewrite E in H. exact H. Qed.

Lemma preserves_model_call {A} (req : request) (k : option string -> M A) :
  (forall response, preserves proj (k response)) ->
  preserves proj
    (tryCatch (bind (retryOperation (callModel req) defaultMaxRetries defaultInitialDelay) k)
              rethrowNormalized).
Proof.
  intros H. apply keeps_tryCatch.
  - apply keeps_bind; [|exact H].
    apply keeps_retryOperation; [exact proj_heap|].
    apply keepsOp_callModel; assumption.
  - intros t. apply keeps_rethrowNormalized. exact proj_heap.
Qed.

Lemma preserves_generateAnalysis (params : SearchParams) :
  preserves proj (generateAnalysis params).
Proof.
  unfold generateAnalysis. apply keeps_if; [apply keeps_throwNew; exact proj_heap|].
  apply preserves_model_call. intros response. cbv zeta.
  apply keeps_if; [apply keeps_throwNew | apply keeps_parseBraced]; exact proj_heap.
Qed.

Lemma preserves_generateIPOReport (ipoName : string) :
  preserves proj (generateIPOReport ipoName).
Proof.
  unfold generateIPOReport. apply keeps_if; [apply keeps_throwNew; exact proj_heap|].
  apply preserves_model_call. intros response.
  apply keeps_parseBraced. exact proj_heap.
Qed.

Lemma preserves_chat (c : chatCall) : preserves proj (runChat c).
Proof.
  destruct c as [m x|m x]; simpl;
    [unfold generateChatResponseLite | unfold generateChatResponseDetailed];
    (apply keeps_if; [apply keeps_throwNew; exact proj_heap|]);
    (apply keeps_tryCatch; [|intros t; apply keeps_ret]);
    (apply keeps_bind; [|intros response; apply keeps_ret]);
    (apply keeps_retryOperation; [exact proj_heap|]);
    apply keepsOp_callModel; assumption.
Qed.

End UncachedFacts.

Section UncachedInvocations.

Context {P : Platform}.
Hypothesis key_configured : isEmpty apiKey = false.

Lemma generateAnalysis_invokes (params : SearchParams) (w : World) :
  (1 <= invocations (traceOf (generateAnalysis params w)))%nat.
Proof.
  unfold generateAnalysis, defaultMaxRetries. rewrite key_configured.
  match goal with
  | |- (1 <= invocations (traceOf (tryCatch ?c ?h ?u)))%nat =>
      destruct (tryCatch_starts_invoked c h u) as [tr H]
  end.
  - apply bind_starts_invoked. apply (retryOperation_starts_invoked _ 2).
  - rewrite H. apply invocations_cons_invoked.
Qed.

Lemma generateIPOReport_invokes (ipoName : string) (w : World) :
  (1 <= invocations (traceOf (generateIPOReport ipoName w)))%nat.
Proof.
  unfold generateIPOReport, defaultMaxRetries. rewrite key_configured.
  match goal with
  | |- (1 <= invocations (traceOf (tryCatch ?c ?h ?u)))%nat =>
      destruct (tryCatch_starts_invoked c h u) as [tr H]
  end.
  - apply bind_starts_invoked. apply (retryOperation_starts_invoked _ 2).
  - rewrite H. apply invocations_cons_invoked.
Qed.

End UncachedInvocations.

(** C8, as amended.  [generateAnalysis] and [generateIPOReport] leave the
    market cache, the screener map, the last screener query, the IPO list
    cache and the persisted slots as they found them, and take nothing
    from them: in two worlds that differ in the caches alone they do the
    same.  With an API key configured every call, a repeated one
    included, invokes the model at least once. *)
Theorem uncached_reports {P : Platform} (params : SearchParams) (ipoName : string) :
  (preserves caches (generateAnalysis params) /\
   preserves caches (generateIPOReport ipoName)) /\
  (blind (generateAnalysis params) /\ blind (generateIPOReport ipoName)) /\
  (isEmpty apiKey = false ->
   forall w : World,
     (1 <= invocations (traceOf (generateAnalysis params w)))%nat /\
     (1 <= invocations (traceOf (generateIPOReport ipoName w)))%nat /\
     (1 <= invocations
             (traceOf (generateAnalysis params
                         (worldOf (generateAnalysis params w)))))%nat /\
     (1 <= invocations
             (traceOf (generateIPOReport ipoName
                         (worldOf (generateIPOReport ipoName w)))))%nat).
Proof.
  split; [|split].
  - split; [apply preserves_generateAnalysis | apply preserves_generateIPOReport];
      intros; reflexivity.
  - split; [apply blind_generateAnalysis | apply blind_generateIPOReport].
  - intros K w.
    split; [apply generateAnalysis_invokes; exact K|].
    split; [apply generateIPOReport_invokes; exact K|].
    split; [apply generateAnalysis_invokes; exact K|].
    apply generateIPOReport_invokes; exact K.
Qed.

Lemma uncached_reports_witness :
  (1 <= invocations
          (traceOf (generateIPOReport "Acme"
                      (worldOf (generateIPOReport "Acme" fencedWorld)))))%nat.
Proof.
  apply (proj2 (proj2 (@uncached_reports (scriptedPlatform "key")
                         (sampleParams "INFY") "Acme"))
               eq_refl fencedWorld).
Defined.

(** C8, as stated, fails.  Without an API key [generateIPOReport] throws
    the missing-key descriptor and the model is not invoked. *)
Lemma generateIPOReport_without_key :
  resultOf (generateIPOReport "Acme" keylessWorld) = Throw (Ref 0) /\
  readProp (heap (worldOf (generateIPOReport "Acme" keylessWorld))) (Ref 0) "title"
  = Some (VStr "Missing API Key") /\
  invocations (traceOf (generateIPOReport "Acme" keylessWorld)) = 0%nat /\
  invocations (traceOf (generateAnalysis (sampleParams "INFY") keylessWorld)) = 0%nat.
Proof. repeat split; vm_compute; reflexivity. Qed.

(** ** The state the screener restores *)

Section ScreenerFacts.

Context {P : Platform}.

Lemma screenerState_setHeap (h : list object) (w : World) :
  screenerState (setHeap h w) = screenerState w.
Proof. reflexivity. Qed.

Lemma screenerState_setExt (e : External) (w : World) :
  screenerState (setExt e w) = screenerState w.
Proof. reflexivity. Qed.






(** A fetch for the screener that throws has not touched the screener's
    state: both writes come after everything that can throw. *)
Lemma fetchScreener_throw (q k : string) (w w' : World) (t : thrown)
    (tr : list event) :
  fetchScreener q k w = (Throw t, w', tr) ->
  screenerState w' = screenerState w.
Proof.
  unfold fetchScreener, tryCatch.
  destruct (bind _ _ w) as [[[v|raw] w1] tr1] eqn:B; [discriminate|].
  intros H.
  assert (E1 : screenerState w' = screenerState w1).
  { pose proof (keeps_rethrowNormalized screenerState screenerState_setHeap
                  (A := value) raw w1) as K.
    unfold worldOf in K.
    destruct (rethrowNormalized raw w1) as [[r2 w2] tr2].
    injection H as _ <- _. exact K. }
  rewrite E1. clear H E1.
  apply bind_Throw_inv in B as [[tr0 B] | (response & u1 & ? & ? & B1 & B)].
  { apply (preserves_run screenerState _ _ _ _ _
             (keeps_retryOperation screenerState screenerState_setHeap _ _ _
                (keepsOp_callModel screenerState screenerState_setHeap
                                   screenerState_setExt _)) B). }
  apply (preserves_run screenerState _ _ _ _ _
           (keeps_retryOperation screenerState screenerState_setHeap _ _ _
              (keepsOp_callModel screenerState screenerState_setHeap
                                 screenerState_setExt _))) in B1.
  rewrite <- B1. cbv zeta in B.
  apply bind_Throw_inv in B as [[tr0 B] | (json & u2 & ? & ? & B2 & B)].
  { apply (preserves_run screenerState _ _ _ _ _
             (keeps_parseBraced screenerState screenerState_setHeap _ _) B). }
  apply (preserves_run screenerState _ _ _ _ _
           (keeps_parseBraced screenerState screenerState_setHeap _ _)) in B2.
  rewrite <- B2.
  apply bind_Throw_inv in B as [[tr0 B] | (matches & u3 & ? & ? & B3 & B)].
  { apply (preserves_run screenerState _ _ _ _ _
             (keeps_member screenerState screenerState_setHeap _ _) B). }
  apply bind_Throw_inv in B as [[tr0 B] | (t1 & u4 & ? & ? & B4 & B)];
    [discriminate|].
  apply bind_Throw_inv in B as [[tr0 B] | (unit5 & u5 & ? & ? & B5 & B)];
    [discriminate|].
  apply bind_Throw_inv in B as [[tr0 B] | (unit6 & u6 & ? & ? & B6 & B)];
    discriminate.
Qed.

(** What a call of [screenStocks] does to the screener's state. *)
Lemma screenStocks_outcome (q : string) (b : bool) (w : World) :
  match resultOf (screenStocks q b w) with
  | Return v =>
      lastScreenerQuery (worldOf (screenStocks q b w)) = Some q /\
      exists e, screenerCache (worldOf (screenStocks q b w)) !! getCacheKey q = Some e /\
                data e = v
  | Throw _ => screenerState (worldOf (screenStocks q b w)) = screenerState w
  end.
Proof.
  unfold screenStocks. destruct (isEmpty apiKey); [reflexivity|].
  unfold bind, dateNow, getWorld. simpl.
  assert (F : match resultOf (fetchScreener q (getCacheKey q) w) with
              | Return v =>
                  lastScreenerQuery (worldOf (fetchScreener q (getCacheKey q) w)) = Some q /\
                  exists e, screenerCache (worldOf (fetchScreener q (getCacheKey q) w))
                              !! getCacheKey q = Some e /\ data e = v
              | Throw _ =>
                  screenerState (worldOf (fetchScreener q (getCacheKey q) w))
                  = screenerState w
              end).
  { destruct (fetchScreener q (getCacheKey q) w) as [[[v|t] w1] tr] eqn:E;
      unfold resultOf, worldOf; simpl.
    - destruct (fetchScreener_stores _ _ _ _ _ _ E) as [S L].
      split; [exact L|]. eexists. split; [exact S | reflexivity].
    - apply (fetchScreener_throw _ _ _ _ _ _ E). }
  destruct (screenerCache w !! getCacheKey q) as [c|] eqn:C.
  - destruct (negb b && _).
    + unfold resultOf, worldOf. simpl. split; [reflexivity|].
      exists c. split; [exact C | reflexivity].
    + unfold resultOf, worldOf in *.
      destruct (fetchScreener q (getCacheKey q) w) as [[r w1] tr]. exact F.
  - unfold resultOf, worldOf in *.
    destruct (fetchScreener q (getCacheKey q) w) as [[r w1] tr]. exact F.
Qed.




End ScreenerFacts.




(** * Further properties of the service module *)

(** ** Runs of the retry executor *)

Section RetryRunFacts.

Context {P : Platform} {T : Type}.
Variable operation : World -> outcome T * World.
Variables (maxRetries : nat) (initialDelay : Z).

Lemma retryLoop_failures_then_success i w ds w1 v w2 :
  retryableFailures operation initialDelay i w ds w1 ->
  operation w1 = (Return v, w2) ->
  forall k last,
    (i + length ds < maxRetries)%nat -> (length ds < k)%nat ->
    retryLoop operation maxRetries initialDelay k i last w
    = (Return v, w2, retryTrace ds).
Proof.
  intros F O. induction F as [i w|i w w1 w3 e c ds (wf & h1 & Op & C & ->) R F IH];
    intros k last Hi Hk.
  - destruct k as [|k]; [simpl in Hk; lia|].
    apply retryLoop_success. exact O.
  - destruct k as [|k]; [simpl in Hk; lia|].
    rewrite (retryLoop_again _ _ _ _ _ _ _ _ _ _ _ Op C R) by (simpl in Hi; lia).
    rewrite (IH O k e) by (simpl in Hi, Hk; lia).
    reflexivity.
Qed.

Lemma retryLoop_failures_then_failure i w ds w1 e c w2 :
  retryableFailures operation initialDelay i w ds w1 ->
  failsClassified operation w1 e c w2 ->
  (isQuota c || isServer c) && (Z.of_nat (i + length ds) <? Z.of_nat maxRetries - 1)
  = false ->
  forall k last,
    (i + length ds < maxRetries)%nat -> (length ds < k)%nat ->
    retryLoop operation maxRetries initialDelay k i last w
    = (Throw e, w2, retryTrace ds).
Proof.
  intros F (wl & hl & Ol & Cl & ->).
  induction F as [i w|i w w1 w3 e' c' ds (wf & h1 & Op & C & ->) R F IH];
    intros G k last Hi Hk.
  - destruct k as [|k]; [simpl in Hk; lia|].
    simpl in G. rewrite Nat.add_0_r in G.
    apply (retryLoop_giveUp _ _ _ _ _ _ _ _ _ _ _ Ol Cl G).
  - destruct k as [|k]; [simpl in Hk; lia|].
    rewrite (retryLoop_again _ _ _ _ _ _ _ _ _ _ _ Op C R) by (simpl in Hi; lia).
    simpl in G. rewrite Nat.add_succ_r in G.
    rewrite (IH Ol G k e') by (simpl in Hi, Hk; lia).
    reflexivity.
Qed.

End RetryRunFacts.

Section RetryTraceFacts.

Context {P : Platform} {T : Type}.
Variable operation : World -> outcome T * World.
Variables (maxRetries : nat) (initialDelay : Z).

(** One iteration of the loop: it ends the run with its invocation, or it
    waits and the loop goes on. *)
Lemma retryLoop_trace_cases k i last w :
  traceOf (retryLoop operation maxRetries initialDelay (S k) i last w)
  = Invoked :: nil \/
  exists c e w1,
    Z.of_nat i < Z.of_nat maxRetries - 1 /\
    traceOf (retryLoop operation maxRetries initialDelay (S k) i last w)
    = Invoked :: Waited (retryDelay c initialDelay i) ::
      traceOf (retryLoop operation maxRetries initialDelay k (S i) e w1).
Proof.
  cbn [retryLoop]. unfold tryCatch, invoke.
  destruct (operation w) as [[v|e] wf]; [left; reflexivity|].
  destruct (classifyFailure (heap wf) e) as [[c h1]|expr]; [|left; reflexivity].
  destruct ((isQuota c || isServer c) && (Z.of_nat i <? Z.of_nat maxRetries - 1))
    eqn:G; [|left; reflexivity].
  right. exists c, e, (setHeap h1 wf).
  apply andb_prop in G as [_ G]. apply Z.ltb_lt in G.
  split; [exact G|].
  unfold bind, wait.
  destruct (retryLoop operation maxRetries initialDelay k (S i) e (setHeap h1 wf))
    as [[r w2] tr].
  reflexivity.
Qed.

Lemma retryLoop_attempts k :
  forall i last w,
    (k + i = maxRetries)%nat -> (1 <= k)%nat ->
    let tr := traceOf (retryLoop operation maxRetries initialDelay k i last w) in
    (1 <= invocations tr <= k)%nat /\
    length (waits tr) = pred (invocations tr).
Proof.
  induction k as [|k IH]; intros i last w E K tr; [lia|].
  subst tr.
  destruct (retryLoop_trace_cases k i last w) as [->|(c & e & w1 & L & ->)].
  - simpl. split; lia.
  - destruct (IH (S i) e w1) as [[I1 I2] W]; [lia|lia|].
    simpl. rewrite W. split; lia.
Qed.

Lemma retryDelay_bounds (c : Classification) (i : nat) :
  0 <= initialDelay ->
  0 <= retryDelay c initialDelay i <= Z.max 5000 initialDelay * 2 ^ Z.of_nat i.
Proof.
  intros D. unfold retryDelay.
  assert (0 < 2 ^ Z.of_nat i) by (apply Z.pow_pos_nonneg; lia).
  destruct (isQuota c); nia.
Qed.

Lemma retryLoop_totalWait k :
  forall i last w,
    0 <= initialDelay ->
    (k + i = maxRetries)%nat -> (1 <= k)%nat ->
    let tr := traceOf (retryLoop operation maxRetries initialDelay k i last w) in
    0 <= totalWait tr
    <= Z.max 5000 initialDelay * (2 ^ Z.of_nat (pred maxRetries) - 2 ^ Z.of_nat i).
Proof.
  induction k as [|k IH]; intros i last w D E K tr; [lia|].
  subst tr.
  assert (M : 0 <= Z.max 5000 initialDelay) by lia.
  destruct (retryLoop_trace_cases k i last w) as [->|(c & e & w1 & L & ->)].
  - unfold totalWait. simpl.
    assert (2 ^ Z.of_nat i <= 2 ^ Z.of_nat (pred maxRetries))
      by (apply Z.pow_le_mono_r; lia).
    nia.
  - specialize (IH (S i) e w1 D).
    destruct IH as [I1 I2]; [lia|lia|].
    pose proof (retryDelay_bounds c i D) as [R1 R2].
    unfold totalWait in *. simpl.
    replace (2 ^ Z.of_nat (S i)) with (2 * 2 ^ Z.of_nat i) in I2
      by (rewrite Nat2Z.inj_succ, Z.pow_succ_r; lia).
    nia.
Qed.

End RetryTraceFacts.

(** X1.  Whatever the operation does, [retryOperation] invokes it at most
    [maxRetries] times, at least once when [maxRetries] is positive, and
    waits exactly once between two consecutive invocations: the number of
    waits is the number of invocations less one. *)
Theorem retryOperation_attempts_bounded {P : Platform} {T : Type}
    (operation : World -> outcome T * World) (maxRetries : nat)
    (initialDelay : Z) (w : World) :
  let tr := traceOf (retryOperation operation maxRetries initialDelay w) in
  (Nat.min 1 maxRetries <= invocations tr <= maxRetries)%nat /\
  length (waits tr) = pred (invocations tr).
Proof.
  unfold retryOperation. destruct maxRetries as [|n].
  - simpl. split; lia.
  - pose proof (retryLoop_attempts operation (S n) initialDelay (S n) O
                  (Prim VUndefined) w) as H.
    destruct H as [[I1 I2] W]; [lia|lia|].
    cbv zeta. split; [|exact W]. simpl Nat.min. lia.
Qed.

(** X2.  With a delay that is not negative, the time [retryOperation]
    spends in backoff waits is at most
    [max (5000, initialDelay) * (2 ^ (maxRetries - 1) - 1)] ms, whatever the
    operation does; with the defaults, 15 seconds. *)
Theorem retryOperation_backoff_bounded {P : Platform} {T : Type}
    (operation : World -> outcome T * World) (maxRetries : nat)
    (initialDelay : Z) (w : World) :
  0 <= initialDelay ->
  0 <= totalWait (traceOf (retryOperation operation maxRetries initialDelay w))
  <= Z.max 5000 initialDelay * (2 ^ Z.of_nat (pred maxRetries) - 1).
Proof.
  intros D. unfold retryOperation. destruct maxRetries as [|n].
  - unfold totalWait. simpl. lia.
  - pose proof (retryLoop_totalWait operation (S n) initialDelay (S n) O
                  (Prim VUndefined) w D) as H.
    cbv zeta in H. change (2 ^ Z.of_nat 0) with 1 in H.
    apply H; lia.
Qed.

Lemma retryOperation_backoff_bounded_witness :
  0 <= totalWait (traceOf (retryOperation (callModel MarketPrompt) defaultMaxRetries
                                          defaultInitialDelay exhaustedWorld))
  <= 15000.
Proof.
  apply (@retryOperation_backoff_bounded (scriptedPlatform "key") (option string)
           (callModel MarketPrompt) defaultMaxRetries defaultInitialDelay
           exhaustedWorld).
  unfold defaultInitialDelay. lia.
Defined.

(** X3.  When the operation fails some number of times below
    [maxRetries], every time with a failure classified as a quota or a
    server failure, and then succeeds, [retryOperation] returns that
    result and leaves the world of that invocation; it has invoked the
    operation once more than it failed and has waited, between the
    invocations, the delays the failures asked for. *)
Theorem retryOperation_recovers {P : Platform} {T : Type}
    (operation : World -> outcome T * World) (maxRetries : nat)
    (initialDelay : Z) (w w1 w2 : World) (ds : list Z) (v : T) :
  retryableFailures operation initialDelay 0 w ds w1 ->
  operation w1 = (Return v, w2) ->
  (length ds < maxRetries)%nat ->
  retryOperation operation maxRetries initialDelay w
  = (Return v, w2, retryTrace ds) /\
  invocations (retryTrace ds) = S (length ds) /\
  waits (retryTrace ds) = ds.
Proof.
  intros F O L. split.
  - unfold retryOperation.
    apply (retryLoop_failures_then_success operation maxRetries initialDelay
             0 w ds w1 v w2 F O); simpl; lia.
  - clear. unfold retryTrace. simpl.
    induction ds as [|d ds [I W]]; [split; reflexivity|].
    simpl. rewrite I, W. split; reflexivity.
Qed.

Lemma retryOperation_recovers_witness :
  resultOf (retryOperation (callModel MarketPrompt) defaultMaxRetries
                           defaultInitialDelay quotaWorld)
  = Return (Some "ok") /\
  traceOf (retryOperation (callModel MarketPrompt) defaultMaxRetries
                          defaultInitialDelay quotaWorld)
  = retryTrace (5000 :: 10000 :: nil).
Proof.
  edestruct (@retryOperation_recovers (scriptedPlatform "key") (option string)
               (callModel MarketPrompt) defaultMaxRetries defaultInitialDelay
               quotaWorld) as (R & _ & _).
  - eapply (failures_more _ _ 0%nat).
    + eexists _, _. split; [reflexivity|]. split; reflexivity.
    + reflexivity.
    + eapply (failures_more _ _ 1%nat).
      * eexists _, _. split; [reflexivity|]. split; reflexivity.
      * reflexivity.
      * apply failures_none.
  - reflexivity.
  - unfold defaultMaxRetries. simpl. lia.
  - rewrite R. split; reflexivity.
Defined.

(** X4.  After any number of failures classified as quota or server
    failures, a further failure is thrown to the caller, with no wait after
    it, when it is classified as neither, or when it is the failure of the
    last of the [maxRetries] invocations; what is thrown is the value this
    last invocation rejected with. *)
Theorem retryOperation_gives_up {P : Platform} {T : Type}
    (operation : World -> outcome T * World) (maxRetries : nat)
    (initialDelay : Z) (w w1 w2 : World) (ds : list Z) (e : thrown)
    (c : Classification) :
  retryableFailures operation initialDelay 0 w ds w1 ->
  failsClassified operation w1 e c w2 ->
  (length ds < maxRetries)%nat ->
  isQuota c || isServer c = false \/ S (length ds) = maxRetries ->
  retryOperation operation maxRetries initialDelay w
  = (Throw e, w2, retryTrace ds).
Proof.
  intros F C L G. unfold retryOperation.
  apply (retryLoop_failures_then_failure operation maxRetries initialDelay
           0 w ds w1 e c w2 F C); simpl; try lia.
  destruct G as [->|G]; [reflexivity|].
  apply andb_false_iff. right. apply Z.ltb_ge. lia.
Qed.

Lemma retryOperation_gives_up_witness :
  resultOf (retryOperation (callModel MarketPrompt) defaultMaxRetries
                           defaultInitialDelay exhaustedWorld)
  = Throw (Ref 2) /\
  traceOf (retryOperation (callModel MarketPrompt) defaultMaxRetries
                          defaultInitialDelay exhaustedWorld)
  = retryTrace (5000 :: 10000 :: nil).
Proof.
  eassert (H : _).
  { eapply (@retryOperation_gives_up (scriptedPlatform "key") (option string)
              (callModel MarketPrompt) defaultMaxRetries defaultInitialDelay
              exhaustedWorld).
    - eapply (failures_more _ _ 0%nat).
      + eexists _, _. split; [reflexivity|]. split; reflexivity.
      + reflexivity.
      + eapply (failures_more _ _ 1%nat).
        * eexists _, _. split; [reflexivity|]. split; reflexivity.
        * reflexivity.
        * apply failures_none.
    - eexists _, _. split; [reflexivity|]. split; reflexivity.
    - unfold defaultMaxRetries. simpl. lia.
    - right. reflexivity. }
  rewrite H. split; reflexivity.
Defined.

(** X5.  A failure that the catch block cannot read, a thrown [undefined]
    or [null] or one whose truthy [message] is not a string, is never
    retried and never thrown on: after this one invocation, and without a
    wait, [retryOperation] throws a new TypeError in its place, however
    many attempts are left. *)
Theorem retryOperation_unreadable_failure {P : Platform} {T : Type}
    (operation : World -> outcome T * World) (maxRetries : nat)
    (initialDelay : Z) (w wf : World) (e : thrown) :
  operation w = (Throw e, wf) ->
  unreadableFailure (heap wf) e = true ->
  exists expr,
    retryOperation operation (S maxRetries) initialDelay w
    = (Throw (Ref (length (heap wf))),
       setHeap (heap wf ++ newTypeError expr :: nil)%list wf,
       Invoked :: nil).
Proof.
  intros O U. unfold retryOperation. cbn [retryLoop].
  unfold tryCatch, invoke. rewrite O.
  assert (C : exists expr, classifyFailure (heap wf) e = inr expr).
  { unfold classifyFailure, unreadableFailure in *.
    destruct (readProp (heap wf) e "message") as [m|].
    - apply andb_prop in U as [U1 U2].
      destruct (readProp (heap wf) e "status"), (readProp (heap wf) e "code");
        eauto.
      unfold orElse. rewrite U1. destruct m; try discriminate; eauto.
    - destruct (readProp (heap wf) e "status"), (readProp (heap wf) e "code");
        eauto. }
  destruct C as [expr C]. exists expr. rewrite C. reflexivity.
Qed.

Lemma retryOperation_unreadable_failure_witness :
  exists expr,
    retryOperation (callModel MarketPrompt) defaultMaxRetries defaultInitialDelay
                   nullishWorld
    = (Throw (Ref 0),
       setHeap (@newTypeError (scriptedPlatform "key") expr :: nil)
               (snd (callModel MarketPrompt nullishWorld)),
       Invoked :: nil).
Proof.
  apply (@retryOperation_unreadable_failure (scriptedPlatform "key") (option string)
           (callModel MarketPrompt) 2 defaultInitialDelay nullishWorld
           (snd (callModel MarketPrompt nullishWorld)) (Prim VUndefined));
    reflexivity.
Defined.

(** ** The rows of the error normalizer *)

Section NormalizerRowFacts.

Context {P : Platform}.

(** A failure with a text for a message, without a nested payload and
    without the descriptor shape, is answered with a new descriptor: the
    row that the table selects, and the message for its details. *)
Lemma handleApiError_plain (error : thrown) (w : World) (m : string) :
  readProp (heap w) error "message" = Some (VStr m) ->
  nestedError (VStr m) = None ->
  isDescriptor (heap w) error = false ->
  handleApiError error w
  = let status :=
      orElse (default VUndefined (readProp (heap w) error "status"))
             (default VUndefined (readProp (heap w) error "code")) in
    let '(title, message, isRetryable) :=
      classifyTable status (toLowerCase m) (instanceofSyntaxError (heap w) error) in
    (Ref (List.length (heap w)),
     setHeap (heap w ++
              descriptor title message
                (Some (orElse (VStr m) (VStr (String_ (heap w) error))))
                isRetryable :: nil)%list w).
Proof.
  intros Hm Hn Hd. unfold handleApiError.
  assert (U : unwrapForNormalize (heap w) error = heap w).
  { unfold unwrapForNormalize. rewrite Hm, Hn. reflexivity. }
  rewrite U. unfold readFailure. rewrite Hm.
  assert (L : orElse (VStr m) (VStr EmptyString) = VStr m).
  { unfold orElse. destruct m; reflexivity. }
  rewrite L. unfold isDescriptor in Hd. rewrite Hm in Hd.
  simpl default at 3. rewrite Hd. reflexivity.
Qed.

(** The table on a message without a transport keyword. *)
Lemma classifyTable_by_status (st : value) (m : string) (syn : bool) :
  mentionsTransport m = false ->
  fst (fst (classifyTable st m syn)) =
    (if isNumber st 400 then "Invalid Request"
     else if isNumber st 401 then "Authentication Error"
     else if isNumber st 403 then "Permission Denied"
     else if isNumber st 404 then "Resource Not Found"
     else if isNumber st 429 then "Rate Limit Exceeded"
     else if isNumber st 500 then "Server Error"
     else if isNumber st 503 then "Service Overloaded"
     else if syn || includes "json" m || includes "parse" m
          then "Data Parsing Error"
     else "Analysis Failed") /\
  snd (classifyTable st m syn) =
    negb (isNumber st 400 || isNumber st 401 || isNumber st 403 || isNumber st 404).
Proof.
  unfold mentionsTransport, transportKeywords. simpl existsb. intros H.
  repeat (apply orb_false_elim in H as [? H]).
  unfold classifyTable.
  repeat match goal with E : includes _ m = false |- _ => rewrite E; clear E end.
  rewrite !orb_false_r.
  destruct (isNumber st 400); [split; reflexivity|].
  destruct (isNumber st 401); [split; reflexivity|].
  destruct (isNumber st 403); [split; reflexivity|].
  destruct (isNumber st 404); [split; reflexivity|].
  destruct (isNumber st 429); [split; reflexivity|].
  destruct (isNumber st 500); [split; reflexivity|].
  destruct (isNumber st 503); [split; reflexivity|].
  destruct (syn || includes "json" m || includes "parse" m); split; reflexivity.
Qed.

End NormalizerRowFacts.

(** X6.  For a failure whose message is a text that names no transport
    keyword and carries no nested payload, and that has not the descriptor
    shape, the status alone selects the row of [handleApiError]: 400, 401,
    403 and 404 give the four descriptors that are not retryable, 429, 500
    and 503 the three retryable ones, and any other status a retryable
    parsing or general failure.  The descriptor is a new object, and its
    details are the message of the failure, or [String(error)] when that
    message is empty. *)
Theorem handleApiError_status_decides {P : Platform} (error : thrown)
    (w : World) (m : string) :
  readProp (heap w) error "message" = Some (VStr m) ->
  nestedError (VStr m) = None ->
  isDescriptor (heap w) error = false ->
  mentionsTransport (toLowerCase m) = false ->
  let st :=
    orElse (default VUndefined (readProp (heap w) error "status"))
           (default VUndefined (readProp (heap w) error "code")) in
  let title :=
    if isNumber st 400 then "Invalid Request"
    else if isNumber st 401 then "Authentication Error"
    else if isNumber st 403 then "Permission Denied"
    else if isNumber st 404 then "Resource Not Found"
    else if isNumber st 429 then "Rate Limit Exceeded"
    else if isNumber st 500 then "Server Error"
    else if isNumber st 503 then "Service Overloaded"
    else if instanceofSyntaxError (heap w) error ||
            includes "json" (toLowerCase m) || includes "parse" (toLowerCase m)
         then "Data Parsing Error"
    else "Analysis Failed" in
  let isRetryable :=
    negb (isNumber st 400 || isNumber st 401 || isNumber st 403 || isNumber st 404) in
  let details :=
    if isEmpty m then VStr (String_ (heap w) error) else VStr m in
  exists message,
    handleApiError error w
    = (Ref (List.length (heap w)),
       setHeap (heap w ++
                descriptor title message (Some details) isRetryable :: nil)%list w).
Proof.
  intros Hm Hn Hd Ht st title isRetryable details.
  rewrite (handleApiError_plain error w m Hm Hn Hd). cbv zeta. fold st.
  pose proof (classifyTable_by_status st (toLowerCase m)
                (instanceofSyntaxError (heap w) error) Ht) as [T R].
  destruct (classifyTable st (toLowerCase m) (instanceofSyntaxError (heap w) error))
    as [[title' message] r].
  simpl in T, R. subst title' r. exists message.
  replace (orElse (VStr m) (VStr (String_ (heap w) error))) with details; [reflexivity|].
  subst details. unfold orElse. simpl. destruct (isEmpty m); reflexivity.
Qed.

Lemma handleApiError_status_decides_witness :
  exists message,
    handleApiError (Ref 0) heldBadRequestWorld
    = (Ref 1,
       setHeap (plainBadRequest ::
                descriptor "Invalid Request" message (Some (VStr "Bad Request")) false
                :: nil)
               heldBadRequestWorld).
Proof.
  apply (@handleApiError_status_decides (scriptedPlatform "key") (Ref 0)
           heldBadRequestWorld "Bad Request"); reflexivity.
Defined.

(** X7.  The first row of the table wins over every status.  Take a
    failure that has not the descriptor shape already and whose message is
    a text without a nested JSON error payload.  When the message mentions
    the network or a failed fetch, in any letter case, the failure is
    answered with the retryable descriptor of a connection error, also when
    its status is 400, 401, 403 or 404. *)
Theorem handleApiError_network_first {P : Platform} (error : thrown)
    (w : World) (m : string) :
  readProp (heap w) error "message" = Some (VStr m) ->
  nestedError (VStr m) = None ->
  isDescriptor (heap w) error = false ->
  includes "network" (toLowerCase m) || includes "failed to fetch" (toLowerCase m)
  = true ->
  handleApiError error w
  = (Ref (List.length (heap w)),
     setHeap (heap w ++
              descriptor "Network Connection Error"
                "Unable to connect to the server. Please check your internet connection or try again later."
                (Some (VStr m)) true :: nil)%list w).
Proof.
  intros Hm Hn Hd Hk.
  rewrite (handleApiError_plain error w m Hm Hn Hd). cbv zeta.
  unfold classifyTable.
  assert (K : includes "failed to fetch" (toLowerCase m) ||
              includes "networkerror" (toLowerCase m) ||
              includes "network" (toLowerCase m) = true).
  { apply orb_true_iff in Hk as [Hk|Hk]; rewrite Hk;
      rewrite ?orb_true_r; reflexivity. }
  rewrite K.
  assert (E : isEmpty m = false).
  { destruct m; [|reflexivity]. simpl in Hk. discriminate. }
  unfold orElse. simpl truthy. rewrite E. reflexivity.
Qed.

Lemma handleApiError_network_first_witness :
  handleApiError (Ref 0) heldNetworkFailureWorld
  = (Ref 1,
     setHeap (networkFailure ::
              descriptor "Network Connection Error"
                "Unable to connect to the server. Please check your internet connection or try again later."
                (Some (VStr "Network unreachable")) true :: nil)
             heldNetworkFailureWorld).
Proof.
  apply (@handleApiError_network_first (scriptedPlatform "key") (Ref 0)
           heldNetworkFailureWorld "Network unreachable"); reflexivity.
Defined.

(** ** What the error normalizer leaves alone *)

Section NormalizerFrameFacts.

Context {P : Platform}.

Lemma writeProp_length (h h' : list object) (e : thrown) (k : string) (v : value) :
  writeProp h e k v = Some h' -> List.length h' = List.length h.
Proof.
  destruct e as [u|l]; unfold writeProp; [discriminate|].
  intros [= <-]. apply length_alter.
Qed.

(** The unwrapping block writes to the error only, and there to [status]
    and [message] only. *)
Lemma unwrapForNormalize_frame (h : list object) (error : thrown) :
  List.length (unwrapForNormalize h error) = List.length h /\
  (forall l, error <> Ref l -> unwrapForNormalize h error !! l = h !! l) /\
  (forall k, k <> "status" -> k <> "message" ->
     readProp (unwrapForNormalize h error) error k = readProp h error k).
Proof.
  unfold unwrapForNormalize.
  destruct (readProp h error "message") as [m|]; [|repeat split; reflexivity].
  destruct (nestedError m) as [perr|]; [|repeat split; reflexivity].
  set (pcode := default VUndefined (getProp perr "code")).
  set (pmsg := default VUndefined (getProp perr "message")).
  assert (S1 : forall h1,
    (if truthy pcode then writeProp h error "status" pcode else Some h) = Some h1 ->
    List.length h1 = List.length h /\
    (forall l, error <> Ref l -> h1 !! l = h !! l) /\
    (forall k, k <> "status" -> k <> "message" ->
       readProp h1 error k = readProp h error k)).
  { intros h1. destruct (truthy pcode).
    - intros W. split; [exact (writeProp_length _ _ _ _ _ W)|]. split.
      + intros l N. exact (writeProp_elsewhere _ _ _ _ _ _ W N).
      + intros k N1 _. exact (readProp_writeProp_other _ _ _ _ _ _ W N1).
    - intros [= <-]. repeat split; reflexivity. }
  destruct (if truthy pcode then writeProp h error "status" pcode else Some h)
    as [h1|]; [|repeat split; reflexivity].
  destruct (S1 h1 eq_refl) as (L1 & E1 & K1).
  destruct (truthy pmsg); [|repeat split; assumption].
  destruct (writeProp h1 error "message" pmsg) as [h2|] eqn:W2;
    simpl; [|repeat split; assumption].
  split; [rewrite (writeProp_length _ _ _ _ _ W2); exact L1|]. split.
  - intros l N. rewrite (writeProp_elsewhere _ _ _ _ _ _ W2 N). exact (E1 l N).
  - intros k N1 N2. rewrite (readProp_writeProp_other _ _ _ _ _ _ W2 N2).
    exact (K1 k N1 N2).
Qed.

End NormalizerFrameFacts.

(** X8.  [handleApiError] throws the error it was given or an object it
    has just created; it leaves the caches, the persisted slots and the
    outside world alone; it adds at most one object to the store and
    changes no object other than the error; and of the error it changes no
    property other than [status] and [message]. *)
Theorem handleApiError_frame {P : Platform} (error : thrown) (w : World) :
  let t := fst (handleApiError error w) in
  let w' := snd (handleApiError error w) in
  (t = error \/ t = Ref (List.length (heap w))) /\
  caches w' = caches w /\
  ext w' = ext w /\
  (List.length (heap w) <= List.length (heap w') <= S (List.length (heap w)))%nat /\
  (forall l o, error <> Ref l -> heap w !! l = Some o -> heap w' !! l = Some o) /\
  (forall k, k <> "status" -> k <> "message" ->
     match error with
     | Ref l => (l < List.length (heap w))%nat
     | Prim _ => True
     end ->
     readProp (heap w') error k = readProp (heap w) error k).
Proof.
  cbv zeta. unfold handleApiError.
  destruct (unwrapForNormalize_frame (heap w) error) as (L & E & K).
  set (h := unwrapForNormalize (heap w) error) in *.
  assert (G : forall o,
    (List.length (heap w) <= List.length (h ++ o :: nil)%list <= S (List.length (heap w)))%nat /\
    (forall l o', error <> Ref l -> heap w !! l = Some o' ->
                  (h ++ o :: nil)%list !! l = Some o') /\
    (forall k, k <> "status" -> k <> "message" ->
       match error with
       | Ref l => (l < List.length (heap w))%nat
       | Prim _ => True
       end ->
       readProp (h ++ o :: nil)%list error k = readProp (heap w) error k)).
  { intros o. rewrite length_app, L. simpl. split; [lia|]. split.
    - intros l o' N Hl. apply lookup_app_l_Some. rewrite (E l N). exact Hl.
    - intros k N1 N2 B. rewrite <- (K k N1 N2).
      destruct error as [v|l]; [reflexivity|].
      unfold readProp. rewrite lookup_app_l by (rewrite L; exact B).
      reflexivity. }
  destruct (readFailure h error) as [[[details st] m]|expr].
  - destruct (descriptorShaped _ _ _).
    + simpl. split; [left; reflexivity|]. split; [reflexivity|].
      split; [reflexivity|]. split; [rewrite L; lia|]. split.
      * intros l o N Hl. rewrite (E l N). exact Hl.
      * intros k N1 N2 _. exact (K k N1 N2).
    + destruct (classifyTable st m (instanceofSyntaxError h error))
        as [[title message] r].
      simpl. split; [right; rewrite L; reflexivity|]. split; [reflexivity|].
      split; [reflexivity|]. apply G.
  - simpl. split; [right; rewrite L; reflexivity|]. split; [reflexivity|].
    split; [reflexivity|]. apply G.
Qed.

(** ** What crosses the boundary of the module *)

Section SurfacedFacts.

Context {P : Platform}.















End SurfacedFacts.




(** The first exception is there on a platform whose model call may
    reject with anything.  It rejects with an object whose title is a
    number and whose retry flag is a string; [getMarketOverview] throws
    that object, which passes the test of [handleApiError] and is no
    [AnalysisError]. *)
Lemma model_rejection_thrown_on :
  fst (callModel MarketPrompt titledRejectionWorld) = Throw (Ref 0) /\
  resultOf (getMarketOverview false titledRejectionWorld) = Throw (Ref 0) /\
  heap (worldOf (getMarketOverview false titledRejectionWorld))
  = titledRejection :: nil /\
  isDescriptor (heap (worldOf (getMarketOverview false titledRejectionWorld)))
               (Ref 0) = true /\
  isErrorDescriptor (heap (worldOf (getMarketOverview false titledRejectionWorld)))
                    (Ref 0) = false.
Proof. repeat split; vm_compute; reflexivity. Qed.

(** ** Calls that fail *)

Section ThrowFacts.

Context {P : Platform} {X : Type}.
Variable proj : World -> X.
Hypothesis proj_heap : forall h w, proj (setHeap h w) = proj w.
Hypothesis proj_ext : forall e w, proj (setExt e w) = proj w.

Lemma keepsOnThrow_preserves {A} (c : M A) :
  preserves proj c -> keepsOnThrow proj c.
Proof.
  intros K w w' t tr H. specialize (K w). rewrite H in K. exact K.
Qed.

Lemma keepsOnThrow_returns {A} (c : M A) :
  (forall w, exists a, resultOf (c w) = Return a) -> keepsOnThrow proj c.
Proof.
  intros R w w' t tr H. destruct (R w) as [a Ra]. rewrite H in Ra. discriminate.
Qed.

Lemma keepsOnThrow_bind {A B} (c : M A) (k : A -> M B) :
  preserves proj c -> (forall a, keepsOnThrow proj (k a)) ->
  keepsOnThrow proj (bind c k).
Proof.
  intros Kc Kk w w' t tr H.
  apply bind_Throw_inv in H as [[tr1 H] | (a & w1 & tr1 & tr2 & H1 & H2)].
  - specialize (Kc w). rewrite H in Kc. exact Kc.
  - specialize (Kc w). rewrite H1 in Kc. unfold worldOf in Kc. simpl in Kc.
    rewrite <- Kc. exact (Kk a w1 w' t tr2 H2).
Qed.

Lemma keepsOnThrow_if {A} (b : bool) (c1 c2 : M A) :
  keepsOnThrow proj c1 -> keepsOnThrow proj c2 ->
  keepsOnThrow proj (if b then c1 else c2).
Proof. destruct b; auto. Qed.

Lemma keepsOnThrow_rethrow {A} (c : M A) :
  keepsOnThrow proj c -> keepsOnThrow proj (tryCatch c rethrowNormalized).
Proof.
  intros K w w' t tr. unfold tryCatch.
  destruct (c w) as [[[a|raw] w1] tr1] eqn:E; [discriminate|].
  pose proof (keeps_rethrowNormalized proj proj_heap (A := A) raw w1) as R.
  unfold worldOf in R.
  destruct (rethrowNormalized raw w1) as [[r2 w2] tr2].
  intros [= _ <- _]. simpl in R. rewrite R. exact (K w w1 raw tr1 E).
Qed.

Lemma preserves_retried_model (req : request) :
  preserves proj (retryOperation (callModel req) defaultMaxRetries
                                 defaultInitialDelay).
Proof.
  apply keeps_retryOperation; [exact proj_heap|].
  apply keepsOp_callModel; assumption.
Qed.

End ThrowFacts.

Section FailedFetchFacts.

Context {P : Platform}.

Lemma caches_setHeap (h : list object) (w : World) : caches (setHeap h w) = caches w.
Proof. reflexivity. Qed.

Lemma caches_setExt (e : External) (w : World) : caches (setExt e w) = caches w.
Proof. reflexivity. Qed.

Lemma fetchMarketOverview_throw : keepsOnThrow caches fetchMarketOverview.
Proof.
  unfold fetchMarketOverview.
  apply keepsOnThrow_rethrow; [exact caches_setHeap|].
  apply keepsOnThrow_bind;
    [apply preserves_retried_model; [exact caches_setHeap|exact caches_setExt]|].
  intros response. cbv zeta.
  apply keepsOnThrow_if;
    [apply keepsOnThrow_preserves, keeps_throwNew, caches_setHeap|].
  apply keepsOnThrow_bind; [apply keeps_parseBraced, caches_setHeap|].
  intros d. apply keepsOnThrow_returns. intros w. exists d. reflexivity.
Qed.

Lemma fetchIPOListFresh_throw : keepsOnThrow caches fetchIPOListFresh.
Proof.
  unfold fetchIPOListFresh.
  apply keepsOnThrow_rethrow; [exact caches_setHeap|].
  apply keepsOnThrow_bind;
    [apply preserves_retried_model; [exact caches_setHeap|exact caches_setExt]|].
  intros response. cbv zeta.
  apply keepsOnThrow_bind; [apply keeps_parseBraced, caches_setHeap|].
  intros json.
  apply keepsOnThrow_bind; [apply keeps_member, caches_setHeap|].
  intros items. apply keepsOnThrow_returns. intros w. exists items. reflexivity.
Qed.

Lemma fetchScreener_throw_caches (q k : string) :
  keepsOnThrow caches (fetchScreener q k).
Proof.
  unfold fetchScreener.
  apply keepsOnThrow_rethrow; [exact caches_setHeap|].
  apply keepsOnThrow_bind;
    [apply preserves_retried_model; [exact caches_setHeap|exact caches_setExt]|].
  intros response. cbv zeta.
  apply keepsOnThrow_bind; [apply keeps_parseBraced, caches_setHeap|].
  intros json.
  apply keepsOnThrow_bind; [apply keeps_member, caches_setHeap|].
  intros items. apply keepsOnThrow_returns. intros w. exists items. reflexivity.
Qed.

Lemma getMarketOverview_throw (b : bool) :
  keepsOnThrow caches (getMarketOverview b).
Proof.
  unfold getMarketOverview.
  apply keepsOnThrow_if;
    [apply keepsOnThrow_preserves, keeps_throwNew, caches_setHeap|].
  intros w w' t tr. unfold bind, dateNow, getWorld. simpl.
  pose proof (fetchMarketOverview_throw w w' t) as F.
  destruct (marketCache w) as [c|].
  - destruct (negb b && _); [discriminate|].
    destruct (fetchMarketOverview w) as [[r w1] tr1].
    intros [= -> -> _]. exact (F tr1 eq_refl).
  - destruct (fetchMarketOverview w) as [[r w1] tr1].
    intros [= -> -> _]. exact (F tr1 eq_refl).
Qed.

Lemma fetchIPOList_throw (b : bool) : keepsOnThrow caches (fetchIPOList b).
Proof.
  unfold fetchIPOList.
  apply keepsOnThrow_if;
    [apply keepsOnThrow_preserves, keeps_throwNew, caches_setHeap|].
  intros w w' t tr. unfold bind, dateNow, getWorld. simpl.
  pose proof (fetchIPOListFresh_throw w w' t) as F.
  destruct (ipoListCache w) as [c|].
  - destruct (negb b && _); [discriminate|].
    destruct (fetchIPOListFresh w) as [[r w1] tr1].
    intros [= -> -> _]. exact (F tr1 eq_refl).
  - destruct (fetchIPOListFresh w) as [[r w1] tr1].
    intros [= -> -> _]. exact (F tr1 eq_refl).
Qed.

Lemma screenStocks_throw (q : string) (b : bool) :
  keepsOnThrow caches (screenStocks q b).
Proof.
  unfold screenStocks.
  apply keepsOnThrow_if;
    [apply keepsOnThrow_preserves, keeps_throwNew, caches_setHeap|].
  intros w w' t tr. unfold bind, dateNow, getWorld. simpl.
  pose proof (fetchScreener_throw_caches q (getCacheKey q) w w' t) as F.
  destruct (screenerCache w !! getCacheKey q) as [c|].
  - destruct (negb b && _); [discriminate|].
    destruct (fetchScreener q (getCacheKey q) w) as [[r w1] tr1].
    intros [= -> -> _]. exact (F tr1 eq_refl).
  - destruct (fetchScreener q (getCacheKey q) w) as [[r w1] tr1].
    intros [= -> -> _]. exact (F tr1 eq_refl).
Qed.

End FailedFetchFacts.

(** X9.  A call of a report function that throws has left every cache as
    it found it, the three in memory, the last screener query and the
    persisted slots: all writes to them come after everything that can
    throw, so a failed refresh never costs the entry that was there. *)
Theorem failed_report_keeps_caches {P : Platform} (c : reportCall)
    (w w' : World) (t : thrown) (tr : list event) :
  runReport c w = (Throw t, w', tr) -> caches w' = caches w.
Proof.
  destruct c as [params|b|q b|b|n]; simpl; intros H.
  - pose proof (preserves_generateAnalysis caches caches_setHeap caches_setExt
                  params w) as K.
    rewrite H in K. exact K.
  - exact (getMarketOverview_throw b w w' t tr H).
  - exact (screenStocks_throw q b w w' t tr H).
  - exact (fetchIPOList_throw b w w' t tr H).
  - pose proof (preserves_generateIPOReport caches caches_setHeap caches_setExt
                  n w) as K.
    rewrite H in K. exact K.
Qed.

Lemma failed_report_keeps_caches_witness :
  marketCache (worldOf (getMarketOverview true failingRefreshWorld))
  = Some sampleEntry.
Proof.
  pose proof (@failed_report_keeps_caches (scriptedPlatform "key")
                (MarketCall true) failingRefreshWorld
                (worldOf (getMarketOverview true failingRefreshWorld))
                (Ref 1) (Invoked :: nil) eq_refl) as H.
  apply (f_equal (fun x => fst (fst (fst (fst x))))) in H. exact H.
Defined.

(** ** The report functions without a credential *)

(** X10.  Without an API key each of the five report functions throws a
    new descriptor titled [Missing API Key] that is not retryable and has
    no details; it has not invoked the model, has not waited, and has left
    the outside world, the caches and every object of the store as they
    were. *)
Theorem missing_key_fails_fast {P : Platform} (c : reportCall) (w : World) :
  isEmpty apiKey = true ->
  runReport c w
  = (Throw (Ref (List.length (heap w))),
     setHeap (heap w ++ missingApiKey :: nil)%list w, nil) /\
  readProp (heap w ++ missingApiKey :: nil)%list (Ref (List.length (heap w))) "title"
  = Some (VStr "Missing API Key") /\
  readProp (heap w ++ missingApiKey :: nil)%list (Ref (List.length (heap w)))
           "isRetryable"
  = Some (VBool false) /\
  readProp (heap w ++ missingApiKey :: nil)%list (Ref (List.length (heap w)))
           "details"
  = Some VUndefined.
Proof.
  intros K. split.
  - destruct c; simpl;
      unfold generateAnalysis, getMarketOverview, screenStocks, fetchIPOList,
             generateIPOReport;
      rewrite K; reflexivity.
  - rewrite !readProp_fresh. repeat split; reflexivity.
Qed.

Lemma missing_key_fails_fast_witness :
  runReport (ScreenerCall "banks" false) keylessWorld
  = (Throw (Ref 0), setHeap (missingApiKey :: nil) keylessWorld, nil).
Proof.
  apply (@missing_key_fails_fast (scriptedPlatform EmptyString)
           (ScreenerCall "banks" false) keylessWorld eq_refl).
Defined.

(** ** What a refresh writes *)

Section RefreshFacts.

Context {P : Platform}.

(** The slots after [saveCache] has been asked to store [entry] under
    [key] with the outside world [e]. *)
Lemma saveCache_slots (key : string) (d : value) (ts : Z) (w : World) :
  localStorage (worldOf (saveCache key d ts w))
  = match localStorage w with
    | None => None
    | Some slots =>
        if setItemThrows (ext w) then Some slots
        else Some (<[key := {| data := d; timestamp := ts |}]> slots)
    end.
Proof.
  unfold saveCache, modify, worldOf. simpl.
  destruct (localStorage w) as [slots|] eqn:E; [|exact E].
  destruct (setItemThrows (ext w)); [exact E | reflexivity].
Qed.

Lemma fetchMarketOverview_writes (w w' : World) (d : value) (tr : list event) :
  fetchMarketOverview w = (Return d, w', tr) ->
  caches w'
  = (Some {| data := d; timestamp := Date_now (ext w') |},
     screenerCache w, lastScreenerQuery w, ipoListCache w,
     match localStorage w with
     | None => None
     | Some slots =>
         if setItemThrows (ext w') then Some slots
         else Some (<[STORAGE_MARKET :=
                        {| data := d; timestamp := Date_now_again (ext w') |}]>
                      slots)
     end).
Proof.
  unfold fetchMarketOverview. intros H.
  apply tryCatch_rethrow_Return_inv in H.
  apply bind_Return_inv in H as (response & w1 & tr1 & tr2 & H0 & H & _).
  apply (preserves_run caches _ _ _ _ _
           (preserves_retried_model caches caches_setHeap caches_setExt _)) in H0.
  cbv zeta in H. destruct (isEmpty (default EmptyString response)); [discriminate|].
  apply bind_Return_inv in H as (d0 & w2 & ? & ? & Hp & H & _).
  apply (preserves_run caches _ _ _ _ _
           (keeps_parseBraced caches caches_setHeap _ _)) in Hp.
  rewrite H0 in Hp. clear H0.
  apply bind_Return_inv in H as (t1 & w3 & ? & ? & H1 & H & _).
  apply bind_Return_inv in H as (u & w4 & ? & ? & H2 & H & _).
  apply bind_Return_inv in H as (t2 & w5 & ? & ? & H3 & H & _).
  apply bind_Return_inv in H as (u' & w6 & ? & ? & H4 & H & _).
  unfold ret in H. injection H as -> -> _.
  unfold dateNow in H1. unfold dateNowAgain in H3. injection H1 as <- <- _. injection H3 as <- <- _.
  unfold modify in H2. injection H2 as _ <- _.
  unfold saveCache, modify in H4. injection H4 as _ <- _.
  unfold caches in *. injection Hp as E1 E2 E3 E4 E5. simpl.
  rewrite E5.
  destruct (localStorage w) as [slots|]; simpl;
    [destruct (setItemThrows (ext w2)) eqn:T; simpl; rewrite ?T|];
    rewrite E2, E3, E4, ?E5; reflexivity.
Qed.

Lemma fetchIPOListFresh_writes (w w' : World) (d : value) (tr : list event) :
  fetchIPOListFresh w = (Return d, w', tr) ->
  caches w'
  = (marketCache w, screenerCache w, lastScreenerQuery w,
     Some {| data := d; timestamp := Date_now (ext w') |},
     match localStorage w with
     | None => None
     | Some slots =>
         if setItemThrows (ext w') then Some slots
         else Some (<[STORAGE_IPO_LIST :=
                        {| data := d; timestamp := Date_now_again (ext w') |}]>
                      slots)
     end).
Proof.
  unfold fetchIPOListFresh. intros H.
  apply tryCatch_rethrow_Return_inv in H.
  apply bind_Return_inv in H as (response & w1 & tr1 & tr2 & H0 & H & _).
  apply (preserves_run caches _ _ _ _ _
           (preserves_retried_model caches caches_setHeap caches_setExt _)) in H0.
  cbv zeta in H.
  apply bind_Return_inv in H as (json & w2 & ? & ? & Hp & H & _).
  apply (preserves_run caches _ _ _ _ _
           (keeps_parseBraced caches caches_setHeap _ _)) in Hp.
  rewrite H0 in Hp. clear H0.
  apply bind_Return_inv in H as (items & w2' & ? & ? & Hm & H & _).
  apply (preserves_run caches _ _ _ _ _
           (keeps_member caches caches_setHeap _ _)) in Hm.
  rewrite Hp in Hm. clear Hp.
  apply bind_Return_inv in H as (t1 & w3 & ? & ? & H1 & H & _).
  apply bind_Return_inv in H as (u & w4 & ? & ? & H2 & H & _).
  apply bind_Return_inv in H as (t2 & w5 & ? & ? & H3 & H & _).
  apply bind_Return_inv in H as (u' & w6 & ? & ? & H4 & H & _).
  unfold ret in H. injection H as -> -> _.
  unfold dateNow in H1. unfold dateNowAgain in H3. injection H1 as <- <- _. injection H3 as <- <- _.
  unfold modify in H2. injection H2 as _ <- _.
  unfold saveCache, modify in H4. injection H4 as _ <- _.
  unfold caches in *. injection Hm as E1 E2 E3 E4 E5. simpl.
  rewrite E5.
  destruct (localStorage w) as [slots|]; simpl;
    [destruct (setItemThrows (ext w2')) eqn:T; simpl; rewrite ?T|];
    rewrite E1, E2, E3, ?E5; reflexivity.
Qed.

Lemma forced_call_fetches_market (w : World) :
  isEmpty apiKey = false ->
  getMarketOverview true w = fetchMarketOverview w.
Proof.
  intros K. apply (getMarketOverview_miss K). left. reflexivity.
Qed.

Lemma forced_call_fetches_ipos (w : World) :
  isEmpty apiKey = false ->
  fetchIPOList true w = fetchIPOListFresh w.
Proof.
  intros K. apply (fetchIPOList_miss K). left. reflexivity.
Qed.

End RefreshFacts.

(** X11.  A forced refresh of the market overview that succeeds puts what
    it returns into the memory cache, stamped with the time of that write,
    and leaves the other caches alone.  Where there is a window and
    [setItem] does not throw, an entry with the same data goes to the slot
    [equity_insight_market_v1], stamped with a second reading of the
    clock, which need not agree with the first, and the other slots stay;
    without a window, or when [setItem] throws, the slots stay as they
    were and the call succeeds all the same. *)
Theorem market_refresh_persists {P : Platform} (w w' : World) (d : value)
    (tr : list event) :
  getMarketOverview true w = (Return d, w', tr) ->
  marketCache w' = Some {| data := d; timestamp := Date_now (ext w') |} /\
  screenerCache w' = screenerCache w /\
  lastScreenerQuery w' = lastScreenerQuery w /\
  ipoListCache w' = ipoListCache w /\
  localStorage w'
  = match localStorage w with
    | None => None
    | Some slots =>
        if setItemThrows (ext w') then Some slots
        else Some (<[STORAGE_MARKET :=
                       {| data := d; timestamp := Date_now_again (ext w') |}]>
                     slots)
    end.
Proof.
  intros H.
  assert (K : isEmpty apiKey = false).
  { unfold getMarketOverview in H. destruct (isEmpty apiKey); [discriminate|].
    reflexivity. }
  rewrite (forced_call_fetches_market w K) in H.
  apply fetchMarketOverview_writes in H. unfold caches in H.
  injection H as -> -> -> -> ->. repeat split; reflexivity.
Qed.

Lemma market_refresh_persists_witness :
  marketCache (worldOf (getMarketOverview true marketAnswerWorld))
  = Some {| data := VObj nil; timestamp := 7000 |} /\
  localStorage (worldOf (getMarketOverview true marketAnswerWorld))
  = Some {[ STORAGE_MARKET := {| data := VObj nil; timestamp := 7001 |} ]}.
Proof.
  destruct (@market_refresh_persists (scriptedPlatform "key") marketAnswerWorld
              (worldOf (getMarketOverview true marketAnswerWorld)) (VObj nil)
              (Invoked :: nil) eq_refl) as (M & _ & _ & _ & L).
  rewrite M, L. split; reflexivity.
Defined.

(** X12.  A forced refresh of the IPO list that succeeds puts the list it
    returns into the memory cache, stamped with the time of that write, and
    leaves the other caches alone; an entry with the same list, stamped
    with a second reading of the clock, which need not agree with the
    first, goes to the slot [equity_insight_ipo_list_v1] where there is a
    window and [setItem] does not throw, and otherwise the slots stay as
    they were. *)
Theorem ipo_list_refresh_persists {P : Platform} (w w' : World) (d : value)
    (tr : list event) :
  fetchIPOList true w = (Return d, w', tr) ->
  ipoListCache w' = Some {| data := d; timestamp := Date_now (ext w') |} /\
  marketCache w' = marketCache w /\
  screenerCache w' = screenerCache w /\
  lastScreenerQuery w' = lastScreenerQuery w /\
  localStorage w'
  = match localStorage w with
    | None => None
    | Some slots =>
        if setItemThrows (ext w') then Some slots
        else Some (<[STORAGE_IPO_LIST :=
                       {| data := d; timestamp := Date_now_again (ext w') |}]>
                     slots)
    end.
Proof.
  intros H.
  assert (K : isEmpty apiKey = false).
  { unfold fetchIPOList in H. destruct (isEmpty apiKey); [discriminate|].
    reflexivity. }
  rewrite (forced_call_fetches_ipos w K) in H.
  apply fetchIPOListFresh_writes in H. unfold caches in H.
  injection H as -> -> -> -> ->. repeat split; reflexivity.
Qed.

Lemma ipo_list_refresh_persists_witness :
  ipoListCache (worldOf (fetchIPOList true ipoAnswerWorld))
  = Some {| data := VArr nil; timestamp := 7000 |} /\
  localStorage (worldOf (fetchIPOList true ipoAnswerWorld))
  = Some {[ STORAGE_IPO_LIST := {| data := VArr nil; timestamp := 7001 |} ]}.
Proof.
  destruct (@ipo_list_refresh_persists (scriptedPlatform "key") ipoAnswerWorld
              (worldOf (fetchIPOList true ipoAnswerWorld)) (VArr nil)
              (Invoked :: nil) eq_refl) as (M & _ & _ & _ & L).
  rewrite M, L. split; reflexivity.
Defined.

(** ** One screener entry for all spellings of a query *)

(** X13.  After a [screenStocks] call has returned, its result is in the
    screener map under the normalized query.  As long as that entry is
    younger than the TTL, a call that is not forced, with any query of the
    same normalized form, returns the same result without invoking the
    model, and [getScreenerState] then shows the query as it was typed the
    last time, with that result, or null when that query is empty. *)
Theorem screenStocks_served_across_spellings {P : Platform} (q1 q2 : string)
    (b : bool) (w w1 : World) (d : value) (tr : list event) :
  screenStocks q1 b w = (Return d, w1, tr) ->
  getCacheKey q2 = getCacheKey q1 ->
  exists c,
    screenerCache w1 !! getCacheKey q1 = Some c /\ data c = d /\
    forall e, Date_now e - timestamp c < SCREENER_CACHE_TTL ->
      screenStocks q2 false (setExt e w1)
      = (Return d, setLastScreenerQuery (Some q2) (setExt e w1), nil) /\
      getScreenerState (setLastScreenerQuery (Some q2) (setExt e w1))
      = if isEmpty q2 then None else Some (q2, d).
Proof.
  intros H E.
  assert (K : isEmpty apiKey = false).
  { unfold screenStocks in H. destruct (isEmpty apiKey); [discriminate|].
    reflexivity. }
  pose proof (screenStocks_outcome q1 b w) as O. rewrite H in O.
  unfold resultOf, worldOf in O. simpl in O.
  destruct O as (_ & c & C & D). exists c. split; [exact C|]. split; [exact D|].
  intros e A. split.
  - rewrite <- D. apply (screenStocks_hit K); [rewrite E; exact C | exact A].
  - unfold getScreenerState. simpl. rewrite E, C, D.
    destruct (isEmpty q2); reflexivity.
Qed.

Lemma screenStocks_served_across_spellings_witness :
  screenStocks "aapl  " false (worldOf (screenStocks " AAPL" false screenerWorld))
  = (Return (VArr nil),
     setLastScreenerQuery (Some "aapl  ")
                          (worldOf (screenStocks " AAPL" false screenerWorld)),
     nil).
Proof.
  destruct (@screenStocks_served_across_spellings (scriptedPlatform "key")
              " AAPL" "aapl  " false screenerWorld
              (worldOf (screenStocks " AAPL" false screenerWorld)) (VArr nil)
              (Invoked :: nil) eq_refl eq_refl) as (c & C & _ & S).
  assert (T : timestamp c = 0).
  { vm_compute in C. injection C as <-. reflexivity. }
  destruct (S (ext (worldOf (screenStocks " AAPL" false screenerWorld)))) as [R _].
  - rewrite T. reflexivity.
  - exact R.
Defined.

(** ** Extraction in [generateIPOReport] *)

Section IPOReportFacts.

Context {P : Platform}.

Lemma indexOfFrom_bound (c : ascii) (s : string) (i : Z) :
  indexOfFrom c s i = -1 \/ i <= indexOfFrom c s i < i + len s.
Proof.
  revert i. induction s as [|a r IH]; intros i; [left; reflexivity|].
  simpl. unfold len. simpl String.length. rewrite Nat2Z.inj_succ.
  destruct (Ascii.eqb a c); [right; lia|].
  destruct (IH (i + 1)) as [E|B]; [left; exact E|].
  right. unfold len in B. lia.
Qed.

Lemma indexOf_bound (c : ascii) (s : string) : indexOf c s < len s \/ len s = 0.
Proof.
  unfold indexOf. destruct (indexOfFrom_bound c s 0) as [E|B].
  - rewrite E. unfold len. lia.
  - left. lia.
Qed.

(** [substring] on two indices inside the string, in either order. *)
Lemma substring_either_order (a b : Z) (s : string) :
  0 <= a <= len s -> 0 <= b <= len s ->
  substring a b s
  = String.substring (Z.to_nat (Z.min a b)) (Z.to_nat (Z.abs (b - a))) s.
Proof.
  intros A B. unfold substring.
  rewrite (Z.min_l a (len s)) by lia. rewrite (Z.min_l b (len s)) by lia.
  rewrite (Z.max_r 0 a) by lia. rewrite (Z.max_r 0 b) by lia.
  f_equal. f_equal. lia.
Qed.

Lemma generateIPOReport_after_answer (ipoName : string) (w w1 : World)
    (response : option string) (tr0 : list event) :
  isEmpty apiKey = false ->
  retryOperation (callModel (IPOReportPrompt ipoName))
                 defaultMaxRetries defaultInitialDelay w
  = (Return response, w1, tr0) ->
  generateIPOReport ipoName w
  = let r := tryCatch
               (parseBraced "Failed to parse IPO report."
                            (stripFences (default EmptyString response)))
               rethrowNormalized w1 in
    (resultOf r, worldOf r, (tr0 ++ traceOf r)%list).
Proof.
  intros K A. unfold generateIPOReport. rewrite K. unfold tryCatch, bind.
  rewrite A. cbv zeta.
  destruct (parseBraced "Failed to parse IPO report."
                        (stripFences (default EmptyString response)) w1)
    as [[[v|t] w2] tr2]; simpl.
  - reflexivity.
  - destruct (rethrowNormalized t w2) as [[r3 w3] tr3]. simpl.
    rewrite app_assoc. reflexivity.
Qed.

End IPOReportFacts.

(** X14.  [generateIPOReport] has no refusal test: whenever the answer,
    stripped of code fences and trimmed, holds an opening and a closing
    brace, a part of it goes to [JSON.parse] and the parsed value is
    returned as the report.  That part runs from the first opening brace
    to the last closing brace, both included; when every closing brace
    comes before the first opening brace, it is the text strictly between
    the last closing brace and the first opening brace. *)
Theorem generateIPOReport_extraction {P : Platform} (ipoName : string)
    (w w1 : World) (response : option string) (tr0 : list event) (v : value) :
  isEmpty apiKey = false ->
  retryOperation (callModel (IPOReportPrompt ipoName))
                 defaultMaxRetries defaultInitialDelay w
  = (Return response, w1, tr0) ->
  let text := stripFences (default EmptyString response) in
  let first := indexOf "{" text in
  let last := lastIndexOf "}" text in
  0 <= first -> 0 <= last ->
  JSON_parse (String.substring (Z.to_nat (Z.min first (last + 1)))
                               (Z.to_nat (Z.abs (last + 1 - first))) text)
  = Some v ->
  generateIPOReport ipoName w = (Return v, w1, tr0).
Proof.
  intros K A text first last F L Pv.
  rewrite (generateIPOReport_after_answer ipoName w w1 response tr0 K A).
  cbv zeta. fold text. unfold parseBraced. fold first. fold last.
  assert (C : negb (first =? -1) && negb (last =? -1) = true).
  { apply andb_true_intro. split; apply negb_true_iff, Z.eqb_neq; lia. }
  rewrite C.
  rewrite substring_either_order.
  - rewrite Pv. unfold tryCatch, ret, resultOf, worldOf, traceOf. simpl.
    rewrite app_nil_r. reflexivity.
  - destruct (indexOf_bound "{" text) as [B|B]; fold first in B; [lia|].
    pose proof (lastIndexOf_bound "}" text) as B'. fold last in B'. lia.
  - pose proof (lastIndexOf_bound "}" text) as B'. fold last in B'. lia.
Qed.

Lemma generateIPOReport_extraction_witness :
  generateIPOReport "Acme" swappedBracesWorld
  = (Return (VNum (int 7)),
     snd (callModel (IPOReportPrompt "Acme") swappedBracesWorld),
     Invoked :: nil).
Proof.
  apply (@generateIPOReport_extraction (scriptedPlatform "key") "Acme"
           swappedBracesWorld
           (snd (callModel (IPOReportPrompt "Acme") swappedBracesWorld))
           (Some "} 7 {") (Invoked :: nil) (VNum (int 7)));
    try reflexivity; vm_compute; discriminate.
Defined.

(** ** An empty answer to the market prompt *)

(** X15.  When the retried model call of a forced [getMarketOverview]
    answers with no text or with the empty text, the call throws a new
    retryable descriptor titled [Analysis Failed] whose details say that
    an empty response was received; nothing is parsed, and the caches stay
    as they were. *)
Theorem getMarketOverview_empty_response {P : Platform} (w w1 : World)
    (response : option string) (tr0 : list event) :
  isEmpty apiKey = false ->
  retryOperation (callModel MarketPrompt) defaultMaxRetries defaultInitialDelay w
  = (Return response, w1, tr0) ->
  isEmpty (default EmptyString response) = true ->
  let failure :=
    "Empty response received. The AI model might have filtered the content due to safety settings." in
  getMarketOverview true w
  = (Throw (Ref (S (List.length (heap w1)))),
     setHeap (heap w1 ++ newError failure ::
              descriptor "Analysis Failed"
                "An unexpected error occurred while generating the report."
                (Some (VStr failure)) true :: nil)%list w1,
     tr0) /\
  caches w1 = caches w.
Proof.
  intros K A E failure. split.
  - rewrite (forced_call_fetches_market w K).
    unfold fetchMarketOverview, tryCatch, bind. rewrite A. cbv zeta. rewrite E.
    unfold throwNew, rethrowNormalized.
    rewrite (handleApiError_new_error _ (heap w1) failure false);
      [|reflexivity|vm_compute; reflexivity].
    rewrite !app_nil_r. reflexivity.
  - apply (preserves_run caches _ _ _ _ _
             (preserves_retried_model caches caches_setHeap caches_setExt _) A).
Qed.

Lemma getMarketOverview_empty_response_witness :
  resultOf (getMarketOverview true emptyAnswerWorld) = Throw (Ref 1) /\
  readProp (heap (worldOf (getMarketOverview true emptyAnswerWorld))) (Ref 1) "title"
  = Some (VStr "Analysis Failed").
Proof.
  destruct (@getMarketOverview_empty_response (scriptedPlatform "key")
              emptyAnswerWorld
              (snd (callModel MarketPrompt emptyAnswerWorld))
              (Some EmptyString) (Invoked :: nil) eq_refl eq_refl eq_refl)
    as [R _].
  rewrite R. split; reflexivity.
Defined.

(** ** The chat functions with a credential *)

Section ChatFacts.

Context {P : Platform}.

Lemma textOr_nonempty (response : option string) (fallback : string) :
  isEmpty fallback = false -> isEmpty (textOr response fallback) = false.
Proof.
  intros F. unfold textOr. destruct response as [t|]; [|exact F].
  destruct (isEmpty t) eqn:E; [exact F | exact E].
Qed.

(** A chat function is its retried model call, with every outcome turned
    into a reply. *)
Lemma chat_reply (req : request) (placeholder apology : string) (w : World) :
  isEmpty placeholder = false -> isEmpty apology = false ->
  let c := tryCatch
             (bind (retryOperation (callModel req) defaultMaxRetries
                                   defaultInitialDelay)
                   (fun response => ret (textOr response placeholder)))
             (fun _ => ret apology) in
  exists reply,
    resultOf (c w) = Return reply /\ isEmpty reply = false /\
    (1 <= invocations (traceOf (c w)) <= 3)%nat /\
    length (waits (traceOf (c w))) = pred (invocations (traceOf (c w))).
Proof.
  intros Fp Fa c. subst c. unfold tryCatch, bind.
  pose proof (retryLoop_attempts (callModel req) defaultMaxRetries
                defaultInitialDelay defaultMaxRetries O (Prim VUndefined) w
                eq_refl) as B.
  unfold retryOperation.
  destruct (retryLoop (callModel req) defaultMaxRetries defaultInitialDelay
                      defaultMaxRetries 0 (Prim VUndefined) w)
    as [[[response|t] w1] tr1].
  - exists (textOr response placeholder). unfold resultOf, traceOf. simpl.
    rewrite app_nil_r. split; [reflexivity|].
    split; [apply textOr_nonempty; exact Fp|].
    apply B. unfold defaultMaxRetries. lia.
  - exists apology. unfold resultOf, traceOf. simpl.
    rewrite app_nil_r. split; [reflexivity|]. split; [exact Fa|].
    apply B. unfold defaultMaxRetries. lia.
Qed.

End ChatFacts.

(** X16.  With an API key configured the two chat functions never throw:
    whatever the model does, they return a reply that is not empty, the
    text of the model, a placeholder for an answer without text, or an
    apology for a failure.  They invoke the model at least once and at
    most three times, wait once between two invocations, and leave every
    cache as they found it. *)
Theorem chat_always_replies {P : Platform} (c : chatCall) (w : World) :
  isEmpty apiKey = false ->
  exists reply,
    resultOf (runChat c w) = Return reply /\ isEmpty reply = false /\
    (1 <= invocations (traceOf (runChat c w)) <= 3)%nat /\
    length (waits (traceOf (runChat c w)))
    = pred (invocations (traceOf (runChat c w))) /\
    caches (worldOf (runChat c w)) = caches w.
Proof.
  intros K.
  pose proof (preserves_chat caches caches_setHeap caches_setExt c w) as F.
  destruct c as [m x|m x]; simpl in *;
    [unfold generateChatResponseLite in * | unfold generateChatResponseDetailed in *];
    rewrite K in *.
  - destruct (chat_reply (ChatLitePrompt m x) "I'm processing that..."
                "I'm thinking..." w eq_refl eq_refl) as (reply & R & N & I & W).
    exists reply. auto.
  - destruct (chat_reply (ChatDetailedPrompt m x)
                "I couldn't generate a detailed response."
                "Sorry, I encountered an error fetching detailed information."
                w eq_refl eq_refl) as (reply & R & N & I & W).
    exists reply. auto.
Qed.

Lemma chat_always_replies_witness :
  exists reply,
    resultOf (runChat (LiteCall "hi" "none") exhaustedWorld) = Return reply /\
    isEmpty reply = false.
Proof.
  destruct (@chat_always_replies (scriptedPlatform "key") (LiteCall "hi" "none")
              exhaustedWorld eq_refl) as (reply & R & N & _).
  exists reply. split; assumption.
Defined.

(** ** Queries with one cache key *)

Module MarginFacts.

Import JsString.

Lemma trimStart_blank (s : string) : isBlank s = true -> trimStart s = EmptyString.
Proof.
  induction s as [|c r IH]; simpl; [reflexivity|].
  intros H. apply andb_prop in H as [W B]. rewrite W. exact (IH B).
Qed.

Lemma trimEnd_blank (s : string) : isBlank s = true -> trimEnd s = EmptyString.
Proof.
  induction s as [|c r IH]; simpl; [reflexivity|].
  intros H. apply andb_prop in H as [W B]. rewrite W, (IH B). reflexivity.
Qed.

Lemma trimStart_app_blank (pre s : string) :
  isBlank pre = true -> trimStart (pre ++ s) = trimStart s.
Proof.
  induction pre as [|c r IH]; simpl; [reflexivity|].
  intros H. apply andb_prop in H as [W B]. rewrite W. exact (IH B).
Qed.

Lemma trimEnd_app_blank (s post : string) :
  isBlank post = true -> trimEnd (s ++ post) = trimEnd s.
Proof.
  intros B. induction s as [|c r IH]; simpl.
  - apply trimEnd_blank. exact B.
  - rewrite IH. reflexivity.
Qed.

Lemma trim_app_blank (s post : string) :
  isBlank post = true -> trimEnd (trimStart (s ++ post)) = trimEnd (trimStart s).
Proof.
  intros B. induction s as [|c r IH].
  - change (EmptyString ++ post) with post.
    rewrite (trimStart_blank post B). reflexivity.
  - change (String c r ++ post) with (String c (r ++ post)).
    cbn [trimStart]. destruct (isWhiteSpace c); [exact IH|].
    change (String c (r ++ post)) with (String c r ++ post).
    apply trimEnd_app_blank. exact B.
Qed.

Lemma trim_margins (pre s post : string) :
  isBlank pre = true -> isBlank post = true ->
  trim (pre ++ s ++ post) = trim s.
Proof.
  intros Bp Bq. unfold trim. rewrite (trimStart_app_blank pre _ Bp).
  apply trim_app_blank. exact Bq.
Qed.

Lemma isEmpty_trim (s : string) : isEmpty (trim s) = isBlank s.
Proof.
  unfold trim. induction s as [|c r IH]; simpl; [reflexivity|].
  destruct (isWhiteSpace c) eqn:W; simpl; [exact IH|].
  rewrite W. reflexivity.
Qed.

End MarginFacts.

(** X17.  Two queries that differ only in the case of their letters and in
    white space before and after them have the same screener cache key;
    white space inside a query is kept. *)
Theorem getCacheKey_ignores_case_and_margins (pre post q1 q2 : string) :
  isBlank pre = true -> isBlank post = true ->
  toLowerCase q1 = toLowerCase q2 ->
  getCacheKey (pre ++ q1 ++ post) = getCacheKey q2 /\
  getCacheKey "a b" <> getCacheKey "a  b".
Proof.
  intros Bp Bq E. split; [|vm_compute; discriminate].
  unfold getCacheKey. rewrite (MarginFacts.trim_margins pre q1 post Bp Bq).
  rewrite <- !KeyFacts.trim_toLowerCase. rewrite E. reflexivity.
Qed.

Lemma getCacheKey_ignores_case_and_margins_witness :
  getCacheKey ("  " ++ "Low PE Banks" ++ " ") = getCacheKey "low pe banks".
Proof.
  apply (getCacheKey_ignores_case_and_margins "  " " " "Low PE Banks" "low pe banks");
    reflexivity.
Defined.

(** ** The views: what a handler settles in *)

Section ThrownByReports.

Context {P : Platform}.
Variable Q : thrown -> World -> Prop.
Hypothesis Q_missing :
  forall w, Q (Ref (List.length (heap w)))
              (setHeap (heap w ++ missingApiKey :: nil)%list w).
Hypothesis Q_normalized :
  forall raw w0, Q (fst (handleApiError raw w0)) (snd (handleApiError raw w0)).

Lemma throwNew_missing_thrown {A} (w w' : World) (t : thrown) (tr : list event) :
  @throwNew P A missingApiKey w = (Throw t, w', tr) -> Q t w'.
Proof. unfold throwNew. intros [= <- <- _]. apply Q_missing. Qed.

Lemma tryCatch_rethrow_thrown {A} (body : M A) (w w' : World) (t : thrown)
    (tr : list event) :
  tryCatch body rethrowNormalized w = (Throw t, w', tr) -> Q t w'.
Proof.
  unfold tryCatch.
  destruct (body w) as [[[a|raw] w1] tr1]; [discriminate|].
  unfold rethrowNormalized.
  pose proof (Q_normalized raw w1) as S.
  destruct (handleApiError raw w1) as [t1 w2]. simpl in S.
  intros [= <- <- _]. exact S.
Qed.

(** Whatever a report function throws is the missing-key descriptor or a
    result of [handleApiError]. *)
Lemma runReport_thrown (c : reportCall) (w w' : World) (t : thrown)
    (tr : list event) :
  runReport c w = (Throw t, w', tr) -> Q t w'.
Proof.
  destruct c as [params|b|q b|b|n]; simpl.
  - unfold generateAnalysis. destruct (isEmpty apiKey).
    + apply throwNew_missing_thrown.
    + apply tryCatch_rethrow_thrown.
  - unfold getMarketOverview. destruct (isEmpty apiKey).
    + apply throwNew_missing_thrown.
    + unfold bind, dateNow, getWorld. simpl.
      assert (F : forall r w1 tr1,
                 fetchMarketOverview w = (r, w1, tr1) ->
                 (r, w1, (nil ++ nil ++ tr1)%list) = (Throw t, w', tr) -> Q t w').
      { intros r w1 tr1 E [= -> -> _].
        apply (tryCatch_rethrow_thrown _ _ _ _ _ E). }
      destruct (marketCache w) as [cached|].
      * destruct (negb b && _); [discriminate|].
        destruct (fetchMarketOverview w) as [[r w1] tr1]. apply F. reflexivity.
      * destruct (fetchMarketOverview w) as [[r w1] tr1]. apply F. reflexivity.
  - unfold screenStocks. destruct (isEmpty apiKey).
    + apply throwNew_missing_thrown.
    + unfold bind, dateNow, getWorld. simpl.
      assert (F : forall r w1 tr1,
                 fetchScreener q (getCacheKey q) w = (r, w1, tr1) ->
                 (r, w1, (nil ++ nil ++ tr1)%list) = (Throw t, w', tr) -> Q t w').
      { intros r w1 tr1 E [= -> -> _].
        apply (tryCatch_rethrow_thrown _ _ _ _ _ E). }
      destruct (screenerCache w !! getCacheKey q) as [cached|].
      * destruct (negb b && _); [discriminate|].
        destruct (fetchScreener q (getCacheKey q) w) as [[r w1] tr1].
        apply F. reflexivity.
      * destruct (fetchScreener q (getCacheKey q) w) as [[r w1] tr1].
        apply F. reflexivity.
  - unfold fetchIPOList. destruct (isEmpty apiKey).
    + apply throwNew_missing_thrown.
    + unfold bind, dateNow, getWorld. simpl.
      assert (F : forall r w1 tr1,
                 fetchIPOListFresh w = (r, w1, tr1) ->
                 (r, w1, (nil ++ nil ++ tr1)%list) = (Throw t, w', tr) -> Q t w').
      { intros r w1 tr1 E [= -> -> _].
        apply (tryCatch_rethrow_thrown _ _ _ _ _ E). }
      destruct (ipoListCache w) as [cached|].
      * destruct (negb b && _); [discriminate|].
        destruct (fetchIPOListFresh w) as [[r w1] tr1]. apply F. reflexivity.
      * destruct (fetchIPOListFresh w) as [[r w1] tr1]. apply F. reflexivity.
  - unfold generateIPOReport. destruct (isEmpty apiKey).
    + apply throwNew_missing_thrown.
    + apply tryCatch_rethrow_thrown.
Qed.

End ThrownByReports.

Section ShowableFacts.

Context {P : Platform}.

Lemma hasField_lookupField (k : string) (fs : list (string * value)) :
  hasField k fs = false -> lookupField k fs = VUndefined.
Proof.
  unfold hasField. induction fs as [|[k' v] r IH]; simpl; [reflexivity|].
  destruct (String.eqb k k'); [discriminate|]. exact IH.
Qed.

(** A value with a truthy title is structured. *)
Lemma titled_isStructured (h : list object) (t : thrown) :
  truthy (titleOf h t) = true -> isStructured h t = true.
Proof.
  unfold titleOf, isStructured, readProp. destruct t as [v|l].
  - destruct v; simpl; try discriminate.
    destruct (hasField "title" fields) eqn:F; [reflexivity|].
    rewrite (hasField_lookupField _ _ F). discriminate.
  - destruct (h !! l) as [o|]; simpl; [|discriminate].
    destruct (hasField "title" (props o)) eqn:F; [reflexivity|].
    rewrite (hasField_lookupField _ _ F). discriminate.
Qed.

Lemma isDescriptor_showable (t : thrown) (w : World) :
  isDescriptor (heap w) t = true -> showable t w.
Proof.
  unfold isDescriptor, descriptorShaped. intros H.
  apply andb_prop in H as [H _]. apply andb_prop in H as [T _].
  split.
  - destruct t as [v|l].
    + destruct v; simpl in *; discriminate.
    + unfold readProp. destruct (heap w !! l); discriminate.
  - intros _. exact T.
Qed.

Lemma missingApiKey_showable (w : World) :
  showable (Ref (List.length (heap w)))
           (setHeap (heap w ++ missingApiKey :: nil)%list w).
Proof.
  apply isDescriptor_showable. unfold isDescriptor. simpl heap.
  rewrite !readProp_fresh. reflexivity.
Qed.

Lemma handleApiError_showable (raw : thrown) (w0 : World) :
  showable (fst (handleApiError raw w0)) (snd (handleApiError raw w0)).
Proof.
  destruct (normalizerCrashes raw w0) eqn:C.
  - destruct (handleApiError_crash raw w0 C) as (l & expr & -> & H).
    split.
    + unfold readProp. rewrite H. discriminate.
    + unfold isStructured. rewrite H. discriminate.
  - apply isDescriptor_showable, handleApiError_descriptor. exact C.
Qed.

(** Whatever a report function throws can be shown. *)
Lemma runReport_showable (c : reportCall) (w w' : World) (t : thrown)
    (tr : list event) :
  runReport c w = (Throw t, w', tr) -> showable t w'.
Proof.
  apply (runReport_thrown showable missingApiKey_showable handleApiError_showable).
Qed.

(** On a value whose message can be read the literal is built. *)
Lemma describeFailure_builds (title fallback : string) (withDetails : bool)
    (err : thrown) (w : World) :
  readProp (heap w) err "message" <> None ->
  exists m,
    readProp (heap w) err "message" = Some m /\
    describeFailure title fallback withDetails err w
    = (inl (Ref (List.length (heap w))),
       setHeap (heap w ++
                errorLiteral title (orElse m (VStr fallback))
                  (if withDetails then Some (String_ (heap w) err) else None)
                :: nil)%list w).
Proof.
  intros R. unfold describeFailure.
  destruct (readProp (heap w) err "message") as [m|]; [|contradiction].
  exists m. split; reflexivity.
Qed.

(** On a value that can be shown, the catch block gives the view an error
    with a truthy title, and changes nothing but the store. *)
Lemma structuredOr_shows (title fallback : string) (withDetails : bool)
    (err : thrown) (w : World) :
  showable err w -> isEmpty title = false ->
  exists shown w2,
    structuredOr title fallback withDetails err w = (inl shown, w2) /\
    truthy (titleOf (heap w2) shown) = true /\
    caches w2 = caches w /\ ext w2 = ext w.
Proof.
  intros [R T] N. unfold structuredOr.
  destruct (isStructured (heap w) err) eqn:S.
  - exists err, w. repeat split. exact (T eq_refl).
  - destruct (describeFailure_builds title fallback withDetails err w R)
      as (m & _ & ->).
    eexists _, _. split; [reflexivity|]. split; [|split; reflexivity].
    unfold titleOf. simpl heap. rewrite readProp_fresh. simpl.
    rewrite N. reflexivity.
Qed.

End ShowableFacts.

(** X18.  A search of the screener with a query that is not blank always
    settles: the promise of [handleScreen] is never rejected, the loading
    flag is down and the sort is reset.  When [screenStocks] returns, the
    view holds its result and no error, and has passed the result to
    [onDataUpdate]; when it throws, the view holds no result and an error
    with a truthy title, and every cache is as it was. *)
Theorem handleScreen_settles {P : Platform} (onDataUpdate : bool) (q : string)
    (s : StockScreener.State) (w : World) :
  isBlank q = false ->
  exists s' w',
    StockScreener.handleScreen onDataUpdate q s w
    = (s', None, w', traceOf (screenStocks q false w)) /\
    StockScreener.loading s' = false /\
    StockScreener.sortConfig s' = None /\
    StockScreener.query s' = StockScreener.query s /\
    match resultOf (screenStocks q false w) with
    | Return d =>
        StockScreener.results s' = Some d /\
        StockScreener.error s' = None /\
        StockScreener.updates s' = notify onDataUpdate d (StockScreener.updates s) /\
        w' = worldOf (screenStocks q false w)
    | Throw _ =>
        StockScreener.results s' = None /\
        (exists e, StockScreener.error s' = Some e /\
                   truthy (titleOf (heap w') e) = true) /\
        StockScreener.updates s' = StockScreener.updates s /\
        caches w' = caches w
    end.
Proof.
  intros B. unfold StockScreener.handleScreen.
  rewrite MarginFacts.isEmpty_trim, B.
  destruct (screenStocks q false w) as [[[d|err] w1] tr] eqn:E;
    unfold resultOf, worldOf, traceOf; simpl.
  - eexists _, _. split; [reflexivity|]. repeat split.
  - pose proof (runReport_showable (ScreenerCall q false) w w1 err tr E) as Sh.
    destruct (structuredOr_shows "Screener Failed"
                "Could not complete the screening request." false err w1 Sh eq_refl)
      as (shown & w2 & -> & T & C & _).
    eexists _, _. split; [reflexivity|]. simpl. repeat split.
    + exists shown. split; [reflexivity | exact T].
    + rewrite C. exact (screenStocks_throw q false w w1 err tr E).
Qed.

Lemma handleScreen_settles_witness :
  exists s' w',
    StockScreener.handleScreen true " AAPL" StockScreener.initial screenerWorld
    = (s', None, w', Invoked :: nil) /\
    StockScreener.results s' = Some (VArr nil) /\
    StockScreener.updates s' = VArr nil :: nil.
Proof.
  destruct (@handleScreen_settles (scriptedPlatform "key") true " AAPL"
              StockScreener.initial screenerWorld eq_refl)
    as (s' & w' & H & _ & _ & _ & R & _ & U & _).
  exists s', w'. split; [exact H|]. split; [exact R | exact U].
Defined.

(** X19.  What the screener shows after a search is what it shows again
    when it is mounted anew: after [handleScreen] has put a result on the
    screen for a query that is not blank, the mount effect, run in the
    world the search left, puts the query as it was typed into the input
    and the same result on the screen, and passes that result to
    [onDataUpdate]. *)
Theorem screener_restores_last_search {P : Platform} (onDataUpdate : bool)
    (q : string) (s s' : StockScreener.State) (rejection : option thrown)
    (w w' : World) (tr : list event) (d : value) :
  isBlank q = false ->
  StockScreener.handleScreen onDataUpdate q s w = (s', rejection, w', tr) ->
  StockScreener.results s' = Some d ->
  forall (onDataUpdate' : bool) (s0 : StockScreener.State),
    StockScreener.restore onDataUpdate' s0 w'
    = {| StockScreener.query := q;
         StockScreener.results := Some d;
         StockScreener.loading := StockScreener.loading s0;
         StockScreener.error := StockScreener.error s0;
         StockScreener.sortConfig := StockScreener.sortConfig s0;
         StockScreener.updates :=
           notify onDataUpdate' d (StockScreener.updates s0) |}.
Proof.
  intros B H R up' s0. unfold StockScreener.handleScreen in H.
  rewrite MarginFacts.isEmpty_trim, B in H.
  pose proof (screenStocks_outcome q false w) as O.
  destruct (screenStocks q false w) as [[[v|err] w1] tr1].
  - injection H as <- _ <- _. simpl in R. injection R as ->.
    unfold resultOf, worldOf in O. simpl in O.
    destruct O as (L & e & C & D).
    assert (N : isEmpty q = false).
    { destruct q; [discriminate | reflexivity]. }
    unfold StockScreener.restore, getScreenerState.
    rewrite L, N, C, D. reflexivity.
  - destruct (structuredOr _ _ _ err w1) as [[shown|typeError] w2];
      injection H as <- _ _ _; discriminate.
Qed.

Lemma screener_restores_last_search_witness :
  StockScreener.query
    (StockScreener.restore false StockScreener.initial
       (worldOf (screenStocks " AAPL" false screenerWorld)))
  = " AAPL".
Proof.
  rewrite (@screener_restores_last_search (scriptedPlatform "key") false " AAPL"
             StockScreener.initial _ None screenerWorld
             (worldOf (screenStocks " AAPL" false screenerWorld))
             (Invoked :: nil) (VArr nil) eq_refl eq_refl eq_refl).
  reflexivity.
Defined.

(** X20.  Clicking the header of a column sorts by it in ascending order,
    unless the table is sorted by that column in ascending order already,
    when it turns to descending: clicks on one header alternate between
    the two directions, the first click after a click on another header,
    or after a search, is ascending, and nothing but the sort changes. *)
Theorem handleSort_alternates {P : Platform} (k k' : string)
    (s : StockScreener.State) :
  let sorted d :=
    Some {| StockScreener.key := k; StockScreener.direction := d |} in
  let s1 := StockScreener.handleSort k s in
  let s2 := StockScreener.handleSort k s1 in
  (StockScreener.sortConfig s = sorted StockScreener.asc /\
   StockScreener.sortConfig s1 = sorted StockScreener.desc \/
   StockScreener.sortConfig s <> sorted StockScreener.asc /\
   StockScreener.sortConfig s1 = sorted StockScreener.asc) /\
  StockScreener.sortConfig (StockScreener.handleSort k s2)
  = StockScreener.sortConfig s1 /\
  StockScreener.sortConfig s2 <> StockScreener.sortConfig s1 /\
  (if String.eqb k k' then True
   else StockScreener.sortConfig (StockScreener.handleSort k (StockScreener.handleSort k' s))
        = sorted StockScreener.asc) /\
  (forall onDataUpdate q w,
      if isBlank q then True
      else StockScreener.sortConfig
             (StockScreener.handleSort k
                (fst (fst (fst (StockScreener.handleScreen onDataUpdate q s w)))))
           = sorted StockScreener.asc) /\
  (StockScreener.results s1, StockScreener.query s1, StockScreener.error s1)
  = (StockScreener.results s, StockScreener.query s, StockScreener.error s).
Proof.
  cbv zeta. split; [|split; [|split; [|split; [|split]]]].
  - unfold StockScreener.handleSort.
    destruct (StockScreener.sortConfig s) as [[k0 [|]]|]; simpl.
    + destruct (String.eqb_spec k0 k) as [->|N]; simpl.
      * left. split; reflexivity.
      * right. split; [congruence | reflexivity].
    + rewrite andb_false_r. right. split; [congruence | reflexivity].
    + right. split; [discriminate | reflexivity].
  - unfold StockScreener.handleSort. simpl. rewrite String.eqb_refl. simpl.
    destruct (StockScreener.sortConfig s) as [[k0 [|]]|]; simpl;
      try rewrite andb_false_r; try destruct (String.eqb k0 k); reflexivity.
  - unfold StockScreener.handleSort. simpl. rewrite String.eqb_refl. simpl.
    destruct (StockScreener.sortConfig s) as [[k0 [|]]|]; simpl;
      try rewrite andb_false_r; try destruct (String.eqb k0 k); simpl;
      discriminate.
  - destruct (String.eqb_spec k k') as [_|N]; [exact I|].
    unfold StockScreener.handleSort. simpl.
    destruct (String.eqb_spec k' k) as [E|_]; [congruence|]. reflexivity.
  - intros up q w. destruct (isBlank q) eqn:B; [exact I|].
    unfold StockScreener.handleScreen. rewrite MarginFacts.isEmpty_trim, B.
    destruct (screenStocks q false w) as [[[d|err] w1] tr]; [reflexivity|].
    destruct (structuredOr _ _ _ err w1) as [[shown|typeError] w2]; reflexivity.
  - reflexivity.
Qed.

(** X21.  A search from the main view always settles: the promise of
    [handleSearch] is never rejected and the loading flag is down.  When
    [generateAnalysis] returns, the view holds the report and no error;
    when it throws, the view holds no report and an error with a truthy
    title.  The search parameters and every cache are as they were. *)
Theorem handleSearch_settles {P : Platform} (s : App.State) (w : World) :
  exists s' w',
    App.handleSearch s w
    = (s', None, w', traceOf (generateAnalysis (App.params s) w)) /\
    App.loading s' = false /\
    App.params s' = App.params s /\
    caches w' = caches w /\
    match resultOf (generateAnalysis (App.params s) w) with
    | Return d => App.report s' = Some d /\ App.error s' = None
    | Throw _ =>
        App.report s' = None /\
        exists e, App.error s' = Some e /\ truthy (titleOf (heap w') e) = true
    end.
Proof.
  unfold App.handleSearch.
  pose proof (preserves_generateAnalysis caches caches_setHeap caches_setExt
                (App.params s) w) as K.
  destruct (generateAnalysis (App.params s) w) as [[[d|err] w1] tr] eqn:E;
    unfold resultOf, worldOf, traceOf in *; simpl in *.
  - eexists _, _. split; [reflexivity|]. repeat split. exact K.
  - pose proof (runReport_showable (AnalysisCall (App.params s)) w w1 err tr E)
      as Sh.
    destruct (structuredOr_shows "Unexpected Error" "An unknown error occurred."
                true err w1 Sh eq_refl)
      as (shown & w2 & -> & T & C & _).
    eexists _, _. split; [reflexivity|]. simpl. repeat split.
    + rewrite C. exact K.
    + exists shown. split; [reflexivity | exact T].
Qed.

(** X22.  A load or refresh of the market view always settles: the
    promise of [fetchData] is never rejected, and both the loading and the
    refreshing flag are down.  When [getMarketOverview] returns, the view
    holds its result and no error; when it throws, the view keeps the data
    it had on the screen and holds an error with a truthy title, and every
    cache is as it was. *)
Theorem fetchData_settles {P : Platform} (onDataUpdate forceRefresh : bool)
    (s : MarketDashboard.State) (w : World) :
  exists s' w',
    MarketDashboard.fetchData onDataUpdate forceRefresh s w
    = (s', None, w', traceOf (getMarketOverview forceRefresh w)) /\
    MarketDashboard.loading s' = false /\
    MarketDashboard.refreshing s' = false /\
    match resultOf (getMarketOverview forceRefresh w) with
    | Return d =>
        MarketDashboard.data s' = Some d /\
        MarketDashboard.error s' = None /\
        MarketDashboard.updates s'
        = notify onDataUpdate d (MarketDashboard.updates s)
    | Throw _ =>
        MarketDashboard.data s' = MarketDashboard.data s /\
        (exists e, MarketDashboard.error s' = Some e /\
                   truthy (titleOf (heap w') e) = true) /\
        MarketDashboard.updates s' = MarketDashboard.updates s /\
        caches w' = caches w
    end.
Proof.
  unfold MarketDashboard.fetchData.
  destruct (getMarketOverview forceRefresh w) as [[[d|err] w1] tr] eqn:E;
    unfold resultOf, worldOf, traceOf; simpl.
  - eexists _, _. split; [reflexivity|]. repeat split.
  - pose proof (runReport_showable (MarketCall forceRefresh) w w1 err tr E) as Sh.
    destruct (structuredOr_shows "Market Data Error" "Failed to load market data."
                true err w1 Sh eq_refl)
      as (shown & w2 & -> & T & C & _).
    eexists _, _. split; [reflexivity|]. simpl. repeat split.
    + exists shown. split; [reflexivity | exact T].
    + rewrite C. exact (getMarketOverview_throw forceRefresh w w1 err tr E).
Qed.

(** X23.  When [generateIPOReport] throws, [handleAnalyze] of the IPO view
    never shows what was thrown: it shows a literal of its own, titled
    [Analysis Failed] and always retryable, whatever the retry flag of the
    thrown descriptor, with the thrown message, or its own text when that
    message is falsy, and without details.  Its promise is not rejected,
    the analyzing flag is down, and the list, the selection and the view
    stay as they were. *)
Theorem handleAnalyze_failure {P : Platform} (onDataUpdate : bool)
    (ipoName : string) (s : IPODashboard.State) (w w1 : World) (err : thrown)
    (tr : list event) :
  generateIPOReport ipoName w = (Throw err, w1, tr) ->
  exists m,
    readProp (heap w1) err "message" = Some m /\
    IPODashboard.handleAnalyze onDataUpdate ipoName s w
    = ({| IPODashboard.view := IPODashboard.view s;
          IPODashboard.ipoList := IPODashboard.ipoList s;
          IPODashboard.selectedIPO := IPODashboard.selectedIPO s;
          IPODashboard.loading := IPODashboard.loading s;
          IPODashboard.analyzing := false;
          IPODashboard.error := Some (Ref (List.length (heap w1)));
          IPODashboard.statusFilter := IPODashboard.statusFilter s;
          IPODashboard.typeFilter := IPODashboard.typeFilter s;
          IPODashboard.updates := IPODashboard.updates s |},
       None,
       setHeap (heap w1 ++
                Object (("title", VStr "Analysis Failed") ::
                        ("message",
                         orElse m (VStr "Could not analyze the selected IPO.")) ::
                        ("isRetryable", VBool true) :: nil) false :: nil)%list w1,
       tr).
Proof.
  intros E. unfold IPODashboard.handleAnalyze. rewrite E.
  pose proof (runReport_showable (IPOReportCall ipoName) w w1 err tr E) as [R _].
  destruct (describeFailure_builds "Analysis Failed"
              "Could not analyze the selected IPO." false err w1 R)
    as (m & Hm & ->).
  exists m. split; [exact Hm | reflexivity].
Qed.

Lemma handleAnalyze_failure_witness :
  exists s' w',
    IPODashboard.handleAnalyze false "Acme" IPODashboard.initial keylessWorld
    = (s', None, w', nil) /\
    IPODashboard.error s' = Some (Ref 1) /\
    readProp (heap w') (Ref 0) "isRetryable" = Some (VBool false) /\
    readProp (heap w') (Ref 1) "isRetryable" = Some (VBool true) /\
    readProp (heap w') (Ref 1) "message" = Some (VStr "API Key is not configured.").
Proof.
  destruct (@handleAnalyze_failure (scriptedPlatform EmptyString) false "Acme"
              IPODashboard.initial keylessWorld
              (worldOf (generateIPOReport "Acme" keylessWorld)) (Ref 0) nil eq_refl)
    as (m & Hm & H).
  vm_compute in Hm. injection Hm as <-.
  eexists _, _. split; [exact H|]. repeat split.
Defined.

(** X24.  When [fetchIPOList] throws, the mount effect of the IPO view
    shows a literal of its own, titled [Failed to fetch IPOs] and always
    retryable, with the thrown message, or its own text when that message
    is falsy; its promise is not rejected, the loading flag is down, and
    the list on the screen stays as it was. *)
Theorem loadList_failure {P : Platform} (onDataUpdate : bool)
    (s : IPODashboard.State) (w w1 : World) (err : thrown) (tr : list event) :
  fetchIPOList false w = (Throw err, w1, tr) ->
  exists m,
    readProp (heap w1) err "message" = Some m /\
    IPODashboard.loadList onDataUpdate s w
    = ({| IPODashboard.view := IPODashboard.view s;
          IPODashboard.ipoList := IPODashboard.ipoList s;
          IPODashboard.selectedIPO := IPODashboard.selectedIPO s;
          IPODashboard.loading := false;
          IPODashboard.analyzing := IPODashboard.analyzing s;
          IPODashboard.error := Some (Ref (List.length (heap w1)));
          IPODashboard.statusFilter := IPODashboard.statusFilter s;
          IPODashboard.typeFilter := IPODashboard.typeFilter s;
          IPODashboard.updates := IPODashboard.updates s |},
       None,
       setHeap (heap w1 ++
                Object (("title", VStr "Failed to fetch IPOs") ::
                        ("message",
                         orElse m (VStr "Could not retrieve IPO list.")) ::
                        ("isRetryable", VBool true) :: nil) false :: nil)%list w1,
       tr).
Proof.
  intros E. unfold IPODashboard.loadList. rewrite E.
  pose proof (runReport_showable (IPOListCall false) w w1 err tr E) as [R _].
  destruct (describeFailure_builds "Failed to fetch IPOs"
              "Could not retrieve IPO list." false err w1 R)
    as (m & Hm & ->).
  exists m. split; [exact Hm | reflexivity].
Qed.

Lemma loadList_failure_witness :
  exists s' w',
    IPODashboard.loadList false IPODashboard.initial keylessWorld
    = (s', None, w', nil) /\
    IPODashboard.error s' = Some (Ref 1) /\
    readProp (heap w') (Ref 1) "title" = Some (VStr "Failed to fetch IPOs") /\
    readProp (heap w') (Ref 1) "message" = Some (VStr "API Key is not configured.").
Proof.
  destruct (@loadList_failure (scriptedPlatform EmptyString) false
              IPODashboard.initial keylessWorld
              (worldOf (fetchIPOList false keylessWorld)) (Ref 0) nil eq_refl)
    as (m & Hm & H).
  vm_compute in Hm. injection Hm as <-.
  eexists _, _. split; [exact H|]. repeat split.
Defined.

(** ** The filters of the IPO list *)

Section FilterFacts.

Variables statusFilter typeFilter : string.

Lemma filterItems_all (xs : list value) :
  IPODashboard.filterItems "All" "All" xs = Some xs.
Proof.
  induction xs as [|x r IH]; simpl; [reflexivity|].
  unfold IPODashboard.matchesFilters. simpl. rewrite IH. reflexivity.
Qed.

Lemma filterItems_spec (xs : list value) :
  forall ys,
    IPODashboard.filterItems statusFilter typeFilter xs = Some ys ->
    sublist ys xs /\
    forall x, x ∈ ys <->
              x ∈ xs /\
              IPODashboard.matchesFilters statusFilter typeFilter x = Some true.
Proof.
  induction xs as [|a r IH]; simpl; intros ys H.
  - injection H as <-. split; [constructor|].
    intros x. split; [intros E; inversion E | intros [E _]; inversion E].
  - destruct (IPODashboard.matchesFilters statusFilter typeFilter a) as [keep|] eqn:K;
      [|discriminate].
    destruct (IPODashboard.filterItems statusFilter typeFilter r) as [r'|];
      [|discriminate].
    destruct (IH r' eq_refl) as [S E]. injection H as <-.
    destruct keep.
    + split; [apply sublist_skip; exact S|].
      intros x. rewrite !elem_of_cons, E. split.
      * intros [->|[I M]]; [split; [left; reflexivity | exact K]|].
        split; [right; exact I | exact M].
      * intros [[->|I] M]; [left; reflexivity | right; split; assumption].
    + split; [apply sublist_cons; exact S|].
      intros x. rewrite elem_of_cons, E. split.
      * intros [I M]. split; [right; exact I | exact M].
      * intros [[->|I] M]; [congruence | split; assumption].
Qed.

End FilterFacts.

(** X25.  The filters of the IPO list only hide.  With both filters on
    [All] the whole list is shown, whatever its items are.  Otherwise,
    when the filtering does not throw, what is shown is a sublist of the
    list, in the same order, of just the items that match both filters;
    and an item whose type is missing or falsy matches the type filter
    [Mainboard] and not the filter [SME]. *)
Theorem filteredIPOList_only_hides (s : IPODashboard.State) (xs : list value) :
  IPODashboard.ipoList s = VArr xs ->
  (if String.eqb (IPODashboard.statusFilter s) "All" &&
      String.eqb (IPODashboard.typeFilter s) "All"
   then IPODashboard.filteredIPOList s = Some xs
   else True) /\
  (forall ys,
      IPODashboard.filteredIPOList s = Some ys ->
      sublist ys xs /\
      forall x, x ∈ ys <->
                x ∈ xs /\
                IPODashboard.matchesFilters (IPODashboard.statusFilter s)
                  (IPODashboard.typeFilter s) x = Some true) /\
  (forall fs,
      truthy (lookupField "type" fs) = false ->
      IPODashboard.matchesFilters "All" "Mainboard" (VObj fs) = Some true /\
      IPODashboard.matchesFilters "All" "SME" (VObj fs) = Some false).
Proof.
  intros L. unfold IPODashboard.filteredIPOList. rewrite L. split; [|split].
  - destruct (String.eqb_spec (IPODashboard.statusFilter s) "All") as [->|_];
      [|exact I].
    destruct (String.eqb_spec (IPODashboard.typeFilter s) "All") as [->|_];
      [|exact I].
    apply filterItems_all.
  - intros ys. apply filterItems_spec.
  - intros fs T. unfold IPODashboard.matchesFilters. simpl.
    unfold orElse. rewrite T. split; reflexivity.
Qed.

Lemma filteredIPOList_only_hides_witness :
  sublist
    (VObj (("name", VStr "A") :: ("type", VStr "Mainboard") :: nil) ::
     VObj (("name", VStr "B") :: nil) :: nil)
    (VObj (("name", VStr "A") :: ("type", VStr "Mainboard") :: nil) ::
     VObj (("name", VStr "B") :: nil) ::
     VObj (("name", VStr "C") :: ("type", VStr "SME") :: nil) :: nil).
Proof.
  apply (proj1 (proj1 (proj2 (filteredIPOList_only_hides filteredView _ eq_refl))
                      _ eq_refl)).
Defined.

(** ** The model calls behind one call of the service *)

Section QuietFacts.

Context {P : Platform}.

Lemma quiet_ret {A} (a : A) : quiet (ret a).
Proof. intros w. reflexivity. Qed.

Lemma quiet_throwNew {A} (o : object) : quiet (@throwNew P A o).
Proof. intros w. reflexivity. Qed.

Lemma quiet_dateNow : quiet dateNow.
Proof. intros w. reflexivity. Qed.

Lemma quiet_dateNowAgain : quiet dateNowAgain.
Proof. intros w. reflexivity. Qed.

Lemma quiet_modify (f : World -> World) : quiet (modify f).
Proof. intros w. reflexivity. Qed.

Lemma quiet_saveCache (key : string) (d : value) (ts : Z) :
  quiet (saveCache key d ts).
Proof. intros w. reflexivity. Qed.

Lemma quiet_rethrowNormalized {A} (t : thrown) : quiet (@rethrowNormalized P A t).
Proof.
  intros w. unfold rethrowNormalized, traceOf.
  destruct (handleApiError t w). reflexivity.
Qed.

Lemma quiet_bind {A B} (c : M A) (k : A -> M B) :
  quiet c -> (forall a, quiet (k a)) -> quiet (bind c k).
Proof.
  intros Qc Qk w. unfold bind. specialize (Qc w).
  destruct (c w) as [[[a|t] w1] tr1]; unfold traceOf in *; simpl in *.
  - specialize (Qk a w1). destruct (k a w1) as [[r w2] tr2].
    unfold traceOf in Qk. simpl in *. subst. reflexivity.
  - exact Qc.
Qed.

Lemma quiet_if {A} (b : bool) (c1 c2 : M A) :
  quiet c1 -> quiet c2 -> quiet (if b then c1 else c2).
Proof. destruct b; auto. Qed.

Lemma quiet_parseBraced (failure text : string) : quiet (parseBraced failure text).
Proof.
  unfold parseBraced. apply quiet_if; [|apply quiet_throwNew].
  destruct (JSON_parse _); [apply quiet_ret | apply quiet_throwNew].
Qed.

Lemma quiet_member (json : value) (k : string) : quiet (member json k).
Proof.
  unfold member. destruct (getProp json k); [apply quiet_ret | apply quiet_throwNew].
Qed.

(** A retried model call, followed by quiet steps and caught by a quiet
    handler, has the trace of the retried call. *)
Lemma trace_model_call {A} (req : request) (k : option string -> M A)
    (handler : thrown -> M A) (w : World) :
  (forall r, quiet (k r)) -> (forall t, quiet (handler t)) ->
  traceOf (tryCatch
             (bind (retryOperation (callModel req) defaultMaxRetries
                                   defaultInitialDelay) k)
             handler w)
  = traceOf (retryOperation (callModel req) defaultMaxRetries
                            defaultInitialDelay w).
Proof.
  intros Qk Qh. unfold tryCatch, bind.
  destruct (retryOperation (callModel req) defaultMaxRetries defaultInitialDelay w)
    as [[[r|t] w1] tr1]; unfold traceOf; simpl.
  - pose proof (Qk r w1) as K. destruct (k r w1) as [[[a|t] w2] tr2];
      unfold traceOf in K; simpl in *; subst.
    + apply app_nil_r.
    + pose proof (Qh t w2) as H. destruct (handler t w2) as [[r3 w3] tr3].
      unfold traceOf in H. simpl in *. subst. rewrite !app_nil_r. reflexivity.
  - pose proof (Qh t w1) as H. destruct (handler t w1) as [[r3 w3] tr3].
    unfold traceOf in H. simpl in *. subst. apply app_nil_r.
Qed.

Lemma trace_fetchMarketOverview (w : World) :
  traceOf (fetchMarketOverview w)
  = traceOf (retryOperation (callModel MarketPrompt) defaultMaxRetries
                            defaultInitialDelay w).
Proof.
  unfold fetchMarketOverview. apply trace_model_call;
    [|intros t; apply quiet_rethrowNormalized].
  intros r. cbv zeta. apply quiet_if; [apply quiet_throwNew|].
  apply quiet_bind; [apply quiet_parseBraced|]. intros d.
  apply quiet_bind; [apply quiet_dateNow|]. intros t1.
  apply quiet_bind; [apply quiet_modify|]. intros _.
  apply quiet_bind; [apply quiet_dateNowAgain|]. intros t2.
  apply quiet_bind; [apply quiet_saveCache|]. intros _. apply quiet_ret.
Qed.

Lemma trace_fetchScreener (q k : string) (w : World) :
  traceOf (fetchScreener q k w)
  = traceOf (retryOperation (callModel (ScreenerPrompt q)) defaultMaxRetries
                            defaultInitialDelay w).
Proof.
  unfold fetchScreener. apply trace_model_call;
    [|intros t; apply quiet_rethrowNormalized].
  intros r. cbv zeta.
  apply quiet_bind; [apply quiet_parseBraced|]. intros json.
  apply quiet_bind; [apply quiet_member|]. intros matches.
  apply quiet_bind; [apply quiet_dateNow|]. intros t1.
  apply quiet_bind; [apply quiet_modify|]. intros _.
  apply quiet_bind; [apply quiet_modify|]. intros _. apply quiet_ret.
Qed.

Lemma trace_fetchIPOListFresh (w : World) :
  traceOf (fetchIPOListFresh w)
  = traceOf (retryOperation (callModel IPOListPrompt) defaultMaxRetries
                            defaultInitialDelay w).
Proof.
  unfold fetchIPOListFresh. apply trace_model_call;
    [|intros t; apply quiet_rethrowNormalized].
  intros r. cbv zeta.
  apply quiet_bind; [apply quiet_parseBraced|]. intros json.
  apply quiet_bind; [apply quiet_member|]. intros items.
  apply quiet_bind; [apply quiet_dateNow|]. intros t1.
  apply quiet_bind; [apply quiet_modify|]. intros _.
  apply quiet_bind; [apply quiet_dateNowAgain|]. intros t2.
  apply quiet_bind; [apply quiet_saveCache|]. intros _. apply quiet_ret.
Qed.

(** A report call is quiet, or its trace is that of one retried model
    call with its own prompt, made in the world of the call. *)
Lemma trace_runReport (c : reportCall) (w : World) :
  traceOf (runReport c w) = nil \/
  traceOf (runReport c w)
  = traceOf (retryOperation (callModel (promptOf c)) defaultMaxRetries
                            defaultInitialDelay w).
Proof.
  destruct c as [params|b|q b|b|n]; simpl.
  - unfold generateAnalysis. destruct (isEmpty apiKey); [left; reflexivity|].
    right. apply trace_model_call; [|intros t; apply quiet_rethrowNormalized].
    intros r. cbv zeta.
    apply quiet_if; [apply quiet_throwNew | apply quiet_parseBraced].
  - unfold getMarketOverview. destruct (isEmpty apiKey); [left; reflexivity|].
    unfold bind, dateNow, getWorld. simpl.
    pose proof (trace_fetchMarketOverview w) as F.
    destruct (marketCache w) as [cached|].
    + destruct (negb b && _); [left; reflexivity|].
      destruct (fetchMarketOverview w) as [[r w1] tr1]. right. exact F.
    + destruct (fetchMarketOverview w) as [[r w1] tr1]. right. exact F.
  - unfold screenStocks. destruct (isEmpty apiKey); [left; reflexivity|].
    unfold bind, dateNow, getWorld. simpl.
    pose proof (trace_fetchScreener q (getCacheKey q) w) as F.
    destruct (screenerCache w !! getCacheKey q) as [cached|].
    + destruct (negb b && _); [left; reflexivity|].
      destruct (fetchScreener q (getCacheKey q) w) as [[r w1] tr1]. right. exact F.
    + destruct (fetchScreener q (getCacheKey q) w) as [[r w1] tr1]. right. exact F.
  - unfold fetchIPOList. destruct (isEmpty apiKey); [left; reflexivity|].
    unfold bind, dateNow, getWorld. simpl.
    pose proof (trace_fetchIPOListFresh w) as F.
    destruct (ipoListCache w) as [cached|].
    + destruct (negb b && _); [left; reflexivity|].
      destruct (fetchIPOListFresh w) as [[r w1] tr1]. right. exact F.
    + destruct (fetchIPOListFresh w) as [[r w1] tr1]. right. exact F.
  - unfold generateIPOReport. destruct (isEmpty apiKey); [left; reflexivity|].
    right. apply trace_model_call; [|intros t; apply quiet_rethrowNormalized].
    intros r. apply quiet_parseBraced.
Qed.

Lemma trace_runChat (c : chatCall) (w : World) :
  traceOf (runChat c w) = nil \/
  traceOf (runChat c w)
  = traceOf (retryOperation (callModel (chatPromptOf c)) defaultMaxRetries
                            defaultInitialDelay w).
Proof.
  destruct c as [m x|m x]; simpl;
    [unfold generateChatResponseLite | unfold generateChatResponseDetailed];
    (destruct (isEmpty apiKey); [left; reflexivity|]);
    right; apply trace_model_call; intros; apply quiet_ret.
Qed.

(** The budget of one retried model call with the default arguments. *)
Lemma default_retry_budget {T} (operation : World -> outcome T * World) (w : World) :
  let tr := traceOf (retryOperation operation defaultMaxRetries
                                    defaultInitialDelay w) in
  (invocations tr <= 3)%nat /\ 0 <= totalWait tr <= 15000.
Proof.
  cbv zeta. unfold retryOperation. split.
  - apply (retryLoop_attempts operation defaultMaxRetries defaultInitialDelay
             defaultMaxRetries O (Prim VUndefined) w eq_refl).
    unfold defaultMaxRetries. lia.
  - apply (retryLoop_totalWait operation defaultMaxRetries defaultInitialDelay
             defaultMaxRetries O (Prim VUndefined) w);
      unfold defaultMaxRetries, defaultInitialDelay; lia.
Qed.

End QuietFacts.

(** X26.  One call of any of the seven functions of the service makes at
    most one retried model call, with the prompt of that function: it
    invokes the model at most three times and spends at most 15 seconds in
    backoff waits, whatever the model does. *)
Theorem service_call_budget {P : Platform} (w : World) :
  (forall c : reportCall,
      (invocations (traceOf (runReport c w)) <= 3)%nat /\
      0 <= totalWait (traceOf (runReport c w)) <= 15000 /\
      (traceOf (runReport c w) = nil \/
       traceOf (runReport c w)
       = traceOf (retryOperation (callModel (promptOf c)) defaultMaxRetries
                                 defaultInitialDelay w))) /\
  (forall c : chatCall,
      (invocations (traceOf (runChat c w)) <= 3)%nat /\
      0 <= totalWait (traceOf (runChat c w)) <= 15000 /\
      (traceOf (runChat c w) = nil \/
       traceOf (runChat c w)
       = traceOf (retryOperation (callModel (chatPromptOf c)) defaultMaxRetries
                                 defaultInitialDelay w))).
Proof.
  split; intros c.
  - pose proof (trace_runReport c w) as T.
    split; [|split; [|exact T]]; destruct T as [-> | ->];
      try (apply default_retry_budget); unfold totalWait; simpl; lia.
  - pose proof (trace_runChat c w) as T.
    split; [|split; [|exact T]]; destruct T as [-> | ->];
      try (apply default_retry_budget); unfold totalWait; simpl; lia.
Qed.

(** ** An IPO list without its member *)

Section MissingMemberFacts.

Context {P : Platform}.

Lemma parseBraced_object (failure text : string) (v : value) (w : World) :
  0 <= indexOf "{" text <= lastIndexOf "}" text ->
  JSON_parse (String.substring (Z.to_nat (indexOf "{" text))
                (Z.to_nat (lastIndexOf "}" text - indexOf "{" text + 1)) text)
  = Some v ->
  parseBraced failure text w = (Return v, w, nil).
Proof.
  intros [F L] Pv. unfold parseBraced.
  assert (C : negb (indexOf "{" text =? -1) && negb (lastIndexOf "}" text =? -1)
              = true).
  { apply andb_true_intro. split; apply negb_true_iff, Z.eqb_neq; lia. }
  rewrite C. rewrite substring_segment.
  - replace (lastIndexOf "}" text + 1 - indexOf "{" text)
      with (lastIndexOf "}" text - indexOf "{" text + 1) by lia.
    rewrite Pv. reflexivity.
  - lia.
  - pose proof (lastIndexOf_bound "}" text). lia.
Qed.

End MissingMemberFacts.

(** X27.  When the model answers the IPO list prompt with a JSON object
    that has no [ipos] member, [fetchIPOList] does not fail: it returns
    [undefined] and caches it.  The mount effect of the IPO view then puts
    [undefined] in the place of the list, where [filteredIPOList] throws a
    TypeError; and for the next hour every call that is not forced gets
    the same [undefined] from the cache without asking the model. *)
Theorem loadList_without_ipos {P : Platform} (onDataUpdate : bool)
    (s : IPODashboard.State) (w w1 : World) (response : option string)
    (tr0 : list event) (fs : list (string * value)) :
  isEmpty apiKey = false ->
  ipoListCache w = None ->
  retryOperation (callModel IPOListPrompt) defaultMaxRetries defaultInitialDelay w
  = (Return response, w1, tr0) ->
  let text := stripFences (default EmptyString response) in
  let first := indexOf "{" text in
  let last := lastIndexOf "}" text in
  0 <= first <= last ->
  JSON_parse (String.substring (Z.to_nat first) (Z.to_nat (last - first + 1)) text)
  = Some (VObj fs) ->
  lookupField "ipos" fs = VUndefined ->
  exists s' w',
    IPODashboard.loadList onDataUpdate s w = (s', None, w', tr0) /\
    IPODashboard.ipoList s' = VUndefined /\
    IPODashboard.filteredIPOList s' = None /\
    ipoListCache w'
    = Some {| data := VUndefined; timestamp := Date_now (ext w1) |} /\
    forall e, Date_now e - Date_now (ext w1) < IPO_CACHE_TTL ->
              fetchIPOList false (setExt e w')
              = (Return VUndefined, setExt e w', nil).
Proof.
  intros K N A text first last B Pv M.
  assert (F : fetchIPOList false w
              = (Return VUndefined,
                 worldOf (saveCache STORAGE_IPO_LIST VUndefined
                            (Date_now_again (ext w1))
                            (setIpoListCache
                               (Some {| data := VUndefined;
                                        timestamp := Date_now (ext w1) |}) w1)),
                 tr0)).
  { rewrite (fetchIPOList_miss K w false)
      by (right; intros e E; rewrite N in E; discriminate).
    unfold fetchIPOListFresh, tryCatch. unfold bind at 1. rewrite A. cbv zeta.
    fold text. unfold bind at 1.
    rewrite (parseBraced_object "Failed to parse IPO list." text (VObj fs) w1 B Pv).
    unfold member, getProp. rewrite M.
    unfold bind, ret, dateNow, dateNowAgain, modify, saveCache, worldOf. simpl.
    rewrite !app_nil_r. reflexivity. }
  unfold IPODashboard.loadList. rewrite F.
  eexists _, _. split; [reflexivity|]. split; [reflexivity|].
  split; [reflexivity|]. split.
  - unfold saveCache, modify, worldOf. simpl.
    destruct (localStorage w1); [destruct (setItemThrows (ext w1))|]; reflexivity.
  - intros e L.
    apply (fetchIPOList_hit K _ {| data := VUndefined;
                                   timestamp := Date_now (ext w1) |}).
    + unfold saveCache, modify, worldOf. simpl.
      destruct (localStorage w1); [destruct (setItemThrows (ext w1))|]; reflexivity.
    + exact L.
Qed.

Lemma loadList_without_ipos_witness :
  exists s' w',
    IPODashboard.loadList false IPODashboard.initial noIposWorld
    = (s', None, w', Invoked :: nil) /\
    IPODashboard.ipoList s' = VUndefined /\
    IPODashboard.filteredIPOList s' = None.
Proof.
  destruct (@loadList_without_ipos (scriptedPlatform "key") false
              IPODashboard.initial noIposWorld
              (snd (callModel IPOListPrompt noIposWorld))
              (Some (quoted "{'items':[]}")) (Invoked :: nil)
              (("items", VArr nil) :: nil))
    as (s' & w' & H & L & F & _); try reflexivity.
  - vm_compute. split; discriminate.
  - exists s', w'. split; [exact H|]. split; [exact L | exact F].
Defined.

(** ** Normalizing twice *)

Section StableFacts.

Context {P : Platform}.

(** No message of the table carries a nested payload. *)
Lemma classifyTable_message_plain (st : value) (m : string) (syn : bool) :
  nestedError (VStr (snd (fst (classifyTable st m syn)))) = None.
Proof.
  unfold classifyTable.
  repeat match goal with
         | |- context [if ?b then _ else _] => destruct b
         end; vm_compute; reflexivity.
Qed.

End StableFacts.

(** X28.  What [handleApiError] builds, it leaves alone: when it answers a
    failure with a new descriptor, that descriptor, given to
    [handleApiError] again, is thrown as it is, and the world does not
    change. *)
Theorem handleApiError_stable_on_built {P : Platform} (error : thrown) (w : World) :
  fst (handleApiError error w) <> error ->
  normalizerCrashes error w = false ->
  handleApiError (fst (handleApiError error w)) (snd (handleApiError error w))
  = handleApiError error w.
Proof.
  intros N C.
  destruct (handleApiError error w) as [t w'] eqn:E. simpl in N. simpl.
  unfold normalizerCrashes in C. unfold handleApiError in E.
  set (h := unwrapForNormalize (heap w) error) in *.
  destruct (readFailure h error) as [[[details st] m]|expr]; [|discriminate].
  destruct (descriptorShaped _ _ _);
    [injection E as <- _; contradiction N; reflexivity|].
  pose proof (classifyTable_message_plain st m (instanceofSyntaxError h error)) as Pl.
  pose proof (built_descriptor_shaped h st m (instanceofSyntaxError h error) details)
    as Sh.
  destruct (classifyTable st m (instanceofSyntaxError h error))
    as [[title message] r].
  simpl in Pl. injection E as <- <-.
  apply (handleApiError_passthrough _ _ message).
  - simpl heap. rewrite readProp_fresh. reflexivity.
  - exact Pl.
  - exact Sh.
Qed.

Lemma handleApiError_stable_on_built_witness :
  handleApiError (Ref 1) (snd (handleApiError (Ref 0) heldBadRequestWorld))
  = handleApiError (Ref 0) heldBadRequestWorld.
Proof.
  apply (@handleApiError_stable_on_built (scriptedPlatform "key") (Ref 0)
           heldBadRequestWorld); [vm_compute; discriminate | reflexivity].
Defined.
